(** * job-tracker-automation: the Reply Classifier and the Job Status Checker

    A shallow embedding of the two batch scripts of the repository and the
    properties of their card-matching / classification / routing pipeline.

    Modelling conventions.
    - A JavaScript string is a [string]: the bytes of its UTF-8 encoding.
      The text that decides what the scripts do is ASCII (addresses, tags,
      labels); case conversion acts on the letters A-Z / a-z and [trim] on
      the ASCII white space (TAB, LF, VT, FF, CR, SPACE), bytes above 127
      being left alone by both.  Where the code counts or classifies
      characters beyond ASCII the model follows it: a length is a number of
      UTF-16 code units, and the white space of a pattern is that of
      JavaScript.
    - An absent ([undefined]) environment value is [None]; a card description
      or a thread id that is absent behaves in this code exactly like the
      empty string (both are falsy), and is modelled as [""].
    - The outside world (Gmail, Trello, the Groq service, ntfy.sh) is a record
      of oracles that answer from the history of the run so far; the run
      records every external call and every line written to the error stream
      in a trace.  Output written with [console.log] is not modelled. *)

From Stdlib Require Import String Ascii List Bool Arith Lia.
From Stdlib Require Import DecimalString.
Import ListNotations.
Open Scope list_scope.
Open Scope string_scope.
Open Scope nat_scope.

(* ================================================================== *)
(** ** JavaScript string primitives used by the scripts *)
(* ================================================================== *)

Module JS.

(** The double quote and the line feed, written by code. *)
Definition dquote : string := String "034" "".
Definition nl : string := String "010" "".

(** Truthiness of a string value: only the empty string is falsy. *)
Definition truthy (s : string) : bool :=
  match s with "" => false | _ => true end.

(** Truthiness of a value that may be [undefined]. *)
Definition truthy_opt (o : option string) : bool :=
  match o with Some s => truthy s | None => false end.

(** A value that may be [undefined], written into a template literal or
    passed on once it is known to be there. *)
Definition text_of (o : option string) : string :=
  match o with Some s => s | None => "undefined" end.

(** [a || b] on strings. *)
Definition or_else (a b : string) : string := if truthy a then a else b.

Definition is_upper (c : ascii) : bool :=
  let n := nat_of_ascii c in (65 <=? n) && (n <=? 90).
Definition is_lower (c : ascii) : bool :=
  let n := nat_of_ascii c in (97 <=? n) && (n <=? 122).
Definition is_digit (c : ascii) : bool :=
  let n := nat_of_ascii c in (48 <=? n) && (n <=? 57).

Definition lower_char (c : ascii) : ascii :=
  if is_upper c then ascii_of_nat (nat_of_ascii c + 32) else c.
Definition upper_char (c : ascii) : ascii :=
  if is_lower c then ascii_of_nat (nat_of_ascii c - 32) else c.

Fixpoint map_chars (f : ascii -> ascii) (s : string) : string :=
  match s with
  | "" => ""
  | String c s' => String (f c) (map_chars f s')
  end.

(** [s.toLowerCase()] and [s.toUpperCase()]. *)
Definition toLowerCase (s : string) : string := map_chars lower_char s.
Definition toUpperCase (s : string) : string := map_chars upper_char s.

(** The white space and the line terminators of ASCII: the characters of
    one byte among those that [trim] strips and the pattern escape [\s]
    accepts. *)
Definition is_space (c : ascii) : bool :=
  let n := nat_of_ascii c in ((9 <=? n) && (n <=? 13)) || (n =? 32).

Fixpoint trimStart (s : string) : string :=
  match s with
  | "" => ""
  | String c s' => if is_space c then trimStart s' else s
  end.

(** [trimEnd] keeps a character when it is not white space or when
    something is kept after it. *)
Fixpoint trimEnd (s : string) : string :=
  match s with
  | "" => ""
  | String c s' =>
      match trimEnd s' with
      | "" => if is_space c then "" else String c ""
      | t => String c t
      end
  end.

(** [s.trim()]. *)
Definition trim (s : string) : string := trimEnd (trimStart s).

(** [s.startsWith(p)]. *)
Fixpoint startsWith (s p : string) {struct p} : bool :=
  match p, s with
  | "", _ => true
  | String _ _, "" => false
  | String a p', String b s' => Ascii.eqb a b && startsWith s' p'
  end.

(** [s.includes(x)]: [x] occurs in [s] as a substring. *)
Fixpoint includes (s x : string) : bool :=
  startsWith s x ||
  match s with
  | "" => false
  | String _ s' => includes s' x
  end.

(** [s.split(sep)] for a one-character separator. *)
Fixpoint split (sep : ascii) (s : string) : list string :=
  match s with
  | "" => [""]
  | String c s' =>
      if Ascii.eqb c sep then "" :: split sep s'
      else match split sep s' with
           | [] => [String c ""]
           | h :: t => String c h :: t
           end
  end.

(** [s.replace(/\./g, '\\.')]: every dot gets a backslash before it. *)
Fixpoint escapeDots (s : string) : string :=
  match s with
  | "" => ""
  | String c s' =>
      if Ascii.eqb c "." then String "\" (String "." (escapeDots s'))
      else String c (escapeDots s')
  end.

(** [arr.join(sep)]. *)
Definition join (sep : string) (l : list string) : string := String.concat sep l.

(** The UTF-16 code units that a byte of a UTF-8 text stands for: one for a
    character of one, two or three bytes, counted at its first byte, two for
    a character of four bytes (a surrogate pair), none for a continuation
    byte. *)
Definition unit_width (c : ascii) : nat :=
  let n := nat_of_ascii c in
  if n <? 128 then 1 else if n <? 192 then 0 else if n <? 240 then 1 else 2.

(** [s.length]: a length in UTF-16 code units. *)
Fixpoint units (s : string) : nat :=
  match s with
  | "" => 0
  | String c s' => unit_width c + units s'
  end.

(** U+FFFD, which stands for a lone surrogate when a text is sent. *)
Definition replacement : string := String "239" (String "191" (String "189" "")).

(** [s.substring(0, n)], as it is sent: the characters that fit in the
    first [n] code units; a cut inside a surrogate pair leaves a lone
    surrogate, sent as U+FFFD. *)
Fixpoint take_units (n : nat) (s : string) : string :=
  match s with
  | "" => ""
  | String c s' =>
      match unit_width c with
      | 0 => String c (take_units n s')
      | w => if w <=? n then String c (take_units (n - w) s')
             else if n =? 0 then "" else replacement
      end
  end.

(** A number in a template literal: its decimal digits. *)
Definition ofNat (n : nat) : string := NilEmpty.string_of_uint (Nat.to_uint n).

(** [arr.find(p)]: the first element that satisfies [p]. *)
Definition find {A : Type} (p : A -> bool) (l : list A) : option A := List.find p l.

(** The longest prefix without [>] and what follows it. *)
Fixpoint span_not_gt (s : string) : string * string :=
  match s with
  | "" => ("", "")
  | String c s' =>
      if Ascii.eqb c ">" then ("", s)
      else let (a, b) := span_not_gt s' in (String c a, b)
  end.

(** [s.match(/<([^>]+)>/)?.[1]]: the text of the leftmost [<...>] with a
    non-empty body free of [>].  The class [[^>]+] is greedy and can only
    stop at a [>] or at the end of the string, so at each [<] the body is the
    longest run without [>], and the attempt succeeds when that run is not
    empty and a [>] follows it. *)
Fixpoint match_angle (s : string) : option string :=
  match s with
  | "" => None
  | String c s' =>
      if Ascii.eqb c "<" then
        match span_not_gt s' with
        | (String b body, String _ _) => Some (String b body)
        | _ => match_angle s'
        end
      else match_angle s'
  end.

End JS.

(* ================================================================== *)
(** ** Regular expressions: [new RegExp(source, 'i')] and [test] *)
(* ================================================================== *)

(** The domain pattern of the Reply Classifier is built at run time from the
    sender's domain, so its meaning depends on how the pattern text is read.
    The model reads the part of the pattern language that such a text can
    reach without character classes, anchors or counted repetition:
    characters, the dot, the escapes [\s \d \w] and escaped punctuation,
    groups, alternation and the quantifiers [* + ?] (greedy or lazy).  A
    pattern text outside that part is [Unsupported]: the model says nothing
    about it.  [test] asks whether some substring matches, which for this
    part of the language does not depend on the order in which a
    backtracking matcher tries the alternatives.

    The text searched is read by its UTF-8 bytes.  [\s] accepts the white
    space of JavaScript, each character beyond ASCII by the bytes of its
    encoding.  With the flag [i] an ASCII character of the pattern matches
    itself in either case and nothing else (a character beyond ASCII is
    never folded to an ASCII one); the letters beyond ASCII that the flag
    also folds are outside the model, and the properties below are about
    patterns made of ASCII characters. *)

Module RegExp.

(** Sets of one-byte characters: the ASCII white space, the digits, the
    characters of a word. *)
Inductive charclass : Type := AsciiSpace | Digit | Word.

Inductive atom : Type :=
| Lit (c : ascii)
| AnyChar
| Class (k : charclass).

Inductive regex : Type :=
| Never
| Empty
| Atom (a : atom)
| Seq (r1 r2 : regex)
| Alt (r1 r2 : regex)
| Star (r : regex).

Inductive token : Type :=
| TAtom (a : atom)
| TWhite
| TStar | TPlus | TQuest
| TOpen | TClose | TBar.

Inductive compiled (A : Type) : Type :=
| Compiled (a : A)
| SyntaxError
| Unsupported.
Arguments Compiled {A} a.
Arguments SyntaxError {A}.
Arguments Unsupported {A}.

Definition push_token (t : token) (r : compiled (list token)) : compiled (list token) :=
  match r with
  | Compiled ts => Compiled (t :: ts)
  | SyntaxError => SyntaxError
  | Unsupported => Unsupported
  end.

Definition is_alnum (c : ascii) : bool :=
  JS.is_upper c || JS.is_lower c || JS.is_digit c.

(** What [\e] stands for.  A punctuation character after the backslash
    stands for itself. *)
Definition escape (e : ascii) : option token :=
  if Ascii.eqb e "s" then Some TWhite
  else if Ascii.eqb e "d" then Some (TAtom (Class Digit))
  else if Ascii.eqb e "w" then Some (TAtom (Class Word))
  else if is_alnum e then None
  else Some (TAtom (Lit e)).

(** Characters with a meaning of their own in a pattern. *)
Definition is_syntax (c : ascii) : bool :=
  existsb (Ascii.eqb c)
    ["\"; "."; "*"; "+"; "?"; "("; ")"; "|"; "["; "{"; "^"; "$"]%char.

Fixpoint lex (s : string) : compiled (list token) :=
  match s with
  | "" => Compiled []
  | String c rest =>
      if Ascii.eqb c "\" then
        match rest with
        | "" => SyntaxError
        | String e rest' =>
            match escape e with
            | Some t => push_token t (lex rest')
            | None => Unsupported
            end
        end
      else if Ascii.eqb c "." then push_token (TAtom AnyChar) (lex rest)
      else if Ascii.eqb c "*" then push_token TStar (lex rest)
      else if Ascii.eqb c "+" then push_token TPlus (lex rest)
      else if Ascii.eqb c "?" then push_token TQuest (lex rest)
      else if Ascii.eqb c ")" then push_token TClose (lex rest)
      else if Ascii.eqb c "|" then push_token TBar (lex rest)
      else if Ascii.eqb c "(" then
        match rest with
        | String q rest1 =>
            if Ascii.eqb q "?" then
              match rest1 with
              | String k rest2 =>
                  if Ascii.eqb k ":" then push_token TOpen (lex rest2)
                  else Unsupported
              | "" => SyntaxError
              end
            else push_token TOpen (lex rest)
        | "" => push_token TOpen (lex rest)
        end
      else if is_syntax c then Unsupported
      else push_token (TAtom (Lit c)) (lex rest)
  end.

(** What a quantifier may follow. *)
Inductive last_term : Type := NoTerm | Term | Quantified.

(** A group being read: the alternatives already closed by [|] and the terms
    of the current alternative, both latest first. *)
Record frame : Type := mkFrame {
  alts : list regex;
  terms : list regex;
  last : last_term
}.

Definition empty_frame : frame := mkFrame [] [] NoTerm.

Definition mk_seq (rs : list regex) : regex := fold_right Seq Empty rs.
Definition mk_alt (rs : list regex) : regex := fold_right Alt Never rs.

Definition close_seq (f : frame) : regex := mk_seq (rev (terms f)).
Definition close_frame (f : frame) : regex := mk_alt (rev (close_seq f :: alts f)).

Definition push_term (r : regex) (f : frame) : frame :=
  mkFrame (alts f) (r :: terms f) Term.

Definition quantify (q : regex -> regex) (f : frame) : option frame :=
  match last f, terms f with
  | Term, r :: rs => Some (mkFrame (alts f) (q r :: rs) Quantified)
  | _, _ => None
  end.

Definition plus (r : regex) : regex := Seq r (Star r).
Definition opt (r : regex) : regex := Alt r Empty.

(** A text as a pattern: its characters one after the other. *)
Fixpoint literal (s : string) : regex :=
  match s with
  | "" => Empty
  | String c s' => Seq (Atom (Lit c)) (literal s')
  end.

Definition utf8_2 (a b : nat) : string :=
  String (ascii_of_nat a) (String (ascii_of_nat b) "").
Definition utf8_3 (a b c : nat) : string :=
  String (ascii_of_nat a) (String (ascii_of_nat b) (String (ascii_of_nat c) "")).

(** The white space of JavaScript beyond ASCII, each character by the bytes
    of its UTF-8 encoding: U+00A0, U+1680, U+2000 to U+200A, U+2028, U+2029,
    U+202F, U+205F, U+3000 and U+FEFF. *)
Definition wide_spaces : list string :=
  (utf8_2 194 160 :: utf8_3 225 154 128
   :: map (utf8_3 226 128) [128; 129; 130; 131; 132; 133; 134; 135; 136; 137; 138]
   ++ [utf8_3 226 128 168; utf8_3 226 128 169; utf8_3 226 128 175;
       utf8_3 226 129 159; utf8_3 227 128 128; utf8_3 239 187 191])%list.

(** [\s]: one white-space character, of one byte or more. *)
Definition white_space : regex :=
  mk_alt (Atom (Class AsciiSpace) :: map literal wide_spaces).

(** A run of white-space characters: what [\s*] matches. *)
Fixpoint white_run (s : string) : bool :=
  match s with
  | "" => true
  | String a s1 =>
      if JS.is_space a then white_run s1
      else
        match s1 with
        | "" => false
        | String b s2 =>
            if existsb (String.eqb (String a (String b ""))) wide_spaces
            then white_run s2
            else
              match s2 with
              | "" => false
              | String c s3 =>
                  if existsb (String.eqb (String a (String b (String c ""))))
                       wide_spaces
                  then white_run s3
                  else false
              end
        end
  end.

Fixpoint parse (ts : list token) (cur : frame) (stack : list frame) : compiled regex :=
  match ts with
  | [] => match stack with
          | [] => Compiled (close_frame cur)
          | _ :: _ => SyntaxError
          end
  | TAtom a :: ts' => parse ts' (push_term (Atom a) cur) stack
  | TWhite :: ts' => parse ts' (push_term white_space cur) stack
  | TStar :: ts' =>
      match quantify Star cur with
      | Some f => parse ts' f stack
      | None => SyntaxError
      end
  | TPlus :: ts' =>
      match quantify plus cur with
      | Some f => parse ts' f stack
      | None => SyntaxError
      end
  | TQuest :: ts' =>
      match last cur with
      | Quantified => parse ts' (mkFrame (alts cur) (terms cur) NoTerm) stack
      | _ => match quantify opt cur with
             | Some f => parse ts' f stack
             | None => SyntaxError
             end
      end
  | TOpen :: ts' => parse ts' empty_frame (cur :: stack)
  | TBar :: ts' => parse ts' (mkFrame (close_seq cur :: alts cur) [] NoTerm) stack
  | TClose :: ts' =>
      match stack with
      | [] => SyntaxError
      | parent :: stack' => parse ts' (push_term (close_frame cur) parent) stack'
      end
  end.

(** [new RegExp(source, flags)] where [flags] is empty or ['i']. *)
Record RegExp : Type := mkRegExp { re : regex; ignoreCase : bool }.

Definition compile (source : string) (ic : bool) : compiled RegExp :=
  match lex source with
  | Compiled ts =>
      match parse ts empty_frame [] with
      | Compiled r => Compiled (mkRegExp r ic)
      | SyntaxError => SyntaxError
      | Unsupported => Unsupported
      end
  | SyntaxError => SyntaxError
  | Unsupported => Unsupported
  end.

(** With the flag [i] two characters are compared by their upper-case
    forms, which for the bytes of a text are those of the ASCII letters. *)
Definition canon (ic : bool) (c : ascii) : ascii :=
  if ic then JS.upper_char c else c.

Definition in_class (k : charclass) (c : ascii) : bool :=
  match k with
  | AsciiSpace => JS.is_space c
  | Digit => JS.is_digit c
  | Word => is_alnum c || Ascii.eqb c "_"
  end.

Definition atom_matches (ic : bool) (a : atom) (c : ascii) : bool :=
  match a with
  | Lit x => Ascii.eqb (canon ic x) (canon ic c)
  | AnyChar => negb (Ascii.eqb c "010" || Ascii.eqb c "013")
  | Class k => in_class k c
  end.

Fixpoint nullable (r : regex) : bool :=
  match r with
  | Never => false
  | Empty => true
  | Atom _ => false
  | Seq r1 r2 => nullable r1 && nullable r2
  | Alt r1 r2 => nullable r1 || nullable r2
  | Star _ => true
  end.

(** What is left of [r] after reading the character [c]. *)
Fixpoint deriv (ic : bool) (c : ascii) (r : regex) : regex :=
  match r with
  | Never => Never
  | Empty => Never
  | Atom a => if atom_matches ic a c then Empty else Never
  | Seq r1 r2 =>
      if nullable r1 then Alt (Seq (deriv ic c r1) r2) (deriv ic c r2)
      else Seq (deriv ic c r1) r2
  | Alt r1 r2 => Alt (deriv ic c r1) (deriv ic c r2)
  | Star r1 => Seq (deriv ic c r1) (Star r1)
  end.

(** Some prefix of [s] matches [r]. *)
Fixpoint match_prefix (ic : bool) (r : regex) (s : string) : bool :=
  nullable r ||
  match s with
  | "" => false
  | String c s' => match_prefix ic (deriv ic c r) s'
  end.

(** Some substring of [s] matches [r]. *)
Fixpoint search (ic : bool) (r : regex) (s : string) : bool :=
  match_prefix ic r s ||
  match s with
  | "" => false
  | String _ s' => search ic r s'
  end.

(** [rx.test(s)] for a pattern without the flags [g] and [y]. *)
Definition test (rx : RegExp) (s : string) : bool :=
  search (ignoreCase rx) (re rx) s.

(** The words a pattern matches. *)
Inductive Matches (ic : bool) : regex -> string -> Prop :=
| MEmpty : Matches ic Empty ""
| MAtom a c : atom_matches ic a c = true -> Matches ic (Atom a) (String c "")
| MSeq r1 r2 u v : Matches ic r1 u -> Matches ic r2 v -> Matches ic (Seq r1 r2) (u ++ v)
| MAltL r1 r2 w : Matches ic r1 w -> Matches ic (Alt r1 r2) w
| MAltR r1 r2 w : Matches ic r2 w -> Matches ic (Alt r1 r2) w
| MStarNil r : Matches ic (Star r) ""
| MStarCons r u v : Matches ic r u -> Matches ic (Star r) v -> Matches ic (Star r) (u ++ v).

End RegExp.

(* ================================================================== *)
(** ** The outside world and the effects of a run *)
(* ================================================================== *)

(** A Trello card as the scripts read it. *)
Record Card : Type := mkCard {
  card_id : string;
  card_name : string;
  card_desc : string
}.

(** A Trello attachment. *)
Record Attachment : Type := mkAttachment {
  isUpload : bool;
  url : string
}.

(** A Gmail message in [metadata] format, of the shape the Gmail API
    documents: [data.payload.headers] is an array of name/value pairs.  The
    loop reads it outside every [try] (lines 214-217); an answer without
    that array is outside the model. *)
Record Header : Type := mkHeader { name : string; value : string }.

Record Message : Type := mkMessage {
  threadId : string;
  headers : list Header;
  snippet : string
}.

(** The named values of [process.env] that the scripts read. *)
Record Env : Type := mkEnv {
  TRELLO_API_KEY : option string;
  TRELLO_TOKEN : option string;
  TRELLO_SENT_CV_LIST_ID : option string;
  TRELLO_ESTABLISHED_CONTACT_LIST_ID : option string;
  TRELLO_INITIAL_INTERVIEW_LIST_ID : option string;
  TRELLO_CODING_INTERVIEW_LIST_ID : option string;
  TRELLO_ARCHITECTURE_INTERVIEW_LIST_ID : option string;
  TRELLO_MANAGEMENT_AND_HR_LIST_ID : option string;
  TRELLO_DROPPED_INITIAL_LIST_ID : option string;
  TRELLO_JOB_DELETED_FROM_WEBSITE_LIST_ID : option string;
  GROQ_API_KEY : option string;
  NTFY_TOPIC : option string;
  MY_EMAIL : option string
}.

(** The calls a script makes to its collaborators. *)
Inductive request : Type :=
| Authorize
| ListCards (listId : string)
| ListMessages
| GetMessage (messageId : string)
| MarkRead (messageId : string)
| MoveCard (cardId idList : string)
| ListAttachments (cardId : string)
| ChatCompletion (model systemPrompt userPrompt : string) (webSearch : bool)
| Notify (topic title body tags : string).

(** What a run does that can be observed from outside, in order: a call
    and whether it succeeded, a line on the error stream, a pause, the exit
    status set by the crash handler. *)
Inductive Event : Type :=
| Call (r : request) (ok : bool)
| Stderr (text : string)
| Delay (ms : nat)
| Exit (code : nat).

(** What a run can raise: an error of a collaborator with its message, an
    error of the language itself, or a pattern text that the model of
    [RegExp] does not read. *)
Inductive exn : Type :=
| Error (message : string)
| TypeError
| RegExpSyntaxError (source : string)
| OutsideModel.

Inductive reply (A : Type) : Type :=
| Success (a : A)
| Failure (message : string).
Arguments Success {A} a.
Arguments Failure {A} message.

(** The collaborators.  Each answers from the history of the run, so that a
    service may answer the same request differently at different times.  A
    request is refused ([Failure], the rejected promise that the [catch]
    blocks see) or answered with a value of the shape its API documents
    ([Success]): a Trello listing is an array of cards, an attachment
    listing an array of attachments, a chat completion carries the text of
    its first choice.  A fulfilled request whose body has another shape is
    outside the model: the scripts do not check the shape, and read some of
    the answers outside every [try] (the message headers at lines 214-217,
    the card listings at lines 237-248 and 457-465). *)
Record Services : Type := mkServices {
  svc_authorize : list Event -> reply unit;
  svc_list_cards : list Event -> string -> reply (list Card);
  svc_list_messages : list Event -> reply (list string);
  svc_get_message : list Event -> string -> reply Message;
  svc_mark_read : list Event -> string -> reply unit;
  svc_move_card : list Event -> string -> string -> reply unit;
  svc_attachments : list Event -> string -> reply (list Attachment);
  svc_chat : list Event -> string -> string -> string -> reply string;
  svc_notify : list Event -> string -> string -> string -> reply unit;
  (** the text the engine gives to an error of the language *)
  engine_message : exn -> string;
  engine_stack : exn -> string
}.

(** The state outside the process: the list each card is in, the messages
    that carry the UNREAD label, and what has happened so far. *)
Record World : Type := mkWorld {
  board : string -> option string;
  unread : string -> bool;
  trace : list Event
}.

Definition record (e : Event) (w : World) : World :=
  mkWorld (board w) (unread w) (trace w ++ [e]).

Definition set_list (cardId idList : string) (w : World) : World :=
  mkWorld (fun c => if String.eqb c cardId then Some idList else board w c)
          (unread w) (trace w).

Definition clear_unread (messageId : string) (w : World) : World :=
  mkWorld (board w)
          (fun m => if String.eqb m messageId then false else unread w m)
          (trace w).

(** *** A state and exception monad over the world *)

Inductive outcome (A : Type) : Type :=
| Ok (a : A)
| Throw (e : exn).
Arguments Ok {A} a.
Arguments Throw {A} e.

Definition M (A : Type) : Type := World -> outcome A * World.

Definition ret {A : Type} (a : A) : M A := fun w => (Ok a, w).

Definition bind {A B : Type} (c : M A) (k : A -> M B) : M B :=
  fun w => match c w with
           | (Ok a, w') => k a w'
           | (Throw e, w') => (Throw e, w')
           end.

Definition throw {A : Type} (e : exn) : M A := fun w => (Throw e, w).

(** [catch] sees the errors of the program, not the limit of the model. *)
Definition catchable (e : exn) : bool :=
  match e with OutsideModel => false | _ => true end.

(** [try { c } catch (e) { h e }]. *)
Definition try_catch {A : Type} (c : M A) (h : exn -> M A) : M A :=
  fun w => match c w with
           | (Ok a, w') => (Ok a, w')
           | (Throw e, w') => if catchable e then h e w' else (Throw e, w')
           end.

Declare Scope eff_scope.
Delimit Scope eff_scope with eff.
Notation "x <- c ;; k" := (bind c (fun x => k))
  (at level 61, c at next level, right associativity) : eff_scope.
Notation "c ;; k" := (bind c (fun _ => k))
  (at level 61, right associativity) : eff_scope.
Open Scope eff_scope.

Definition emit (e : Event) : M unit := fun w => (Ok tt, record e w).

(** A call to a collaborator: the answer comes from the history before the
    call, the call and its success are recorded, a failure is raised as an
    error carrying the collaborator's message. *)
Definition call {A : Type} (r : request) (answer : list Event -> reply A) : M A :=
  fun w => match answer (trace w) with
           | Success a => (Ok a, record (Call r true) w)
           | Failure m => (Throw (Error m), record (Call r false) w)
           end.

(** [error.message]. *)
Definition message_of (svc : Services) (e : exn) : string :=
  match e with
  | Error m => m
  | _ => engine_message svc e
  end.

(** [console.error(a, b, ...)] and [console.warn(...)]: one line on the
    error stream, the arguments separated by a space. *)
Definition console_error (args : list string) : M unit := emit (Stderr (JS.join " " args)).
Definition console_warn (args : list string) : M unit := emit (Stderr (JS.join " " args)).

Section Collaborators.

Variable svc : Services.

Definition authorize : M unit := call Authorize (svc_authorize svc).

(** [trello.makeRequest('get', `/1/lists/${listId}/cards`)]. *)
Definition trello_get_cards (listId : string) : M (list Card) :=
  call (ListCards listId) (fun h => svc_list_cards svc h listId).

(** [trello.makeRequest('get', `/1/cards/${cardId}/attachments`)]. *)
Definition trello_get_attachments (cardId : string) : M (list Attachment) :=
  call (ListAttachments cardId) (fun h => svc_attachments svc h cardId).

(** [trello.makeRequest('put', `/1/cards/${cardId}`, { idList })]: when the
    request succeeds the card is in the list [idList]. *)
Definition trello_move_card (cardId idList : string) : M unit :=
  fun w => match call (MoveCard cardId idList)
                      (fun h => svc_move_card svc h cardId idList) w with
           | (Ok a, w') => (Ok a, set_list cardId idList w')
           | r => r
           end.

(** [gmail.users.messages.list({ q: 'is:inbox is:unread', maxResults: 20 })],
    with [res.data.messages || []] applied to the answer. *)
Definition gmail_list_unread : M (list string) :=
  call ListMessages (svc_list_messages svc).

(** [gmail.users.messages.get({ id, format: 'metadata' })]. *)
Definition gmail_get (messageId : string) : M Message :=
  call (GetMessage messageId) (fun h => svc_get_message svc h messageId).

(** [gmail.users.messages.modify({ id, removeLabelIds: ['UNREAD'] })]. *)
Definition gmail_remove_unread (messageId : string) : M unit :=
  fun w => match call (MarkRead messageId)
                      (fun h => svc_mark_read svc h messageId) w with
           | (Ok a, w') => (Ok a, clear_unread messageId w')
           | r => r
           end.

(** [groq.chat.completions.create(...)] followed by
    [response.choices[0].message.content]; an answer without that field
    fails like a failed request (both happen inside the same [try]). *)
Definition groq_chat (model systemPrompt userPrompt : string) (webSearch : bool) : M string :=
  call (ChatCompletion model systemPrompt userPrompt webSearch)
       (fun h => svc_chat svc h model systemPrompt userPrompt).

(** [fetch(`https://ntfy.sh/${topic}`, { method: 'POST', ... })]. *)
Definition ntfy_post (topic title body tags : string) : M unit :=
  call (Notify topic title body tags) (fun h => svc_notify svc h topic title body).

End Collaborators.

(* ================================================================== *)
(** ** The Reply Classifier *)
(* ================================================================== *)

Module ReplyClassifier.

Import JS.

Definition aiModelName : string := "llama-3.1-8b-instant".

(** The fixed label set. *)
Definition categories : list string :=
  [ "INITIAL_INTERVIEW"; "CODING_CHALLENGE"; "TECHNICAL_INTERVIEW";
    "HR_INTERVIEW"; "REJECTION"; "OFFER"; "OTHER_REPLY" ].

(** One line of the run's summary. *)
Record LogEntry : Type := mkLogEntry {
  log_name : string;
  log_list : string;
  log_subject : string
}.

(** The variables of [main] that the loop over the messages updates. *)
Record Locals : Type := mkLocals {
  trelloCards : list Card;
  movedCardsLog : list LogEntry;
  cardsFailed : nat
}.

(** [headers.find(h => h.name.toLowerCase() === key)?.value || fallback]. *)
Definition header_value (key : string) (hs : list Header) (fallback : string) : string :=
  match find (fun h => String.eqb (toLowerCase (name h)) key) hs with
  | Some h => or_else (value h) fallback
  | None => fallback
  end.

(** [fromHeader.match(/<([^>]+)>/)?.[1] || fromHeader.trim()]. *)
Definition fromEmail_of (fromHeader : string) : string :=
  match match_angle fromHeader with
  | Some a => a
  | None => trim fromHeader
  end.

(** [fromEmail.includes('@') ? fromEmail.split('@')[1].toLowerCase() : null]. *)
Definition domain_of (fromEmail : string) : option string :=
  if includes fromEmail "@"
  then Some (toLowerCase (nth 1 (split "@" fromEmail) ""))
  else None.

(** The source text of the domain pattern:
    [`domain:\\s*(${escapedDomain}|\\[${escapedDomain}\\])`]. *)
Definition domain_pattern (domain : string) : string :=
  let escapedDomain := escapeDots domain in
  "domain:\s*(" ++ escapedDomain ++ "|\[" ++ escapedDomain ++ "\])".

Definition has_thread_tag (threadIdToMatch : string) (card : Card) : bool :=
  truthy (card_desc card) && includes (card_desc card) threadIdToMatch.

Definition has_domain_tag (domainRegex : RegExp.RegExp) (card : Card) : bool :=
  truthy (card_desc card) && RegExp.test domainRegex (card_desc card).

(** The thread-id attempt. *)
Definition match_by_thread (emailThreadId : string) (cards : list Card) : option Card :=
  if truthy emailThreadId
  then find (has_thread_tag ("threadId: " ++ emailThreadId)) cards
  else None.

(** The card matcher: the thread id first; the sender's domain only when
    that gave nothing and there is a domain.  The answer is the card (if
    any) and the match method; building the pattern can raise. *)
Definition match_card (emailThreadId : string) (domain : option string)
    (cards : list Card) : outcome (option (Card * string)) :=
  match match_by_thread emailThreadId cards with
  | Some card => Ok (Some (card, "Thread ID"))
  | None =>
      match domain with
      | Some d =>
          if truthy d then
            match RegExp.compile (domain_pattern d) true with
            | RegExp.Compiled domainRegex =>
                match find (has_domain_tag domainRegex) cards with
                | Some card => Ok (Some (card, "Domain"))
                | None => Ok None
                end
            | RegExp.SyntaxError => Throw (RegExpSyntaxError (domain_pattern d))
            | RegExp.Unsupported => Throw OutsideModel
            end
          else Ok None
      | None => Ok None
      end
  end.

Definition lift {A : Type} (o : outcome A) : M A := fun w => (o, w).

(** The label-to-list router: the [switch] on the classification label.
    The answer is [targetListId] and [targetListName]. *)
Definition route (env : Env) (classificationLabel : string) : option string * string :=
  if String.eqb classificationLabel "INITIAL_INTERVIEW"
  then (TRELLO_INITIAL_INTERVIEW_LIST_ID env, "Initial Interview")
  else if String.eqb classificationLabel "CODING_CHALLENGE"
  then (TRELLO_CODING_INTERVIEW_LIST_ID env, "Coding Interview")
  else if String.eqb classificationLabel "TECHNICAL_INTERVIEW"
  then (TRELLO_ARCHITECTURE_INTERVIEW_LIST_ID env, "Architecture Interview")
  else if String.eqb classificationLabel "HR_INTERVIEW"
  then (TRELLO_MANAGEMENT_AND_HR_LIST_ID env, "Management and HR")
  else if String.eqb classificationLabel "REJECTION"
  then (TRELLO_DROPPED_INITIAL_LIST_ID env, "Dropped Initial")
  else if String.eqb classificationLabel "OTHER_REPLY"
  then (TRELLO_ESTABLISHED_CONTACT_LIST_ID env, "Established Contact")
  else (None, "Unknown List").

Definition shortSubject (subject : string) : string :=
  if 30 <? units subject
  then take_units 27 subject ++ "..."
  else subject.

Definition logLine (log : LogEntry) : string :=
  "- " ++ log_name log ++ " -> " ++ log_list log ++ " (from: " ++ dquote
       ++ shortSubject (log_subject log) ++ dquote ++ ")".

(** The two prompts of the classification request. *)
Definition systemPrompt : string :=
  "You are an expert email classifier for a job application tracker. Classify the email into ONE of the following categories: "
  ++ join ", " categories ++ ". Respond ONLY with the single category name.".

Definition userPrompt (subject snippet : string) : string :=
  let emailText := "Subject: " ++ subject ++ nl ++ "Snippet: " ++ snippet in
  "Classify this email:" ++ nl ++ "---" ++ nl ++ emailText ++ nl ++ "---".

Section Run.

Variable svc : Services.
Variable env : Env.

(** The module-level client handle: set when the API key is there. *)
Definition groq_init : M bool :=
  if truthy_opt (GROQ_API_KEY env) then ret true
  else console_error
         ["❌ Error: GROQ_API_KEY not found in .env file. AI classification disabled."] ;;
       ret false.

Definition markEmailAsRead (messageId : string) : M unit :=
  try_catch (gmail_remove_unread svc messageId)
    (fun error =>
       console_error ["    - Failed to mark email " ++ messageId ++ " as read:";
                      message_of svc error]).

Definition classifyEmailWithAI (groq : bool) (subject snippet : string) : M string :=
  if negb groq then ret "OTHER_REPLY"
  else
    try_catch
      (content <- groq_chat svc aiModelName systemPrompt (userPrompt subject snippet) false ;;
       let classification := toUpperCase (trim content) in
       if existsb (String.eqb classification) categories
       then ret classification
       else console_warn
              ["    - AI returned an unexpected classification: " ++ dquote
               ++ classification ++ dquote ++ ". Defaulting to OTHER_REPLY."] ;;
            ret "OTHER_REPLY")
      (fun error =>
         console_error ["    - ❌ Error calling Groq API:"; message_of svc error] ;;
         ret "OTHER_REPLY").

Definition sendNotification (title message : string) : M unit :=
  match NTFY_TOPIC env with
  | Some topic =>
      if truthy topic then
        try_catch (ntfy_post svc topic title message "robot")
          (fun error =>
             console_error ["    - ❌ Error sending notification:"; message_of svc error])
      else ret tt
  | None => ret tt
  end.

(** The move of a matched card: the block that follows the [switch]. *)
Definition move_matched (messageId subject : string) (matchingCard : Card)
    (classificationLabel : string) (L : Locals) : M Locals :=
  let (targetListId, targetListName) := route env classificationLabel in
  if truthy_opt targetListId then
    try_catch
      (trello_move_card svc (card_id matchingCard) (text_of targetListId) ;;
       markEmailAsRead messageId ;;
       ret (mkLocals
              (filter (fun card => negb (String.eqb (card_id card) (card_id matchingCard)))
                      (trelloCards L))
              (movedCardsLog L ++ [mkLogEntry (card_name matchingCard) targetListName subject])%list
              (cardsFailed L)))
      (fun moveError =>
         console_error ["    ❌ Error moving card " ++ card_id matchingCard ++ ":";
                        message_of svc moveError] ;;
         ret (mkLocals (trelloCards L) (movedCardsLog L) (S (cardsFailed L))))
  else ret L.

(** The body of the loop over the unread messages.  [None] stands for the
    [continue] taken when the message cannot be fetched. *)
Definition process_message (groq : bool) (messageId : string) (L : Locals) : M Locals :=
  fetched <- try_catch
               (msg <- gmail_get svc messageId ;; ret (Some msg))
               (fun getError =>
                  console_error
                    [nl ++ "❌ Error fetching details for email ID " ++ messageId ++ ":";
                     message_of svc getError] ;;
                  ret None) ;;
  match fetched with
  | None => ret L
  | Some msg =>
      let subject := header_value "subject" (headers msg) "No Subject" in
      let fromHeader := header_value "from" (headers msg) "" in
      let toHeader := header_value "to" (headers msg) "" in
      yourEmailAddress <-
        match MY_EMAIL env with
        | Some a => ret a
        | None => throw TypeError
        end ;;
      if negb (includes (toLowerCase toHeader) (toLowerCase yourEmailAddress))
      then ret L
      else
        let fromEmail := fromEmail_of fromHeader in
        m <- lift (match_card (threadId msg) (domain_of fromEmail) (trelloCards L)) ;;
        match m with
        | Some (matchingCard, _) =>
            classificationLabel <- classifyEmailWithAI groq subject (snippet msg) ;;
            move_matched messageId subject matchingCard classificationLabel L
        | None => ret L
        end
  end.

Fixpoint process_messages (groq : bool) (messages : list string) (L : Locals) : M Locals :=
  match messages with
  | [] => ret L
  | messageId :: rest =>
      L' <- process_message groq messageId L ;;
      process_messages groq rest L'
  end.

(** The summary notification. *)
Definition summary (messages : list string) (L : Locals) : string * string :=
  let n := List.length (movedCardsLog L) in
  if 0 <? n
  then ("Trello Bot: " ++ ofNat n ++ " Card(s) Moved",
        "Moved " ++ ofNat n ++ " card(s):" ++ nl ++ join nl (map logLine (movedCardsLog L)))
  else ("Trello Bot: All Clear",
        "Processed " ++ ofNat (List.length messages) ++ " unread emails. No new actions taken.").

(** [main].  In each [try] the value [None] (or [false]) stands for the
    [return] of its [catch] block. *)
Definition main (groq : bool) : M unit :=
  connected <- try_catch (authorize svc ;; ret true)
                 (fun gmailError =>
                    console_error ["❌ Failed to connect to Gmail:"; message_of svc gmailError] ;;
                    sendNotification "Trello Bot Error"
                      ("Failed to connect to Gmail: " ++ message_of svc gmailError) ;;
                    ret false) ;;
  if negb connected then ret tt
  else if negb (truthy_opt (TRELLO_API_KEY env)) || negb (truthy_opt (TRELLO_TOKEN env))
          || negb (truthy_opt (TRELLO_SENT_CV_LIST_ID env))
  then
    console_error
      ["❌ Error: Ensure TRELLO_API_KEY, TRELLO_TOKEN, and TRELLO_SENT_CV_LIST_ID are set in .env"] ;;
    sendNotification "Trello Bot Error" "Trello environment variables are missing."
  else
    fetchedCards <- try_catch
                      (cards <- trello_get_cards svc (text_of (TRELLO_SENT_CV_LIST_ID env)) ;;
                       ret (Some cards))
                      (fun err =>
                         console_error ["❌ Error getting Trello cards:"; message_of svc err] ;;
                         sendNotification "Trello Bot Error"
                           ("Failed to fetch Trello cards: " ++ message_of svc err) ;;
                         ret None) ;;
    match fetchedCards with
    | None => ret tt
    | Some cards =>
        listed <- try_catch (ms <- gmail_list_unread svc ;; ret (Some ms))
                    (fun listError =>
                       console_error ["❌ Error fetching email list from Gmail:";
                                      message_of svc listError] ;;
                       sendNotification "Trello Bot Error"
                         ("Failed to fetch Gmail list: " ++ message_of svc listError) ;;
                       ret None) ;;
        match listed with
        | None => ret tt
        | Some [] => ret tt
        | Some messages =>
            L <- process_messages groq messages (mkLocals cards [] 0) ;;
            let (title, body) := summary messages L in
            sendNotification title body
        end
    end.

(** The whole script: the module-level setup, [main], and the handler
    attached with [main().catch(...)].  The answer is the exit status. *)
Definition script : M nat :=
  groq <- groq_init ;;
  try_catch (main groq ;; ret 0)
    (fun error =>
       console_error [nl ++ "--- Critical Error ---"] ;;
       console_error ["An unhandled error occurred:"; message_of svc error] ;;
       console_error [engine_stack svc error] ;;
       sendNotification "Trello Bot: CRITICAL ERROR"
         ("Script crashed: " ++ message_of svc error) ;;
       emit (Exit 1) ;;
       ret 1).

End Run.

End ReplyClassifier.

(* ================================================================== *)
(** ** The Job Status Checker *)
(* ================================================================== *)

Module JobStatusChecker.

Import JS.

Definition aiModelName : string := "groq/compound".

(** The variables of [main] that the loop over the cards updates. *)
Record Locals : Type := mkLocals {
  cardsMoved : nat;
  deletedJobNames : list string
}.

Definition quoted (s : string) : string := dquote ++ s ++ dquote.

Definition systemPrompt : string :=
  "You are a job status verifier. Your task is to check the provided URL and determine if the job posting is "
  ++ quoted "ACTIVE" ++ " or " ++ quoted "DELETED" ++ ". " ++ nl
  ++ "A job is " ++ quoted "DELETED" ++ " if the page is a 404, says " ++ quoted "job not found"
  ++ ", " ++ quoted "position filled" ++ ", " ++ quoted "no longer available"
  ++ ", or redirects to a generic careers page." ++ nl
  ++ "A job is " ++ quoted "ACTIVE"
  ++ " if the posting is still visible and seems to be accepting applications." ++ nl
  ++ "Respond ONLY with the single word 'ACTIVE' or 'DELETED'.".

(** [attachments.find(att => att.isUpload === false && att.url)]. *)
Definition is_link (att : Attachment) : bool :=
  negb (isUpload att) && truthy (url att).

Definition userPrompt (url : string) : string :=
  "Please check this URL and report its status: " ++ url.

Section Run.

Variable svc : Services.
Variable env : Env.

(** Asks the AI agent whether the posting behind [url] is still there:
    [true] is ACTIVE, [false] is DELETED. *)
Definition checkJobStatusWithAI (groq : bool) (url : string) : M bool :=
  if negb groq then ret true
  else
    try_catch
      (content <- groq_chat svc aiModelName systemPrompt (userPrompt url) true ;;
       let classification := toUpperCase (trim content) in
       if String.eqb classification "ACTIVE" then ret true
       else if String.eqb classification "DELETED" then ret false
       else console_warn
              ["    - AI returned unexpected status: " ++ dquote ++ classification
               ++ dquote ++ ". Assuming ACTIVE to be safe."] ;;
            ret true)
      (fun error =>
         console_error ["    - ❌ Error checking job status with AI:"; message_of svc error] ;;
         ret true).

Definition sendNotification (title message : string) : M unit :=
  match NTFY_TOPIC env with
  | Some topic =>
      if truthy topic then
        try_catch (ntfy_post svc topic title message "broom,robot")
          (fun error =>
             console_error ["    - ❌ Error sending notification:"; message_of svc error])
      else ret tt
  | None => ret tt
  end.

(** Step 5 of the loop body: the card moves only when the job is not
    active. *)
Definition move_if_deleted (card : Card) (isJobActive : bool) (L : Locals) : M Locals :=
  if negb isJobActive then
    try_catch
      (trello_move_card svc (card_id card)
         (text_of (TRELLO_JOB_DELETED_FROM_WEBSITE_LIST_ID env)) ;;
       ret (mkLocals (S (cardsMoved L)) (deletedJobNames L ++ [card_name card])%list))
      (fun moveError =>
         console_error ["    - ❌ Error moving card:"; message_of svc moveError] ;;
         ret L)
  else ret L.

(** The body of the loop over the cards.  [None] stands for the
    [continue] taken when the card has no link or its attachments cannot be
    fetched. *)
Definition process_card (groq : bool) (card : Card) (L : Locals) : M Locals :=
  jobUrl <- try_catch
              (attachments <- trello_get_attachments svc (card_id card) ;;
               match find is_link attachments with
               | Some linkAttachment => ret (Some (url linkAttachment))
               | None => ret None
               end)
              (fun attError =>
                 console_error ["    - ❌ Error fetching attachments:"; message_of svc attError] ;;
                 ret None) ;;
  match jobUrl with
  | None => ret L
  | Some jobUrl =>
      isJobActive <- checkJobStatusWithAI groq jobUrl ;;
      L' <- move_if_deleted card isJobActive L ;;
      emit (Delay 5000) ;;
      ret L'
  end.

Fixpoint process_cards (groq : bool) (cards : list Card) (L : Locals) : M Locals :=
  match cards with
  | [] => ret L
  | card :: rest =>
      L' <- process_card groq card L ;;
      process_cards groq rest L'
  end.

Definition summary (allActiveCards : list Card) (L : Locals) : string * string :=
  let n := ofNat (List.length allActiveCards) in
  if 0 <? cardsMoved L
  then ("Trello Job Checker: " ++ ofNat (cardsMoved L) ++ " Job(s) Deleted",
        "Checked " ++ n ++ " cards and moved " ++ ofNat (cardsMoved L)
        ++ " deleted job(s):" ++ nl ++ "- " ++ join (nl ++ "- ") (deletedJobNames L))
  else ("Trello Job Checker", "Checked " ++ n ++ " cards. All jobs are still active.").

(** [main].  The client handles are set only after the configuration
    check. *)
Definition main : M unit :=
  if negb (truthy_opt (TRELLO_API_KEY env)) || negb (truthy_opt (TRELLO_TOKEN env))
     || negb (truthy_opt (GROQ_API_KEY env))
     || negb (truthy_opt (TRELLO_JOB_DELETED_FROM_WEBSITE_LIST_ID env))
     || negb (truthy_opt (TRELLO_SENT_CV_LIST_ID env))
  then
    console_error ["❌ Error: One or more required environment variables are missing."] ;;
    console_error
      ["   (Check TRELLO_API_KEY, TRELLO_TOKEN, GROQ_API_KEY, TRELLO_SENT_CV_LIST_ID, TRELLO_JOB_DELETED_FROM_WEBSITE_LIST_ID)"] ;;
    sendNotification "Job Checker Error" "Required .env variables are missing."
  else
    let groq := true in
    let listToScanId := text_of (TRELLO_SENT_CV_LIST_ID env) in
    fetched <- try_catch (cards <- trello_get_cards svc listToScanId ;; ret (Some cards))
                 (fun err =>
                    console_error ["❌ Error fetching Trello cards:"; message_of svc err] ;;
                    sendNotification "Job Checker Error"
                      ("Failed to fetch Trello cards: " ++ message_of svc err) ;;
                    ret None) ;;
    match fetched with
    | None => ret tt
    | Some [] => ret tt
    | Some allActiveCards =>
        L <- process_cards groq allActiveCards (mkLocals 0 []) ;;
        let (title, body) := summary allActiveCards L in
        sendNotification title body
    end.

(** The whole script with the handler attached by [main().catch(...)]; the
    answer is the exit status. *)
Definition script : M nat :=
  try_catch (main ;; ret 0)
    (fun error =>
       console_error [nl ++ "--- Critical Error ---"] ;;
       console_error ["An unhandled error occurred:"; message_of svc error] ;;
       console_error [engine_stack svc error] ;;
       sendNotification "Job Checker: CRITICAL ERROR"
         ("Script crashed: " ++ message_of svc error) ;;
       emit (Exit 1) ;;
       ret 1).

End Run.

End JobStatusChecker.

(* ================================================================== *)
(** ** The Gmail authorisation of the Reply Classifier *)
(* ================================================================== *)

(** [saveCredentials] and [authorize], over the two files they use and the
    calls they make to the Google libraries.  A file is modelled by what
    reading and parsing it gives, and [JSON.stringify] followed by a later
    [JSON.parse] gives the value back without its [undefined] properties.
    The scopes of a client are strings. *)
Module Auth.

Import JS.

(** A JSON value as [JSON.parse] gives it.  A number is only tested for
    being zero, so the naturals stand for the numbers. *)
#[local] Unset Elimination Schemes.
Inductive Json : Type :=
| JNull
| JBool (b : bool)
| JNum (n : nat)
| JStr (s : string)
| JArr (items : list Json)
| JObj (fields : list (string * Json)).
#[local] Set Elimination Schemes.

(** [fs.readFile] followed by [JSON.parse]: the error that one of them
    raises, or the document. *)
Inductive File : Type :=
| Unreadable (message : string)
| Doc (v : Json).

(** [client.credentials.scope]: an array of scopes, one string, or anything
    else ([undefined] included). *)
Inductive Scope : Type :=
| ScopeArray (scopes : list string)
| ScopeString (s : string)
| ScopeOther.

(** [client.credentials]; an [undefined] refresh token is [None]. *)
Record Credentials : Type := mkCredentials {
  scope : Scope;
  refresh_token : option Json
}.

(** An OAuth2 client; a falsy [credentials] is [None]. *)
Record Client : Type := mkClient {
  credentials : option Credentials
}.

(** The calls to the outside, with their outcome. *)
Inductive AuthEvent : Type :=
| Unlink (ok : bool)
| Authenticate (ok : bool)
| FromJSON (saved : Json) (ok : bool)
| WriteFile (payload : Json) (ok : bool).

(** The Google libraries and the file system, answering from the history:
    [authenticate({ scopes: SCOPES, keyfilePath })], [google.auth.fromJSON],
    [fs.unlink] and [fs.writeFile] on the token file; what reading the token
    file gives once it is removed, and after a write that failed. *)
Record Google : Type := mkGoogle {
  g_authenticate : list AuthEvent -> reply Client;
  g_fromJSON : list AuthEvent -> Json -> reply Client;
  g_unlink : list AuthEvent -> reply unit;
  g_writeFile : list AuthEvent -> Json -> reply unit;
  g_removed : File;
  g_spoiled : list AuthEvent -> File
}.

(** [TOKEN_PATH], [CREDENTIALS_PATH] and what has been called so far. *)
Record Disk : Type := mkDisk {
  token_file : File;
  credentials_file : File;
  calls : list AuthEvent
}.

Definition note (e : AuthEvent) (d : Disk) : Disk :=
  mkDisk (token_file d) (credentials_file d) (calls d ++ [e]).

Definition set_token (f : File) (d : Disk) : Disk :=
  mkDisk f (credentials_file d) (calls d).

Definition SCOPES : list string :=
  ["https://www.googleapis.com/auth/gmail.readonly";
   "https://www.googleapis.com/auth/gmail.modify"].

Definition truthy_json (v : Json) : bool :=
  match v with
  | JNull => false
  | JBool b => b
  | JNum n => negb (n =? 0)
  | JStr s => truthy s
  | JArr _ | JObj _ => true
  end.

(** Reading a property of [null] raises a TypeError. *)
Definition is_null (v : Json) : bool :=
  match v with JNull => true | _ => false end.

Fixpoint lookup (k : string) (fields : list (string * Json)) : option Json :=
  match fields with
  | [] => None
  | (k', v) :: rest => if String.eqb k k' then Some v else lookup k rest
  end.

(** [v.k] for a value [v] other than [null], and a name [k] that no
    prototype defines: only an object can have it. *)
Definition prop (v : Json) (k : string) : option Json :=
  match v with
  | JObj fields => lookup k fields
  | _ => None
  end.

(** [keys.installed || keys.web], for [keys] other than [null]. *)
Definition client_key (keys : Json) : option Json :=
  match prop keys "installed" with
  | Some v => if truthy_json v then Some v else prop keys "web"
  | None => prop keys "web"
  end.

(** The text saved as the scope of a client. *)
Definition scope_string (s : Scope) : string :=
  match s with
  | ScopeArray scopes => join " " scopes
  | ScopeString s => s
  | ScopeOther => ""
  end.

(** A property of an object literal: [JSON.stringify] leaves it out when
    its value is [undefined]. *)
Definition field (k : string) (v : option Json) : list (string * Json) :=
  match v with
  | Some v => [(k, v)]
  | None => []
  end.

(** The document written to the token file. *)
Definition payload (key : Json) (creds : Credentials) : Json :=
  JObj ([("type", JStr "authorized_user")]
        ++ field "client_id" (prop key "client_id")
        ++ field "client_secret" (prop key "client_secret")
        ++ field "refresh_token" (refresh_token creds)
        ++ [("scope", JStr (scope_string (scope creds)))])%list.

(** [saveCredentials(client)], for a client with credentials. *)
Definition saveCredentials (g : Google) (creds : Credentials) (d : Disk)
  : outcome unit * Disk :=
  match credentials_file d with
  | Unreadable m => (Throw (Error m), d)
  | Doc keys =>
      if is_null keys then (Throw TypeError, d)
      else
        match client_key keys with
        | None => (Throw TypeError, d)
        | Some key =>
            if is_null key then (Throw TypeError, d)
            else
              match g_writeFile g (calls d) (payload key creds) with
              | Success _ =>
                  (Ok tt, note (WriteFile (payload key creds) true)
                            (set_token (Doc (payload key creds)) d))
              | Failure m =>
                  (Throw (Error m),
                   note (WriteFile (payload key creds) false)
                     (set_token (g_spoiled g (calls d)) d))
              end
        end
  end.

(** [savedCredentials?.scope?.split(' ') || []]; [None] is the TypeError
    of calling [split] on a value that has none. *)
Definition savedScopes_of (savedCredentials : Json) : option (list string) :=
  match savedCredentials with
  | JObj fields =>
      match lookup "scope" fields with
      | None | Some JNull => Some []
      | Some (JStr s) => Some (split " " s)
      | Some _ => None
      end
  | _ => Some []
  end.

(** [try { await fs.unlink(TOKEN_PATH); } catch (e) { }]. *)
Definition unlink_token (g : Google) (d : Disk) : Disk :=
  match g_unlink g (calls d) with
  | Success _ => note (Unlink true) (set_token (g_removed g) d)
  | Failure _ => note (Unlink false) d
  end.

(** [authorize()]. *)
Definition authorize (g : Google) (d : Disk) : outcome Client * Disk :=
  let savedCredentials :=
    match token_file d with
    | Doc v => v
    | Unreadable _ => JNull
    end in
  match savedScopes_of savedCredentials with
  | None => (Throw TypeError, d)
  | Some savedScopes =>
      if truthy_json savedCredentials
         && forallb (fun scope => existsb (String.eqb scope) savedScopes) SCOPES
      then
        match g_fromJSON g (calls d) savedCredentials with
        | Success client => (Ok client, note (FromJSON savedCredentials true) d)
        | Failure m => (Throw (Error m), note (FromJSON savedCredentials false) d)
        end
      else
        let d1 := unlink_token g d in
        match g_authenticate g (calls d1) with
        | Failure m => (Throw (Error m), note (Authenticate false) d1)
        | Success client =>
            let d2 := note (Authenticate true) d1 in
            match credentials client with
            | Some creds =>
                match saveCredentials g creds d2 with
                | (Ok _, d3) => (Ok client, d3)
                | (Throw e, d3) => (Throw e, d3)
                end
            | None => (Ok client, d2)
            end
        end
  end.

End Auth.

(* ================================================================== *)
(** ** Vocabulary of the properties *)
(* ================================================================== *)

(** [x] occurs in [s]. *)
Definition Contains (s x : string) : Prop :=
  exists pre post, s = pre ++ x ++ post.

(** Equal up to the case of the letters. *)
Definition ci_eq (a b : string) : Prop := JS.toUpperCase a = JS.toUpperCase b.

(** [x] occurs in [s] up to the case of the letters. *)
Definition ContainsCI (s x : string) : Prop :=
  exists pre mid post, s = pre ++ mid ++ post /\ ci_eq mid x.

(** A run of white space (possibly empty). *)
Fixpoint all_space (s : string) : bool :=
  match s with
  | "" => true
  | String c s' => JS.is_space c && all_space s'
  end.

(** [x] is the first element of [l] with the property [P]. *)
Definition FirstWith {A : Type} (P : A -> Prop) (l : list A) (x : A) : Prop :=
  exists before after,
    l = (before ++ x :: after)%list /\ P x /\ forall y, In y before -> ~ P y.

(** What the domain pattern accepts for the domain [D]: the tag [domain:],
    any run of white space (none included; the white space of JavaScript,
    beyond ASCII too), then [D] or [[D]], letters in either case. *)
Definition DomainTagged (D desc : string) : Prop :=
  exists pre tag ws body post,
    desc = pre ++ tag ++ ws ++ body ++ post /\
    ci_eq tag "domain:" /\ RegExp.white_run ws = true /\
    (ci_eq body D \/ ci_eq body ("[" ++ D ++ "]")).

(** A domain text whose pattern reads every character as itself: none of
    [\ * + ? ( ) | [ { ^ $]; the dot is escaped by the code. *)
Definition plain_char (c : ascii) : bool :=
  negb (RegExp.is_syntax c) || Ascii.eqb c ".".

Fixpoint plain_domain (d : string) : bool :=
  match d with
  | "" => true
  | String c d' => plain_char c && plain_domain d'
  end.

(** A text as a run of literal characters. *)
Fixpoint lits (s : string) : list RegExp.regex :=
  match s with
  | "" => []
  | String c s' => RegExp.Atom (RegExp.Lit c) :: lits s'
  end.

(** The pattern that the code builds for a plain domain [D], as a tree. *)
Definition domain_regex (D : string) : RegExp.regex :=
  RegExp.mk_alt
    [ RegExp.mk_seq
        (lits "domain:" ++
         [ RegExp.Star RegExp.white_space;
           RegExp.mk_alt [ RegExp.mk_seq (lits D);
                           RegExp.mk_seq (lits ("[" ++ D ++ "]")) ] ])%list ].

(** The same at the level of the tokens. *)
Fixpoint lit_tokens (s : string) : list RegExp.token :=
  match s with
  | "" => []
  | String c s' => RegExp.TAtom (RegExp.Lit c) :: lit_tokens s'
  end.

Definition push_tokens (ts : list RegExp.token)
    (r : RegExp.compiled (list RegExp.token)) : RegExp.compiled (list RegExp.token) :=
  fold_right RegExp.push_token r ts.

(** The tokens of the pattern text for a plain domain [D]. *)
Definition domain_tokens (D : string) : list RegExp.token :=
  (lit_tokens "domain:" ++
   [RegExp.TWhite; RegExp.TStar; RegExp.TOpen] ++
   lit_tokens D ++ [RegExp.TBar; RegExp.TAtom (RegExp.Lit "[")] ++ lit_tokens D ++
   [RegExp.TAtom (RegExp.Lit "]"); RegExp.TClose])%list.

(** The move requests of a trace in order, each with the card and whether
    it succeeded; the cards a move was requested for; the cards moved. *)
Fixpoint moves (tr : list Event) : list (string * bool) :=
  match tr with
  | [] => []
  | Call (MoveCard cardId _) ok :: tr' => (cardId, ok) :: moves tr'
  | _ :: tr' => moves tr'
  end.

Definition move_attempts (tr : list Event) : list string := map fst (moves tr).

Definition moved_ids (tr : list Event) : list string :=
  map fst (filter snd (moves tr)).

(** [c] relates the world before it to the world after it by [R], whatever
    it answers. *)
Definition preserves {A : Type} (R : World -> World -> Prop) (c : M A) : Prop :=
  forall w r w', c w = (r, w') -> R w w'.

(** No card move was requested between two worlds. *)
Definition same_moves (w w' : World) : Prop := moves (trace w') = moves (trace w).

(** The lists of the cards and the UNREAD labels are the same. *)
Definition same_remote (w w' : World) : Prop :=
  board w' = board w /\ unread w' = unread w.

(** The ways in which the reply classification has no usable answer from
    the service: no client, a failed request, an answer that is not a
    category once trimmed and put in upper case. *)
Definition classifier_unavailable (svc : Services) (groq : bool)
    (subject snippet : string) (w : World) : Prop :=
  let answer := svc_chat svc (trace w) ReplyClassifier.aiModelName
                  ReplyClassifier.systemPrompt
                  (ReplyClassifier.userPrompt subject snippet) in
  groq = false \/
  (exists m, answer = Failure m) \/
  (exists content,
      answer = Success content /\
      ~ In (JS.toUpperCase (JS.trim content)) ReplyClassifier.categories).

(** The ways in which the status check has no usable answer from the
    service: no client, a failed request, an answer that is neither ACTIVE
    nor DELETED once trimmed and put in upper case. *)
Definition status_unavailable (svc : Services) (groq : bool) (jobUrl : string)
    (w : World) : Prop :=
  let answer := svc_chat svc (trace w) JobStatusChecker.aiModelName
                  JobStatusChecker.systemPrompt (JobStatusChecker.userPrompt jobUrl) in
  groq = false \/
  (exists m, answer = Failure m) \/
  (exists content,
      answer = Success content /\
      JS.toUpperCase (JS.trim content) <> "ACTIVE" /\
      JS.toUpperCase (JS.trim content) <> "DELETED").

(** The Reply Classifier's required values: one of them is absent or
    empty. *)
Definition reply_config_missing (env : Env) : bool :=
  negb (JS.truthy_opt (TRELLO_API_KEY env)) || negb (JS.truthy_opt (TRELLO_TOKEN env))
  || negb (JS.truthy_opt (TRELLO_SENT_CV_LIST_ID env)).

(** The Job Status Checker's required values: one of them is absent or
    empty. *)
Definition checker_config_missing (env : Env) : bool :=
  negb (JS.truthy_opt (TRELLO_API_KEY env)) || negb (JS.truthy_opt (TRELLO_TOKEN env))
  || negb (JS.truthy_opt (GROQ_API_KEY env))
  || negb (JS.truthy_opt (TRELLO_JOB_DELETED_FROM_WEBSITE_LIST_ID env))
  || negb (JS.truthy_opt (TRELLO_SENT_CV_LIST_ID env)).

(** A card whose description carries the thread tag of [tid]. *)
Definition ThreadTagged (tid : string) (card : Card) : Prop :=
  Contains (card_desc card) ("threadId: " ++ tid).

(** A card whose description carries the domain tag as the specification
    writes it: [domain: D] or [domain: [D]], letters in either case. *)
Definition LiterallyTagged (D : string) (card : Card) : Prop :=
  ContainsCI (card_desc card) ("domain: " ++ D) \/
  ContainsCI (card_desc card) ("domain: [" ++ D ++ "]").

(** Sample data for the worked cases. *)
Module Samples.

Definition acme_by_thread : Card := mkCard "c2" "Acme" "applied 1 May; threadId: 18c2f".
Definition acme_by_domain : Card := mkCard "c1" "Acme" "domain: acme.com".
Definition acme_no_space : Card := mkCard "c0" "Acme (old)" "domain:acme.com".
Definition acme_bracketed : Card := mkCard "c3" "Acme" "Domain: [ACME.com]".
Definition plus_card : Card := mkCard "c4" "A+B" "domain: a+b.com".

(** Collaborators for the worked cases: everything succeeds, one card in
    the Sent CV list, one unread message from Acme. *)
Definition acme_reply : Message :=
  mkMessage "18c2f"
    [mkHeader "To" "Me@x.com"; mkHeader "From" "HR <hr@acme.com>";
     mkHeader "Subject" "Re: your application"]
    "We regret to inform you".

Definition to_someone_else : Message :=
  mkMessage "18c2f"
    [mkHeader "To" "team@x.com"; mkHeader "From" "HR <hr@acme.com>";
     mkHeader "Subject" "Re: your application"]
    "We regret to inform you".

Definition env : Env :=
  mkEnv (Some "key") (Some "token") (Some "L_SENT") (Some "L_CONTACT")
        (Some "L_INITIAL") (Some "L_CODING") (Some "L_ARCH") (Some "L_HR")
        (Some "L_DROPPED") (Some "L_DELETED") (Some "groq-key") (Some "topic")
        (Some "me@x.com").

Definition services (msg : Message) (chat : reply string)
    (move : list Event -> reply unit) : Services :=
  mkServices (fun _ => Success tt)
             (fun _ _ => Success [acme_by_domain])
             (fun _ => Success ["m1"; "m2"])
             (fun _ _ => Success msg)
             (fun _ _ => Success tt)
             (fun h _ _ => move h)
             (fun _ _ => Success [mkAttachment true "cv.pdf";
                                 mkAttachment false "https://acme.com/jobs/7"])
             (fun _ _ _ _ => chat)
             (fun _ _ _ _ => Success tt)
             (fun _ => "engine error")
             (fun _ => "stack").

Definition world : World := mkWorld (fun _ => Some "L_SENT") (fun _ => true) [].

(** The same collaborators with another list of unread messages. *)
Definition with_messages (ms : list string) (s : Services) : Services :=
  mkServices (svc_authorize s) (svc_list_cards s) (fun _ => Success ms)
             (svc_get_message s) (svc_mark_read s) (svc_move_card s)
             (svc_attachments s) (svc_chat s) (svc_notify s)
             (engine_message s) (engine_stack s).

(** The same collaborators with a Gmail that cannot fetch any message. *)
Definition with_failing_fetch (m : string) (s : Services) : Services :=
  mkServices (svc_authorize s) (svc_list_cards s) (svc_list_messages s)
             (fun _ _ => Failure m) (svc_mark_read s) (svc_move_card s)
             (svc_attachments s) (svc_chat s) (svc_notify s)
             (engine_message s) (engine_stack s).

(** The same collaborators with a Gmail that refuses the connection, a
    Trello that cannot list the cards, a Gmail that cannot list the
    messages. *)
Definition with_failing_authorize (m : string) (s : Services) : Services :=
  mkServices (fun _ => Failure m) (svc_list_cards s) (svc_list_messages s)
             (svc_get_message s) (svc_mark_read s) (svc_move_card s)
             (svc_attachments s) (svc_chat s) (svc_notify s)
             (engine_message s) (engine_stack s).

Definition with_failing_cards (m : string) (s : Services) : Services :=
  mkServices (svc_authorize s) (fun _ _ => Failure m) (svc_list_messages s)
             (svc_get_message s) (svc_mark_read s) (svc_move_card s)
             (svc_attachments s) (svc_chat s) (svc_notify s)
             (engine_message s) (engine_stack s).

Definition with_failing_list (m : string) (s : Services) : Services :=
  mkServices (svc_authorize s) (svc_list_cards s) (fun _ => Failure m)
             (svc_get_message s) (svc_mark_read s) (svc_move_card s)
             (svc_attachments s) (svc_chat s) (svc_notify s)
             (engine_message s) (engine_stack s).

(** The collaborators of the worked cases, all answering with success. *)
Definition friendly : Services :=
  services acme_reply (Success "REJECTION") (fun _ => Success tt).

(** The same configuration without the Groq key, without the token, and
    without the recipient address. *)
Definition env_without_groq_key : Env :=
  mkEnv (Some "key") (Some "token") (Some "L_SENT") (Some "L_CONTACT")
        (Some "L_INITIAL") (Some "L_CODING") (Some "L_ARCH") (Some "L_HR")
        (Some "L_DROPPED") (Some "L_DELETED") None (Some "topic")
        (Some "me@x.com").

Definition env_without_token : Env :=
  mkEnv (Some "key") None (Some "L_SENT") (Some "L_CONTACT")
        (Some "L_INITIAL") (Some "L_CODING") (Some "L_ARCH") (Some "L_HR")
        (Some "L_DROPPED") (Some "L_DELETED") (Some "groq-key") (Some "topic")
        (Some "me@x.com").

Definition env_without_recipient : Env :=
  mkEnv (Some "key") (Some "token") (Some "L_SENT") (Some "L_CONTACT")
        (Some "L_INITIAL") (Some "L_CODING") (Some "L_ARCH") (Some "L_HR")
        (Some "L_DROPPED") (Some "L_DELETED") (Some "groq-key") (Some "topic")
        None.

(** The same configuration without the list of the label REJECTION. *)
Definition env_without_dropped_list : Env :=
  mkEnv (Some "key") (Some "token") (Some "L_SENT") (Some "L_CONTACT")
        (Some "L_INITIAL") (Some "L_CODING") (Some "L_ARCH") (Some "L_HR")
        None (Some "L_DELETED") (Some "groq-key") (Some "topic")
        (Some "me@x.com").

End Samples.

(** The requests that move a card. *)
Definition is_move (r : request) : bool :=
  match r with MoveCard _ _ => true | _ => false end.

(** What the move block does: nothing at all; or one successful move, after
    which the card is filtered out of the candidates; or one failed move,
    after which the candidates are as before. *)
Inductive step_effect (L : ReplyClassifier.Locals) (w : World) (card : Card)
  : outcome ReplyClassifier.Locals -> World -> Prop :=
| NoMove r w' :
    same_moves w w' ->
    (forall L', r = Ok L' -> ReplyClassifier.trelloCards L' = ReplyClassifier.trelloCards L) ->
    step_effect L w card r w'
| Moved L' w' :
    moves (trace w') = (moves (trace w) ++ [(card_id card, true)])%list ->
    ReplyClassifier.trelloCards L' =
      filter (fun c => negb (String.eqb (card_id c) (card_id card))) (ReplyClassifier.trelloCards L) ->
    step_effect L w card (Ok L') w'
| MoveFailed L' w' :
    moves (trace w') = (moves (trace w) ++ [(card_id card, false)])%list ->
    ReplyClassifier.trelloCards L' = ReplyClassifier.trelloCards L ->
    step_effect L w card (Ok L') w'.

(** No candidate card has been moved. *)
Definition candidates_fresh (L : ReplyClassifier.Locals) (w : World) : Prop :=
  forall c, In c (ReplyClassifier.trelloCards L) -> ~ In (card_id c) (moved_ids (trace w)).

(** No move is requested for a card after a successful move of it. *)
Fixpoint settled (ms : list (string * bool)) : Prop :=
  match ms with
  | [] => True
  | (cardId, ok) :: rest => (ok = true -> ~ In cardId (map fst rest)) /\ settled rest
  end.

(** What an attempted notification leaves in the trace: nothing when no
    topic is configured, else the request, followed by an error line when
    the request failed. *)
Definition notification_attempt (env : Env) (title body tags : string)
    (evs : list Event) : Prop :=
  if JS.truthy_opt (NTFY_TOPIC env) then
    evs = [Call (Notify (JS.text_of (NTFY_TOPIC env)) title body tags) true] \/
    exists m,
      evs = [Call (Notify (JS.text_of (NTFY_TOPIC env)) title body tags) false;
             Stderr ("    - ❌ Error sending notification: " ++ m)]
  else evs = [].

(** The titles of the notifications sent in a trace. *)
Fixpoint notified (tr : list Event) : list string :=
  match tr with
  | [] => []
  | Call (Notify _ title _ _) _ :: tr' => title :: notified tr'
  | _ :: tr' => notified tr'
  end.

(** The pauses of a trace, in milliseconds. *)
Fixpoint delays (tr : list Event) : list nat :=
  match tr with
  | [] => []
  | Delay ms :: tr' => ms :: delays tr'
  | _ :: tr' => delays tr'
  end.

(** The requests of a trace, without their outcome. *)
Fixpoint requests (tr : list Event) : list request :=
  match tr with
  | [] => []
  | Call r _ :: tr' => r :: requests tr'
  | _ :: tr' => requests tr'
  end.

(** A text of ASCII characters only. *)
Fixpoint ascii_text (s : string) : bool :=
  match s with
  | "" => true
  | String c s' => (nat_of_ascii c <? 128) && ascii_text s'
  end.

(** The character [c] does not occur in [s]. *)
Fixpoint lacks (c : ascii) (s : string) : bool :=
  match s with
  | "" => true
  | String x s' => negb (Ascii.eqb x c) && lacks c s'
  end.

(** An event that is neither a card move nor a change of the UNREAD
    label. *)
Definition harmless (e : Event) : bool :=
  match e with
  | Call (MoveCard _ _) _ => false
  | Call (MarkRead _) _ => false
  | _ => true
  end.

(** Between two worlds no card was asked to move, no message was asked to
    be marked read, and the cards and labels are the same. *)
Definition quiet (w w' : World) : Prop :=
  board w' = board w /\ unread w' = unread w /\
  exists evs, trace w' = (trace w ++ evs)%list /\ forallb harmless evs = true.

(** The move requests of a trace with their destination, and the messages
    asked to be marked read. *)
Fixpoint move_requests (tr : list Event) : list (string * string) :=
  match tr with
  | [] => []
  | Call (MoveCard cardId idList) _ :: tr' => (cardId, idList) :: move_requests tr'
  | _ :: tr' => move_requests tr'
  end.

Fixpoint mark_requests (tr : list Event) : list string :=
  match tr with
  | [] => []
  | Call (MarkRead messageId) _ :: tr' => messageId :: mark_requests tr'
  | _ :: tr' => mark_requests tr'
  end.

(** The classification requests of a trace, by the user prompt sent. *)
Fixpoint chat_requests (tr : list Event) : list string :=
  match tr with
  | [] => []
  | Call (ChatCompletion _ _ userPrompt _) _ :: tr' => userPrompt :: chat_requests tr'
  | _ :: tr' => chat_requests tr'
  end.

(** The list ids a label can be routed to. *)
Definition destinations (env : Env) : list (option string) :=
  [ TRELLO_INITIAL_INTERVIEW_LIST_ID env; TRELLO_CODING_INTERVIEW_LIST_ID env;
    TRELLO_ARCHITECTURE_INTERVIEW_LIST_ID env; TRELLO_MANAGEMENT_AND_HR_LIST_ID env;
    TRELLO_DROPPED_INITIAL_LIST_ID env; TRELLO_ESTABLISHED_CONTACT_LIST_ID env ].

(** The sender's domain of a message, as the loop derives it. *)
Definition sender_domain (msg : Message) : option string :=
  ReplyClassifier.domain_of
    (ReplyClassifier.fromEmail_of
       (ReplyClassifier.header_value "from" (headers msg) "")).

(** A message whose domain pattern can be built: no domain, an empty one,
    or a plain one. *)
Definition readable_sender (msg : Message) : bool :=
  match sender_domain msg with
  | Some d => plain_domain d
  | None => true
  end.

(** The counters, the candidates and the move requests after one message,
    relative to before. *)
Record step_summary (env : Env) (cards : list Card) (L : ReplyClassifier.Locals)
    (w : World) (L' : ReplyClassifier.Locals) (w' : World) : Prop := mkStepSummary {
  sum_log : List.length (ReplyClassifier.movedCardsLog L') + List.length (moved_ids (trace w))
            = List.length (ReplyClassifier.movedCardsLog L) + List.length (moved_ids (trace w'));
  sum_failed : ReplyClassifier.cardsFailed L' + List.length (moved_ids (trace w')) + List.length (moves (trace w))
               = ReplyClassifier.cardsFailed L + List.length (moved_ids (trace w)) + List.length (moves (trace w'));
  sum_cards : incl (ReplyClassifier.trelloCards L') (ReplyClassifier.trelloCards L);
  sum_names : (forall e, In e (ReplyClassifier.movedCardsLog L) ->
                         exists c, In c cards /\ ReplyClassifier.log_name e = card_name c) ->
              incl (ReplyClassifier.trelloCards L) cards ->
              forall e, In e (ReplyClassifier.movedCardsLog L') ->
                        exists c, In c cards /\ ReplyClassifier.log_name e = card_name c;
  sum_requests : exists new,
      move_requests (trace w') = (move_requests (trace w) ++ new)%list /\
      Forall (fun p => In (fst p) (map card_id (ReplyClassifier.trelloCards L)) /\
                       JS.truthy (snd p) = true /\
                       In (Some (snd p)) (destinations env)) new
}.

(** A computation that always answers, and one that raises at most an
    error that [catch] sees. *)
Definition returns {A : Type} (c : M A) : Prop :=
  forall w, exists a, fst (c w) = Ok a.

Definition mild {A : Type} (c : M A) : Prop :=
  forall w, match fst (c w) with
            | Ok _ => True
            | Throw e => catchable e = true
            end.


(** [sub] is obtained from [l] by leaving elements out. *)
Inductive subseq {A : Type} : list A -> list A -> Prop :=
| subseq_nil : subseq [] []
| subseq_skip x sub l : subseq sub l -> subseq sub (x :: l)
| subseq_keep x sub l : subseq sub l -> subseq (x :: sub) (x :: l).

(** What one card of the Job Status Checker changes: at most one status
    request, followed by one pause of five seconds; at most one move request
    after a status request, for this card and to the list of the deleted
    jobs; the counter and the names grow with the accepted move; no other
    card changes its list and no message its label. *)
Definition card_summary (env : Env) (card : Card) (L : JobStatusChecker.Locals)
    (w : World) (L' : JobStatusChecker.Locals) (w' : World) : Prop :=
  exists (urls : list string) (tried moved : nat),
    moved <= tried /\ tried <= List.length urls /\ List.length urls <= 1 /\
    chat_requests (trace w') =
      (chat_requests (trace w) ++ map JobStatusChecker.userPrompt urls)%list /\
    delays (trace w') = (delays (trace w) ++ repeat 5000 (List.length urls))%list /\
    move_requests (trace w') =
      (move_requests (trace w) ++
       repeat (card_id card, JS.text_of (TRELLO_JOB_DELETED_FROM_WEBSITE_LIST_ID env))
         tried)%list /\
    moved_ids (trace w') = (moved_ids (trace w) ++ repeat (card_id card) moved)%list /\
    JobStatusChecker.cardsMoved L' = JobStatusChecker.cardsMoved L + moved /\
    JobStatusChecker.deletedJobNames L' =
      (JobStatusChecker.deletedJobNames L ++ repeat (card_name card) moved)%list /\
    unread w' = unread w /\
    (forall c, moved = 0 \/ c <> card_id card -> board w' c = board w c) /\
    (moved = 1 ->
     board w' (card_id card) =
       Some (JS.text_of (TRELLO_JOB_DELETED_FROM_WEBSITE_LIST_ID env))).

(** What the loop over the cards changes, in terms of the status requests
    sent ([urls]), the cards a move was requested for ([tried]) and the cards
    whose move was accepted ([moved]). *)
Definition checker_run (env : Env) (cards : list Card) (w w' : World)
    (urls : list string) (tried moved : list Card) : Prop :=
  subseq moved tried /\ subseq tried cards /\
  List.length tried <= List.length urls /\ List.length urls <= List.length cards /\
  chat_requests (trace w') =
    (chat_requests (trace w) ++ map JobStatusChecker.userPrompt urls)%list /\
  delays (trace w') = (delays (trace w) ++ repeat 5000 (List.length urls))%list /\
  move_requests (trace w') =
    (move_requests (trace w) ++
     map (fun c => (card_id c, JS.text_of (TRELLO_JOB_DELETED_FROM_WEBSITE_LIST_ID env)))
       tried)%list /\
  moved_ids (trace w') = (moved_ids (trace w) ++ map card_id moved)%list /\
  unread w' = unread w /\
  (forall c, ~ In c (map card_id moved) -> board w' c = board w c) /\
  (forall c, In c (map card_id moved) ->
             board w' c = Some (JS.text_of (TRELLO_JOB_DELETED_FROM_WEBSITE_LIST_ID env))).

(** The same collaborators with other attachments on every card. *)
Definition with_attachments (atts : reply (list Attachment)) (s : Services) : Services :=
  mkServices (svc_authorize s) (svc_list_cards s) (svc_list_messages s)
             (svc_get_message s) (svc_mark_read s) (svc_move_card s)
             (fun _ _ => atts) (svc_chat s) (svc_notify s)
             (engine_message s) (engine_stack s).

(** Sample data for the authorisation: a client granted the two scopes and
    one more, a client without a scope, libraries that answer with a given
    client, the file of the application keys, the disk before the first
    run, and a saved token with a given scope. *)
Module AuthSamples.

Import Auth.

Definition granted : list string :=
  ["openid"; "https://www.googleapis.com/auth/gmail.modify";
   "https://www.googleapis.com/auth/gmail.readonly"].

Definition granted_client : Client :=
  mkClient (Some (mkCredentials (ScopeArray granted) (Some (JStr "r1")))).

Definition scopeless_client : Client :=
  mkClient (Some (mkCredentials ScopeOther (Some (JStr "r1")))).

Definition google (c : Client) : Google :=
  mkGoogle (fun _ => Success c) (fun _ _ => Success c) (fun _ => Failure "ENOENT")
           (fun _ _ => Success tt) (Unreadable "ENOENT") (fun _ => Unreadable "EIO").

Definition keys : Json :=
  JObj [("installed", JObj [("client_id", JStr "id"); ("client_secret", JStr "secret")])].

Definition first_run : Disk := mkDisk (Unreadable "ENOENT") (Doc keys) [].

Definition saved_token (scope : Json) : list (string * Json) :=
  [("type", JStr "authorized_user"); ("refresh_token", JStr "r0"); ("scope", scope)].

End AuthSamples.

(** The events of a run whose client is unset: no classification request,
    and every move request goes to the list of the label OTHER_REPLY. *)
Definition unset_client_events (env : Env) (evs : list Event) : Prop :=
  chat_requests evs = [] /\
  Forall (fun p => snd p = JS.text_of (TRELLO_ESTABLISHED_CONTACT_LIST_ID env))
         (move_requests evs).

(** Between two worlds the trace grew by such events. *)
Definition calm (env : Env) (w w' : World) : Prop :=
  exists evs, trace w' = (trace w ++ evs)%list /\ unset_client_events env evs.

(* ================================================================== *)
(** ** Facts about the string primitives *)
(* ================================================================== *)

Module JSFacts.

Import JS.

Lemma append_nil_r (s : string) : s ++ "" = s.
Proof. induction s as [|c s IH]; simpl; [reflexivity | now rewrite IH]. Qed.

Lemma append_assoc (a b c : string) : (a ++ b) ++ c = a ++ (b ++ c).
Proof. induction a as [|x a IH]; simpl; [reflexivity | now rewrite IH]. Qed.

Lemma append_eq_nil (a b : string) : a ++ b = "" -> a = "" /\ b = "".
Proof. destruct a; simpl; [auto | discriminate]. Qed.

Lemma startsWith_spec (s p : string) :
  startsWith s p = true <-> exists post, s = p ++ post.
Proof.
  revert s; induction p as [|a p IH]; intros s; simpl.
  - split; [intros _; now exists s | reflexivity].
  - destruct s as [|b s].
    + split; [discriminate | intros [post H]; discriminate].
    + rewrite andb_true_iff, IH, Ascii.eqb_eq. split.
      * intros [-> [post ->]]. now exists post.
      * intros [post H]. injection H as -> ->. split; [reflexivity | now exists post].
Qed.

Lemma includes_spec (s x : string) : includes s x = true <-> Contains s x.
Proof.
  unfold Contains. induction s as [|c s IH]; simpl.
  - rewrite orb_false_r, startsWith_spec. split.
    + intros [post H]. now exists "", post.
    + intros [pre [post H]]. symmetry in H.
      apply append_eq_nil in H as [-> H]. simpl in H. now exists post.
  - rewrite orb_true_iff, startsWith_spec, IH. split.
    + intros [[post H] | [pre [post H]]].
      * now exists "", post.
      * exists (String c pre), post. simpl. now rewrite H.
    + intros [[|d pre] [post H]]; simpl in H.
      * left. now exists post.
      * right. injection H as _ H. now exists pre, post.
Qed.

Lemma truthy_contains (s x : string) : truthy x = true -> Contains s x -> truthy s = true.
Proof.
  intros Hx [pre [post ->]]. destruct pre; simpl; [|reflexivity].
  destruct x; [discriminate | reflexivity].
Qed.

(** [find] gives the first element that passes the test. *)
Lemma find_first {A : Type} (p : A -> bool) (l : list A) (x : A) :
  find p l = Some x <-> FirstWith (fun y => p y = true) l x.
Proof.
  unfold find, FirstWith. induction l as [|a l IH]; simpl.
  - split; [discriminate | intros [[|? ?] [after [H _]]]; discriminate].
  - destruct (p a) eqn:Ha.
    + split.
      * intros [= ->]. exists [], l. simpl. repeat split; auto.
      * intros [[|b before] [after [H [Hx Hb]]]]; simpl in H; injection H as -> ->.
        -- reflexivity.
        -- specialize (Hb b (or_introl eq_refl)). congruence.
    + rewrite IH. split.
      * intros [before [after [-> [Hx Hb]]]]. exists (a :: before), after.
        simpl. repeat split; auto. intros y [<- | Hy]; [congruence | now apply Hb].
      * intros [[|b before] [after [H [Hx Hb]]]]; simpl in H; injection H as -> ->.
        -- congruence.
        -- exists before, after. repeat split; auto. intros y Hy. apply Hb. now right.
Qed.

Lemma find_none_iff {A : Type} (p : A -> bool) (l : list A) :
  find p l = None <-> forall y, In y l -> p y = false.
Proof.
  unfold find. induction l as [|a l IH]; simpl.
  - split; [intros _ y [] | reflexivity].
  - destruct (p a) eqn:Ha.
    + split; [discriminate | intros H; specialize (H a (or_introl eq_refl)); congruence].
    + rewrite IH. split.
      * intros H y [<- | Hy]; auto.
      * intros H y Hy. apply H. now right.
Qed.

Lemma find_In {A : Type} (p : A -> bool) (l : list A) (x : A) :
  find p l = Some x -> In x l.
Proof. intros H. now apply List.find_some in H. Qed.

End JSFacts.

(* ================================================================== *)
(** ** Facts about the pattern matcher *)
(* ================================================================== *)

Module RegExpFacts.

Import JS RegExp JSFacts.

Section Matcher.

Variable ic : bool.

Lemma nullable_spec (r : regex) : nullable r = true <-> Matches ic r "".
Proof.
  induction r as [| |a|r1 IH1 r2 IH2|r1 IH1 r2 IH2|r IH]; simpl.
  - split; [discriminate | intros H; inversion H].
  - split; [intros _; constructor | reflexivity].
  - split; [discriminate | intros H; inversion H].
  - rewrite andb_true_iff, IH1, IH2. split.
    + intros [H1 H2]. change "" with ("" ++ ""). now constructor.
    + intros H. inversion H as [| |? ? u v Hu Hv Hr Huv| | | |]; subst.
      apply append_eq_nil in Huv as [-> ->]. now split.
  - rewrite orb_true_iff, IH1, IH2. split.
    + intros [H|H]; [now apply MAltL | now apply MAltR].
    + intros H. inversion H; subst; auto.
  - split; [intros _; constructor | reflexivity].
Qed.

(** A non-empty word of a starred pattern starts with a non-empty word of
    the pattern. *)
Lemma star_cons_inv (r : regex) (c : ascii) (w : string) :
  Matches ic (Star r) (String c w) ->
  exists u v, w = u ++ v /\ Matches ic r (String c u) /\ Matches ic (Star r) v.
Proof.
  intros H. remember (Star r) as sr eqn:Hsr. remember (String c w) as cw eqn:Hcw.
  revert w Hcw. induction H as [| | | | | |r' u v Hu _ Hv IHv]; intros x Hcw; try discriminate.
  injection Hsr as ->. destruct u as [|d u]; simpl in Hcw.
  - now apply IHv.
  - injection Hcw as -> <-. now exists u, v.
Qed.

Lemma deriv_sound (r : regex) (c : ascii) (w : string) :
  Matches ic (deriv ic c r) w -> Matches ic r (String c w).
Proof.
  revert w. induction r as [| |a|r1 IH1 r2 IH2|r1 IH1 r2 IH2|r IH]; simpl; intros w H.
  - inversion H.
  - inversion H.
  - destruct (atom_matches ic a c) eqn:Ha; inversion H; subst. now constructor.
  - assert (Hseq : forall x, Matches ic (Seq (deriv ic c r1) r2) x ->
                             Matches ic (Seq r1 r2) (String c x)).
    { intros x Hx. inversion Hx as [| |? ? u v Hu Hv| | | |]; subst.
      change (String c (u ++ v)) with (String c u ++ v). constructor; auto. }
    destruct (nullable r1) eqn:Hn.
    + inversion H; subst; [now apply Hseq|].
      change (String c w) with ("" ++ String c w). constructor; [|now apply IH2].
      now apply nullable_spec.
    + now apply Hseq.
  - inversion H; subst; [apply MAltL | apply MAltR]; auto.
  - inversion H as [| |? ? u v Hu Hv| | | |]; subst.
    change (String c (u ++ v)) with (String c u ++ v). constructor; auto.
Qed.

Lemma deriv_complete (r : regex) (c : ascii) (w : string) :
  Matches ic r (String c w) -> Matches ic (deriv ic c r) w.
Proof.
  revert w. induction r as [| |a|r1 IH1 r2 IH2|r1 IH1 r2 IH2|r IH]; simpl; intros w H.
  - inversion H.
  - inversion H.
  - inversion H as [|? ? Ha| | | | |]; subst. rewrite Ha. constructor.
  - inversion H as [| |? ? u v Hu Hv Hr Huv| | | |]; subst.
    destruct u as [|d u]; simpl in Huv.
    + subst v. apply nullable_spec in Hu. rewrite Hu. apply MAltR. auto.
    + injection Huv as -> <-.
      assert (Hs : Matches ic (Seq (deriv ic c r1) r2) (u ++ v)) by (constructor; auto).
      destruct (nullable r1); [now apply MAltL | exact Hs].
  - inversion H; subst; [apply MAltL | apply MAltR]; auto.
  - apply star_cons_inv in H as [u [v [-> [Hu Hv]]]]. constructor; auto.
Qed.

Lemma match_prefix_spec (r : regex) (s : string) :
  match_prefix ic r s = true <-> exists u v, s = u ++ v /\ Matches ic r u.
Proof.
  revert r. induction s as [|c s IH]; intros r; simpl.
  - rewrite orb_false_r, nullable_spec. split.
    + intros H. now exists "", "".
    + intros [u [v [H Hu]]]. symmetry in H. apply append_eq_nil in H as [-> _]. exact Hu.
  - rewrite orb_true_iff, nullable_spec, IH. split.
    + intros [H | [u [v [-> Hu]]]].
      * now exists "", (String c s).
      * exists (String c u), v. split; [reflexivity | now apply deriv_sound].
    + intros [[|d u] [v [H Hu]]]; simpl in H.
      * now left.
      * injection H as <- ->. right. exists u, v. split; [reflexivity | now apply deriv_complete].
Qed.

Lemma search_spec (r : regex) (s : string) :
  search ic r s = true <->
  exists pre u post, s = pre ++ u ++ post /\ Matches ic r u.
Proof.
  induction s as [|c s IH]; cbn [search].
  - rewrite orb_false_r, match_prefix_spec. split.
    + intros [u [v [H Hu]]]. now exists "", u, v.
    + intros [pre [u [post [H Hu]]]]. symmetry in H.
      apply append_eq_nil in H as [-> H]. simpl in H. now exists u, post.
  - rewrite orb_true_iff, match_prefix_spec, IH. split.
    + intros [[u [v [H Hu]]] | [pre [u [post [-> Hu]]]]].
      * now exists "", u, v.
      * now exists (String c pre), u, post.
    + intros [[|d pre] [u [post [H Hu]]]]; simpl in H.
      * left. now exists u, post.
      * injection H as _ ->. right. now exists pre, u, post.
Qed.

End Matcher.

End RegExpFacts.

(* ================================================================== *)
(** ** The domain pattern of the Reply Classifier *)
(* ================================================================== *)

Module DomainPattern.

Import JS RegExp JSFacts RegExpFacts ReplyClassifier.

Lemma lits_app (a b : string) : lits (a ++ b) = (lits a ++ lits b)%list.
Proof. induction a as [|c a IH]; simpl; [reflexivity | now rewrite IH]. Qed.

(** *** Reading the pattern text *)

Lemma lex_plain_char (c : ascii) (s : string) :
  is_syntax c = false -> lex (String c s) = push_token (TAtom (Lit c)) (lex s).
Proof.
  intros H. pose proof H as Hs. unfold is_syntax in H. cbn [existsb] in H.
  repeat (apply orb_false_elim in H; destruct H as [? H]).
  cbn [lex]. rewrite Hs.
  repeat match goal with E : Ascii.eqb c _ = false |- _ => rewrite E; clear E end.
  reflexivity.
Qed.

Lemma lex_escaped_dot (s : string) :
  lex (String "\" (String "." s)) = push_token (TAtom (Lit ".")) (lex s).
Proof. reflexivity. Qed.

Lemma lex_open (c : ascii) (s : string) :
  Ascii.eqb c "?" = false ->
  lex (String "(" (String c s)) = push_token TOpen (lex (String c s)).
Proof. intros H. cbn [lex]. cbn [Ascii.eqb Bool.eqb andb]. rewrite H. reflexivity. Qed.

Lemma push_tokens_compiled (ts l : list token) :
  push_tokens ts (Compiled l) = Compiled (ts ++ l)%list.
Proof. induction ts as [|t ts IH]; simpl; [reflexivity | now rewrite IH]. Qed.

Lemma lex_escaped_plain (D rest : string) :
  plain_domain D = true ->
  lex (escapeDots D ++ rest) = push_tokens (lit_tokens D) (lex (rest)).
Proof.
  induction D as [|c D IH]; intros H; [reflexivity|].
  cbn [plain_domain] in H. apply andb_true_iff in H as [Hc HD].
  cbn [escapeDots lit_tokens push_tokens fold_right].
  destruct (Ascii.eqb c ".") eqn:Hdot.
  - apply Ascii.eqb_eq in Hdot. subst c.
    change (lex (String "\" (String "." (escapeDots D ++ rest))) =
            push_token (TAtom (Lit ".")) (push_tokens (lit_tokens D) (lex rest))).
    now rewrite lex_escaped_dot, IH.
  - unfold plain_char in Hc. rewrite Hdot, orb_false_r in Hc.
    apply negb_true_iff in Hc.
    change (lex (String c (escapeDots D ++ rest)) =
            push_token (TAtom (Lit c)) (push_tokens (lit_tokens D) (lex rest))).
    now rewrite lex_plain_char, IH.
Qed.

(** The first character of an escaped plain domain is not a question mark,
    so the parenthesis before it opens an ordinary group. *)
Lemma escaped_head (D : string) :
  plain_domain D = true -> truthy D = true ->
  exists c s, escapeDots D = String c s /\ Ascii.eqb c "?" = false.
Proof.
  destruct D as [|c D]; [discriminate|]. intros H _.
  cbn [plain_domain] in H. apply andb_true_iff in H as [Hc _].
  cbn [escapeDots]. destruct (Ascii.eqb c ".") eqn:Hdot.
  - eexists _, _. split; reflexivity.
  - exists c, (escapeDots D). split; [reflexivity|].
    unfold plain_char in Hc. rewrite Hdot, orb_false_r in Hc.
    apply negb_true_iff in Hc. unfold is_syntax in Hc. cbn [existsb] in Hc.
    repeat (apply orb_false_elim in Hc; destruct Hc as [? Hc]). assumption.
Qed.

Lemma lex_domain_pattern (D : string) :
  plain_domain D = true -> truthy D = true ->
  lex (domain_pattern D) = Compiled (domain_tokens D).
Proof.
  intros HD Ht. unfold domain_pattern.
  destruct (escaped_head D HD Ht) as [c [s [He Hq]]].
  assert (Hopen : lex ("(" ++ escapeDots D ++ "|\[" ++ escapeDots D ++ "\])") =
                  push_token TOpen (lex (escapeDots D ++ "|\[" ++ escapeDots D ++ "\])"))).
  { rewrite He. cbn [append]. now apply lex_open. }
  change (lex ("domain:\s*(" ++ escapeDots D ++ "|\[" ++ escapeDots D ++ "\])"))
    with (push_tokens (lit_tokens "domain:" ++ [TWhite; TStar])%list
            (lex ("(" ++ escapeDots D ++ "|\[" ++ escapeDots D ++ "\])"))).
  rewrite Hopen, (lex_escaped_plain D _ HD).
  change (lex ("|\[" ++ escapeDots D ++ "\])"))
    with (push_tokens [TBar; TAtom (Lit "[")] (lex (escapeDots D ++ "\])"))).
  rewrite (lex_escaped_plain D _ HD).
  change (lex "\])") with (Compiled [TAtom (Lit "]"); TClose]).
  rewrite !push_tokens_compiled. cbn [push_token].
  rewrite !push_tokens_compiled. unfold domain_tokens.
  now rewrite <- !app_assoc.
Qed.


(** *** Building the pattern tree *)

Lemma parse_lits (s : string) (ts : list token) (a : list regex) (r : regex)
    (t : list regex) (stack : list frame) :
  parse (lit_tokens s ++ ts) (mkFrame a (r :: t) Term) stack =
  parse ts (mkFrame a (rev (lits s) ++ r :: t) Term) stack.
Proof.
  revert r t. induction s as [|c s IH]; intros r t; [reflexivity|].
  cbn [lit_tokens lits app parse]. unfold push_term. cbn [alts terms].
  rewrite IH. cbn [rev]. now rewrite <- app_assoc.
Qed.

(** The same from a frame that may be empty, for a text that is not. *)
Lemma parse_lits_fresh (s : string) (ts : list token) (a t : list regex)
    (l : last_term) (stack : list frame) :
  truthy s = true ->
  parse (lit_tokens s ++ ts) (mkFrame a t l) stack =
  parse ts (mkFrame a (rev (lits s) ++ t) Term) stack.
Proof.
  destruct s as [|c s]; [discriminate|]. intros _.
  cbn [lit_tokens lits app parse]. unfold push_term. cbn [alts terms].
  rewrite parse_lits. cbn [rev]. now rewrite <- app_assoc.
Qed.

Lemma parse_domain_tokens (D : string) :
  truthy D = true ->
  parse (domain_tokens D) empty_frame [] = Compiled (domain_regex D).
Proof.
  intros Ht. unfold domain_tokens, empty_frame.
  rewrite parse_lits_fresh by reflexivity.
  cbn [app parse]. unfold push_term, quantify. cbn [alts terms last parse].
  unfold empty_frame. rewrite (parse_lits_fresh D) by assumption.
  cbn [app parse]. unfold push_term, close_seq. cbn [alts terms].
  rewrite parse_lits. cbn [app parse]. unfold push_term, close_frame, close_seq.
  cbn [alts terms]. f_equal. unfold domain_regex.
  rewrite !lits_app. cbn [lits rev app].
  rewrite !app_nil_r, !rev_app_distr, !rev_involutive.
  reflexivity.
Qed.

Theorem compile_domain_pattern (D : string) :
  plain_domain D = true -> truthy D = true ->
  compile (domain_pattern D) true = Compiled (mkRegExp (domain_regex D) true).
Proof.
  intros HD Ht. unfold compile.
  now rewrite lex_domain_pattern, parse_domain_tokens.
Qed.

(** *** What the pattern tree matches *)

Lemma matches_seq (ic : bool) (r1 r2 : regex) (w : string) :
  Matches ic (Seq r1 r2) w <->
  exists u v, w = u ++ v /\ Matches ic r1 u /\ Matches ic r2 v.
Proof.
  split.
  - intros H. inversion H as [| |? ? u v Hu Hv| | | |]; subst. now exists u, v.
  - intros [u [v [-> [Hu Hv]]]]. now constructor.
Qed.

Lemma matches_alt (ic : bool) (r1 r2 : regex) (w : string) :
  Matches ic (Alt r1 r2) w <-> Matches ic r1 w \/ Matches ic r2 w.
Proof.
  split.
  - intros H. inversion H; subst; auto.
  - intros [H|H]; [now apply MAltL | now apply MAltR].
Qed.

Lemma matches_atom (ic : bool) (a : atom) (w : string) :
  Matches ic (Atom a) w <-> exists c, w = String c "" /\ atom_matches ic a c = true.
Proof.
  split.
  - intros H. inversion H; subst. eauto.
  - intros [c [-> Hc]]. now constructor.
Qed.

Lemma matches_empty (ic : bool) (w : string) : Matches ic Empty w <-> w = "".
Proof. split; [intros H; now inversion H | intros ->; constructor]. Qed.

Lemma matches_never (ic : bool) (w : string) : Matches ic Never w <-> False.
Proof. split; [intros H; inversion H | intros []]. Qed.

Lemma matches_mk_seq_app (ic : bool) (l1 l2 : list regex) (w : string) :
  Matches ic (mk_seq (l1 ++ l2)) w <->
  exists u v, w = u ++ v /\ Matches ic (mk_seq l1) u /\ Matches ic (mk_seq l2) v.
Proof.
  revert w. induction l1 as [|r l1 IH]; intros w; cbn [app mk_seq fold_right].
  - split.
    + intros H. exists "", w. repeat split; [constructor | exact H].
    + intros [u [v [-> [Hu Hv]]]]. apply matches_empty in Hu. now subst u.
  - fold (mk_seq (l1 ++ l2)). fold (mk_seq l1). rewrite matches_seq. split.
    + intros [u [v [-> [Hu Hv]]]]. apply IH in Hv as [x [y [-> [Hx Hy]]]].
      exists (u ++ x), y. rewrite append_assoc. repeat split; auto.
      apply matches_seq. now exists u, x.
    + intros [u [v [-> [Hu Hv]]]]. apply matches_seq in Hu as [x [y [-> [Hx Hy]]]].
      exists x, (y ++ v). rewrite append_assoc. repeat split; auto.
      apply IH. now exists y, v.
Qed.

(** A run of literals matches the texts equal to it up to case. *)
Lemma matches_lits (s w : string) :
  Matches true (mk_seq (lits s)) w <-> ci_eq w s.
Proof.
  unfold ci_eq, toUpperCase. revert w.
  induction s as [|c s IH]; intros w; cbn [lits mk_seq fold_right map_chars].
  - rewrite matches_empty. split; [now intros -> | ].
    destruct w; [reflexivity | discriminate].
  - fold (mk_seq (lits s)). rewrite matches_seq. split.
    + intros [u [v [-> [Hu Hv]]]]. apply matches_atom in Hu as [d [-> Hd]].
      cbn [atom_matches canon] in Hd. apply Ascii.eqb_eq in Hd.
      apply IH in Hv. cbn [append map_chars]. now rewrite Hd, Hv.
    + destruct w as [|d w]; cbn [map_chars]; [discriminate|].
      intros [= Hd Hw]. exists (String d ""), w. repeat split.
      * apply matches_atom. exists d. split; [reflexivity|].
        cbn [atom_matches canon]. apply Ascii.eqb_eq. now symmetry.
      * now apply IH.
Qed.

Lemma matches_mk_alt (ic : bool) (rs : list regex) (w : string) :
  Matches ic (mk_alt rs) w <-> exists r, In r rs /\ Matches ic r w.
Proof.
  induction rs as [|r rs IH]; cbn [mk_alt fold_right In].
  - rewrite matches_never. split; [intros [] | now intros [r [[] _]]].
  - fold (mk_alt rs). rewrite matches_alt, IH. split.
    + intros [H | [r' [Hin H]]]; [exists r | exists r']; auto.
    + intros [r' [[<- | Hin] H]]; [now left | right; now exists r'].
Qed.

Lemma literal_lits (s : string) : literal s = mk_seq (lits s).
Proof.
  induction s as [|c s IH]; cbn [literal lits mk_seq fold_right]; [reflexivity|].
  now rewrite IH.
Qed.

(** Putting a text in upper case leaves its bytes beyond ASCII as they are,
    and makes none. *)
Lemma upper_char_high (c d : ascii) :
  upper_char c = d -> 128 <= nat_of_ascii d -> c = d.
Proof.
  unfold upper_char. destruct (is_lower c) eqn:Hl; [|now intros ->].
  intros <- H. exfalso. unfold is_lower in Hl. apply andb_true_iff in Hl as [_ Hle].
  apply Nat.leb_le in Hle. rewrite nat_ascii_embedding in H; lia.
Qed.

Lemma wide_spaces_high (u : string) :
  In u wide_spaces -> forall w, ci_eq w u -> w = u.
Proof.
  intros Hin. assert (Hhigh : ascii_text u = false /\
                              forallb (fun c => 128 <=? nat_of_ascii c) (list_ascii_of_string u)
                              = true).
  { unfold wide_spaces in Hin. cbn [map app] in Hin.
    repeat (destruct Hin as [<- | Hin]; [split; reflexivity|]). destruct Hin. }
  destruct Hhigh as [_ Hhigh]. clear Hin. unfold ci_eq, toUpperCase.
  revert Hhigh. induction u as [|d u IH]; intros Hhigh w H.
  - destruct w; [reflexivity | discriminate].
  - destruct w as [|c w]; [discriminate|].
    cbn [list_ascii_of_string forallb] in Hhigh. apply andb_true_iff in Hhigh as [Hd Hu].
    apply Nat.leb_le in Hd.
    assert (Hself : upper_char d = d).
    { unfold upper_char. destruct (is_lower d) eqn:Hl; [|reflexivity].
      unfold is_lower in Hl. apply andb_true_iff in Hl as [_ Hle].
      apply Nat.leb_le in Hle. lia. }
    assert (Htail : map_chars upper_char u = u).
    { clear - Hu. induction u as [|e u IH]; [reflexivity|].
      cbn [list_ascii_of_string forallb] in Hu. apply andb_true_iff in Hu as [He Hu].
      apply Nat.leb_le in He. cbn [map_chars]. rewrite (IH Hu). f_equal.
      unfold upper_char. destruct (is_lower e) eqn:Hl; [|reflexivity].
      unfold is_lower in Hl. apply andb_true_iff in Hl as [_ Hle].
      apply Nat.leb_le in Hle. lia. }
    cbn [map_chars] in H. rewrite Hself, Htail in H. injection H as Hc Hw.
    f_equal.
    + now apply upper_char_high.
    + apply IH; [exact Hu|]. now rewrite Htail.
Qed.

(** One white-space character: an ASCII one, or one of the wide ones. *)
Lemma matches_white_space (u : string) :
  Matches true white_space u <->
  (exists c, u = String c "" /\ is_space c = true) \/ In u wide_spaces.
Proof.
  unfold white_space. rewrite matches_mk_alt. split.
  - intros [r [[<- | Hin] H]].
    + apply matches_atom in H as [c [-> Hc]]. left. now exists c.
    + apply in_map_iff in Hin as [x [<- Hx]]. right.
      rewrite literal_lits in H. apply matches_lits in H.
      now rewrite (wide_spaces_high x Hx u H).
  - intros [[c [-> Hc]] | Hin].
    + exists (Atom (Class AsciiSpace)). split; [now left|]. apply matches_atom. now exists c.
    + exists (literal u). split; [right; now apply in_map|].
      rewrite literal_lits. now apply matches_lits.
Qed.

Lemma white_run_wide (u v : string) :
  In u wide_spaces -> white_run (u ++ v) = white_run v.
Proof.
  intros Hin. unfold wide_spaces in Hin. cbn [map app] in Hin.
  repeat (destruct Hin as [<- | Hin]; [reflexivity|]). destruct Hin.
Qed.

Lemma matches_star_space (w : string) :
  Matches true (Star white_space) w <-> white_run w = true.
Proof.
  split.
  - intros H. remember (Star white_space) as r eqn:Hr.
    induction H as [| | | | | |r' u v Hu _ Hv IHv]; try discriminate; [reflexivity|].
    injection Hr as ->. apply matches_white_space in Hu as [[c [-> Hc]] | Hin].
    + cbn [append white_run]. rewrite Hc. now apply IHv.
    + rewrite white_run_wide by exact Hin. now apply IHv.
  - assert (Hall : forall n w0, String.length w0 <= n -> white_run w0 = true ->
                                Matches true (Star white_space) w0).
    { induction n as [|n IH]; intros w0 Hn H.
      - destruct w0; [constructor | cbn in Hn; lia].
      - destruct w0 as [|a s1]; [constructor|]. cbn [white_run String.length] in H, Hn.
        destruct (is_space a) eqn:Ha.
        + change (String a s1) with (String a "" ++ s1).
          constructor; [|apply IH; [lia | exact H]].
          apply matches_white_space. left. now exists a.
        + destruct s1 as [|b s2]; [discriminate|]. cbn [String.length] in Hn.
          destruct (existsb (String.eqb (String a (String b ""))) wide_spaces) eqn:H2.
          * apply existsb_exists in H2 as [u [Hu He]]. apply String.eqb_eq in He.
            subst u. change (String a (String b s2)) with (String a (String b "") ++ s2).
            constructor; [|apply IH; [lia | exact H]].
            apply matches_white_space. now right.
          * destruct s2 as [|c s3]; [discriminate|]. cbn [String.length] in Hn.
            destruct (existsb (String.eqb (String a (String b (String c "")))) wide_spaces)
              eqn:H3; [|discriminate].
            apply existsb_exists in H3 as [u [Hu He]]. apply String.eqb_eq in He.
            subst u.
            change (String a (String b (String c s3)))
              with (String a (String b (String c "")) ++ s3).
            constructor; [|apply IH; [lia | exact H]].
            apply matches_white_space. now right. }
    intros H. now apply (Hall (String.length w) w).
Qed.

Lemma matches_domain_regex (D w : string) :
  Matches true (domain_regex D) w <->
  exists tag ws body,
    w = tag ++ ws ++ body /\ ci_eq tag "domain:" /\ white_run ws = true /\
    (ci_eq body D \/ ci_eq body ("[" ++ D ++ "]")).
Proof.
  unfold domain_regex. cbn [mk_alt fold_right].
  rewrite matches_alt, matches_never, matches_mk_seq_app.
  cbn [mk_seq fold_right]. split.
  - intros [[tag [rest [-> [Htag Hrest]]]] | []].
    apply matches_lits in Htag.
    apply matches_seq in Hrest as [ws [rest' [-> [Hws Hbody]]]].
    apply matches_star_space in Hws.
    apply matches_seq in Hbody as [body [e [-> [Hbody He]]]].
    apply matches_empty in He. subst e. rewrite append_nil_r.
    exists tag, ws, body. repeat split; auto.
    apply matches_alt in Hbody as [H|H]; [left; now apply matches_lits|].
    apply matches_alt in H as [H|H]; [right; now apply matches_lits|].
    now apply matches_never in H.
  - intros [tag [ws [body [-> [Htag [Hws Hbody]]]]]]. left.
    exists tag, (ws ++ body). repeat split; [now apply matches_lits|].
    apply matches_seq. exists ws, body. repeat split; [now apply matches_star_space|].
    apply matches_seq. exists body, "". rewrite append_nil_r. repeat split; [|constructor].
    apply matches_alt. destruct Hbody as [H|H]; [left; now apply matches_lits|].
    right. apply matches_alt. left. now apply matches_lits.
Qed.

(** [domainRegex.test(desc)] for the pattern of a plain domain. *)
Theorem test_domain_regex (D desc : string) :
  test (mkRegExp (domain_regex D) true) desc = true <-> DomainTagged D desc.
Proof.
  unfold test, DomainTagged. cbn [re ignoreCase]. rewrite search_spec. split.
  - intros [pre [u [post [-> Hu]]]].
    apply matches_domain_regex in Hu as [tag [ws [body [-> [Htag [Hws Hbody]]]]]].
    exists pre, tag, ws, body, post. rewrite !append_assoc. auto.
  - intros [pre [tag [ws [body [post [-> [Htag [Hws Hbody]]]]]]]].
    exists pre, (tag ++ ws ++ body), post. rewrite !append_assoc. split; [reflexivity|].
    apply matches_domain_regex. now exists tag, ws, body.
Qed.

End DomainPattern.

(* ================================================================== *)
(** ** The card matcher *)
(* ================================================================== *)

Module CardMatcher.

Import JS RegExp JSFacts RegExpFacts DomainPattern ReplyClassifier Samples.

Lemma has_thread_tag_spec (tid : string) (card : Card) :
  has_thread_tag ("threadId: " ++ tid) card = true <-> ThreadTagged tid card.
Proof.
  unfold has_thread_tag, ThreadTagged. rewrite andb_true_iff, includes_spec. split.
  - now intros [_ H].
  - intros H. split; [|exact H]. now apply (truthy_contains _ ("threadId: " ++ tid)).
Qed.

Lemma FirstWith_iff {A : Type} (P Q : A -> Prop) (l : list A) (x : A) :
  (forall y, P y <-> Q y) -> FirstWith P l x -> FirstWith Q l x.
Proof.
  intros HPQ [before [after [-> [Hx Hb]]]]. exists before, after.
  repeat split; [now apply HPQ|]. intros y Hy HQ. apply (Hb y Hy). now apply HPQ.
Qed.

Lemma FirstWith_exists {A : Type} (p : A -> bool) (l : list A) :
  (exists y, In y l /\ p y = true) -> exists x, find p l = Some x.
Proof.
  intros [y [Hy Hp]]. destruct (find p l) as [x|] eqn:Hf; [now exists x|].
  rewrite find_none_iff in Hf. rewrite (Hf y Hy) in Hp. discriminate.
Qed.

(** C1. When the email has a thread id and some candidate card's description
    contains the text [threadId: <id>], the match is the first such card in
    the order of the collection, found by thread id; this holds whatever the
    sender's domain is (even one whose pattern could not be built), so the
    domain is not consulted. *)
Theorem thread_match_wins (cards : list Card) (tid : string) :
  truthy tid = true ->
  (exists card, In card cards /\ ThreadTagged tid card) ->
  exists card,
    FirstWith (ThreadTagged tid) cards card /\
    forall domain, match_card tid domain cards = Ok (Some (card, "Thread ID")).
Proof.
  intros Ht [c [Hc Hd]].
  destruct (FirstWith_exists (has_thread_tag ("threadId: " ++ tid)) cards) as [card Hf].
  { exists c. split; [exact Hc | now apply has_thread_tag_spec]. }
  exists card. split.
  - apply find_first in Hf. revert Hf. apply FirstWith_iff.
    intros y. apply has_thread_tag_spec.
  - intros domain. unfold match_card, match_by_thread. now rewrite Ht, Hf.
Qed.

Lemma thread_match_wins_witness :
  truthy "18c2f" = true /\
  (exists card, In card [acme_by_domain; acme_by_thread] /\ ThreadTagged "18c2f" card) /\
  exists card,
    FirstWith (ThreadTagged "18c2f") [acme_by_domain; acme_by_thread] card /\
    forall domain,
      match_card "18c2f" domain [acme_by_domain; acme_by_thread] = Ok (Some (card, "Thread ID")).
Proof.
  assert (H : exists card, In card [acme_by_domain; acme_by_thread] /\ ThreadTagged "18c2f" card).
  { exists acme_by_thread. split; [right; now left|].
    apply includes_spec. reflexivity. }
  split; [reflexivity|]. split; [exact H|].
  exact (thread_match_wins [acme_by_domain; acme_by_thread] "18c2f" eq_refl H).
Defined.


(** *** Matching by domain *)

Lemma map_chars_app (f : ascii -> ascii) (a b : string) :
  map_chars f (a ++ b) = map_chars f a ++ map_chars f b.
Proof. induction a as [|c a IH]; simpl; [reflexivity | now rewrite IH]. Qed.

Lemma map_chars_app_inv (f : ascii -> ascii) (s a b : string) :
  map_chars f s = a ++ b ->
  exists a' b', s = a' ++ b' /\ map_chars f a' = a /\ map_chars f b' = b.
Proof.
  revert s. induction a as [|c a IH]; intros s H.
  - now exists "", s.
  - destruct s as [|d s]; [discriminate|]. simpl in H. injection H as Hc H.
    destruct (IH s H) as [a' [b' [-> [Ha Hb]]]].
    exists (String d a'), b'. simpl. now rewrite Hc, Ha.
Qed.

Lemma ci_eq_app_inv (s a b : string) :
  ci_eq s (a ++ b) -> exists a' b', s = a' ++ b' /\ ci_eq a' a /\ ci_eq b' b.
Proof.
  unfold ci_eq, toUpperCase. rewrite map_chars_app. apply map_chars_app_inv.
Qed.

Lemma ci_eq_space (s : string) : ci_eq s " " -> all_space s = true.
Proof.
  unfold ci_eq. destruct s as [|c [|d s]]; try discriminate.
  cbn. intros [= H]. change (upper_char " ") with " "%char in H.
  unfold upper_char in H. destruct (is_lower c) eqn:Hl.
  - exfalso. unfold is_lower in Hl. apply andb_true_iff in Hl as [H1 H2].
    apply Nat.leb_le in H1, H2.
    assert (Hn : nat_of_ascii c - 32 < 256) by (pose proof (nat_ascii_bounded c); lia).
    apply (f_equal nat_of_ascii) in H. rewrite nat_ascii_embedding in H by exact Hn.
    change (nat_of_ascii " ") with 32 in H. lia.
  - now subst c.
Qed.

Lemma all_space_white_run (s : string) :
  all_space s = true -> RegExp.white_run s = true.
Proof.
  induction s as [|c s IH]; [reflexivity|]. cbn [all_space RegExp.white_run].
  intros H. apply andb_true_iff in H as [Hc Hs]. rewrite Hc. now apply IH.
Qed.

(** A description that contains the tag as the specification writes it is
    accepted by the pattern. *)
Lemma literal_tag_accepted (D : string) (card : Card) :
  LiterallyTagged D card -> DomainTagged D (card_desc card).
Proof.
  intros [[pre [mid [post [Hd Hmid]]]] | [pre [mid [post [Hd Hmid]]]]].
  - change ("domain: " ++ D) with ("domain:" ++ " " ++ D) in Hmid.
    apply ci_eq_app_inv in Hmid as [tag [rest [-> [Htag Hrest]]]].
    apply ci_eq_app_inv in Hrest as [ws [body [-> [Hws Hbody]]]].
    exists pre, tag, ws, body, post. rewrite Hd, !append_assoc.
    repeat split; auto. apply all_space_white_run. now apply ci_eq_space.
  - change ("domain: [" ++ D ++ "]") with ("domain:" ++ " " ++ "[" ++ D ++ "]") in Hmid.
    apply ci_eq_app_inv in Hmid as [tag [rest [-> [Htag Hrest]]]].
    apply ci_eq_app_inv in Hrest as [ws [body [-> [Hws Hbody]]]].
    exists pre, tag, ws, body, post. rewrite Hd, !append_assoc.
    repeat split; auto. apply all_space_white_run. now apply ci_eq_space.
Qed.

Lemma has_domain_tag_spec (D : string) (card : Card) :
  has_domain_tag (mkRegExp (domain_regex D) true) card = true <->
  DomainTagged D (card_desc card).
Proof.
  unfold has_domain_tag. rewrite andb_true_iff, test_domain_regex. split.
  - now intros [_ H].
  - intros H. split; [|exact H].
    destruct H as [pre [tag [ws [body [post [-> [Htag _]]]]]]].
    destruct tag; [discriminate|]. now destruct pre.
Qed.

(** C2, as the code has it.  For a domain of ASCII characters free of
    pattern characters other than the dot, when the thread id gives no
    match, the match is the first card in the order of the collection whose
    description holds the tag [domain:], any run of white space (none
    included, and the white space beyond ASCII such as U+00A0 too) and then
    [D] or [[D]], letters in either case; there is no match when no card
    does.  In particular a card that carries [domain: D] or [domain: [D]]
    makes the match succeed.  The descriptions are any texts. *)
Theorem domain_match_first_tagged (cards : list Card) (tid D : string) :
  plain_domain D = true -> ascii_text D = true -> truthy D = true ->
  match_by_thread tid cards = None ->
  ((match_card tid (Some D) cards = Ok None /\
    forall card, In card cards -> ~ DomainTagged D (card_desc card)) \/
   (exists card,
      FirstWith (fun c => DomainTagged D (card_desc c)) cards card /\
      match_card tid (Some D) cards = Ok (Some (card, "Domain")))) /\
  ((exists card, In card cards /\ LiterallyTagged D card) ->
   exists card,
     DomainTagged D (card_desc card) /\
     match_card tid (Some D) cards = Ok (Some (card, "Domain"))).
Proof.
  intros HD _ Ht Hth.
  assert (Hm : match_card tid (Some D) cards =
               match find (has_domain_tag (mkRegExp (domain_regex D) true)) cards with
               | Some card => Ok (Some (card, "Domain"))
               | None => Ok None
               end).
  { unfold match_card. now rewrite Hth, Ht, compile_domain_pattern. }
  assert (Hcases :
    (match_card tid (Some D) cards = Ok None /\
     forall card, In card cards -> ~ DomainTagged D (card_desc card)) \/
    (exists card,
       FirstWith (fun c => DomainTagged D (card_desc c)) cards card /\
       match_card tid (Some D) cards = Ok (Some (card, "Domain")))).
  { destruct (find (has_domain_tag (mkRegExp (domain_regex D) true)) cards) as [card|] eqn:Hf.
    - right. exists card. split; [|exact Hm].
      apply find_first in Hf. revert Hf. apply FirstWith_iff.
      intros y. apply has_domain_tag_spec.
    - left. split; [exact Hm|]. intros card Hin Htag.
      rewrite find_none_iff in Hf. apply has_domain_tag_spec in Htag.
      rewrite (Hf card Hin) in Htag. discriminate. }
  split; [exact Hcases|].
  intros [c [Hin Hlit]]. apply literal_tag_accepted in Hlit.
  destruct Hcases as [[_ Hnone] | [card [Hfirst Hres]]].
  - exfalso. exact (Hnone c Hin Hlit).
  - exists card. split; [|exact Hres]. now destruct Hfirst as [? [? [_ [H _]]]].
Qed.

Lemma domain_match_first_tagged_witness :
  plain_domain "acme.com" = true /\ ascii_text "acme.com" = true /\
  truthy "acme.com" = true /\
  match_by_thread "18c2f" [acme_no_space; acme_by_domain] = None /\
  ((match_card "18c2f" (Some "acme.com") [acme_no_space; acme_by_domain] = Ok None /\
    forall card, In card [acme_no_space; acme_by_domain] ->
                 ~ DomainTagged "acme.com" (card_desc card)) \/
   (exists card,
      FirstWith (fun c => DomainTagged "acme.com" (card_desc c))
                [acme_no_space; acme_by_domain] card /\
      match_card "18c2f" (Some "acme.com") [acme_no_space; acme_by_domain]
      = Ok (Some (card, "Domain")))) /\
  ((exists card, In card [acme_no_space; acme_by_domain] /\ LiterallyTagged "acme.com" card) ->
   exists card,
     DomainTagged "acme.com" (card_desc card) /\
     match_card "18c2f" (Some "acme.com") [acme_no_space; acme_by_domain]
     = Ok (Some (card, "Domain"))).
Proof.
  split; [reflexivity|]. split; [reflexivity|]. split; [reflexivity|].
  split; [reflexivity|].
  exact (domain_match_first_tagged [acme_no_space; acme_by_domain] "18c2f" "acme.com"
           eq_refl eq_refl eq_refl eq_refl).
Defined.

(** Containment up to case, decided. *)
Lemma ContainsCI_spec (s x : string) :
  ContainsCI s x <-> includes (toUpperCase s) (toUpperCase x) = true.
Proof.
  rewrite includes_spec. unfold ContainsCI, Contains, ci_eq, toUpperCase. split.
  - intros [pre [mid [post [-> H]]]].
    exists (map_chars upper_char pre), (map_chars upper_char post).
    now rewrite !map_chars_app, H.
  - intros [pre [post H]].
    apply map_chars_app_inv in H as [pre' [rest [-> [Hpre Hrest]]]].
    apply map_chars_app_inv in Hrest as [mid [post' [-> [Hmid Hpost]]]].
    now exists pre', mid, post'.
Qed.

(** C2 as stated fails.  Two cards, the first tagged [domain:acme.com]
    without a space, the second [domain: acme.com]: the second is the first
    card that carries the tag as the claim writes it, and the code returns
    the first card. *)
Lemma domain_match_not_first_literal_tag :
  domain_of "hr@acme.com" = Some "acme.com" /\
  match_by_thread "18c2f" [acme_no_space; acme_by_domain] = None /\
  FirstWith (LiterallyTagged "acme.com") [acme_no_space; acme_by_domain] acme_by_domain /\
  match_card "18c2f" (Some "acme.com") [acme_no_space; acme_by_domain]
  = Ok (Some (acme_no_space, "Domain")) /\
  acme_no_space <> acme_by_domain.
Proof.
  split; [reflexivity|]. split; [reflexivity|]. split; [|split; [reflexivity | discriminate]].
  exists [acme_no_space], []. split; [reflexivity|]. split.
  - left. apply ContainsCI_spec. reflexivity.
  - intros y [<- | []] [H | H]; apply ContainsCI_spec in H; discriminate.
Qed.

(** The white space between the tag and the domain may be of any kind that
    [\s] accepts: here a no-break space (U+00A0) in a description written in
    Hebrew around the tag. *)
Example no_break_space_tag_matches :
  match_card "" (Some "acme.com")
    [mkCard "c5" "Acme" ("נשלח ב-1.5 domain:" ++ RegExp.utf8_2 194 160 ++ "Acme.com")]
  = Ok (Some (mkCard "c5" "Acme"
                ("נשלח ב-1.5 domain:" ++ RegExp.utf8_2 194 160 ++ "Acme.com"),
              "Domain")) /\
  match_card "" (Some "acme.com")
    [mkCard "c6" "Acme" ("domain:" ++ RegExp.utf8_3 226 128 139 ++ "acme.com")]
  = Ok None.
Proof. split; reflexivity. Qed.

(** Outside the plain domains the pattern text is read as a pattern: a [+]
    in the domain is a quantifier, so the card tagged with that very domain
    is not matched, and an unbalanced parenthesis makes the pattern
    ill-formed. *)
Example plus_domain_not_matched :
  match_card "" (Some "a+b.com") [plus_card] = Ok None.
Proof. reflexivity. Qed.

Example paren_domain_raises :
  match_card "" (Some "a(b.com") [acme_by_domain]
  = Throw (RegExpSyntaxError (domain_pattern "a(b.com")).
Proof. reflexivity. Qed.

End CardMatcher.

(* ================================================================== *)
(** ** Facts about the effects *)
(* ================================================================== *)

Module EffFacts.

Lemma moves_app (a b : list Event) : moves (a ++ b) = (moves a ++ moves b)%list.
Proof.
  induction a as [|e a IH]; [reflexivity|].
  destruct e as [[] ok| | |]; simpl; now rewrite ?IH.
Qed.

Lemma moves_record (e : Event) (w : World) :
  moves (trace (record e w)) = (moves (trace w) ++ moves [e])%list.
Proof. unfold record. simpl. apply moves_app. Qed.

Section Preservation.

Variable R : World -> World -> Prop.
Hypothesis R_refl : forall w, R w w.
Hypothesis R_trans : forall a b c, R a b -> R b c -> R a c.

Lemma preserves_ret {A : Type} (a : A) : preserves R (ret a).
Proof. intros w r w' [= _ <-]. apply R_refl. Qed.

Lemma preserves_throw {A : Type} (e : exn) : preserves R (@throw A e).
Proof. intros w r w' [= _ <-]. apply R_refl. Qed.

Lemma preserves_bind {A B : Type} (c : M A) (k : A -> M B) :
  preserves R c -> (forall a, preserves R (k a)) -> preserves R (bind c k).
Proof.
  intros Hc Hk w r w' H. unfold bind in H. destruct (c w) as [[a|e] w1] eqn:Hcw.
  - eapply R_trans; [eapply Hc; eassumption | eapply Hk; eassumption].
  - injection H as _ <-. eapply Hc; eassumption.
Qed.

Lemma preserves_try_catch {A : Type} (c : M A) (h : exn -> M A) :
  preserves R c -> (forall e, preserves R (h e)) -> preserves R (try_catch c h).
Proof.
  intros Hc Hh w r w' H. unfold try_catch in H. destruct (c w) as [[a|e] w1] eqn:Hcw.
  - injection H as _ <-. eapply Hc; eassumption.
  - destruct (catchable e).
    + eapply R_trans; [eapply Hc; eassumption | eapply Hh; eassumption].
    + injection H as _ <-. eapply Hc; eassumption.
Qed.

Lemma preserves_if {A : Type} (b : bool) (c1 c2 : M A) :
  preserves R c1 -> preserves R c2 -> preserves R (if b then c1 else c2).
Proof. now destruct b. Qed.

End Preservation.

Lemma same_moves_refl (w : World) : same_moves w w.
Proof. reflexivity. Qed.

Lemma same_moves_trans (a b c : World) : same_moves a b -> same_moves b c -> same_moves a c.
Proof. unfold same_moves. congruence. Qed.

Lemma same_remote_refl (w : World) : same_remote w w.
Proof. now split. Qed.

Lemma same_remote_trans (a b c : World) :
  same_remote a b -> same_remote b c -> same_remote a c.
Proof. unfold same_remote. intros [] []. split; congruence. Qed.

Lemma call_same_moves {A : Type} (r : request) (answer : list Event -> reply A) :
  is_move r = false -> preserves same_moves (call r answer).
Proof.
  intros Hr w o w' H. unfold call in H. unfold same_moves.
  destruct (answer (trace w)); injection H as _ <-;
    rewrite moves_record; destruct r; try discriminate; simpl; now rewrite app_nil_r.
Qed.

Lemma call_same_remote {A : Type} (r : request) (answer : list Event -> reply A) :
  preserves same_remote (call r answer).
Proof.
  intros w o w' H. unfold call in H.
  destruct (answer (trace w)); injection H as _ <-; now split.
Qed.

Lemma console_same_moves (args : list string) : preserves same_moves (console_error args).
Proof.
  intros w o w' [= _ <-]. unfold same_moves. rewrite moves_record. simpl. now rewrite app_nil_r.
Qed.

Lemma console_same_remote (args : list string) : preserves same_remote (console_error args).
Proof. intros w o w' [= _ <-]. now split. Qed.

(** Decomposes a computation into its parts and closes the preservation
    of [same_moves] (resp. [same_remote]) for each of them. *)
Ltac frame_moves_with known :=
  repeat first
    [ known
    | apply same_moves_refl
    | apply same_moves_trans
    | apply preserves_ret
    | apply preserves_throw
    | apply console_same_moves
    | apply call_same_moves; reflexivity
    | apply preserves_bind
    | apply preserves_try_catch
    | apply preserves_if
    | intro ].

Ltac frame_moves := frame_moves_with fail.

Ltac frame_remote :=
  repeat first
    [ apply same_remote_refl
    | apply same_remote_trans
    | apply preserves_ret
    | apply preserves_throw
    | apply console_same_remote
    | apply call_same_remote
    | apply preserves_bind
    | apply preserves_try_catch
    | apply preserves_if
    | intro ].

End EffFacts.

(* ================================================================== *)
(** ** The reply classification *)
(* ================================================================== *)

Module Classifier.

Import JS EffFacts ReplyClassifier.

Lemma member_of_categories (label : string) :
  existsb (String.eqb label) categories = true <-> In label categories.
Proof.
  rewrite existsb_exists. split.
  - intros [x [Hx He]]. apply String.eqb_eq in He. now subst.
  - intros H. exists label. split; [exact H | apply String.eqb_refl].
Qed.

(** The classification always returns: with the safe default, or with the
    answer of the service when that answer passed the membership test. *)
Lemma classify_cases (svc : Services) (groq : bool)
    (subject snippet : string) (w : World) :
  exists label w',
    classifyEmailWithAI svc groq subject snippet w = (Ok label, w') /\
    (label = "OTHER_REPLY" \/ existsb (String.eqb label) categories = true).
Proof.
  unfold classifyEmailWithAI. destruct groq; cbn [negb].
  - unfold try_catch, bind, groq_chat, call.
    destruct (svc_chat svc (trace w) aiModelName systemPrompt (userPrompt subject snippet))
      as [content|m].
    + destruct (existsb (String.eqb (toUpperCase (trim content))) categories) eqn:Hc.
      * eexists _, _. split; [reflexivity | now right].
      * eexists _, _. split; [reflexivity | now left].
    + eexists _, _. split; [reflexivity | now left].
  - eexists _, _. split; [reflexivity | now left].
Qed.

(** C3. Whatever the subject and the snippet, whatever the service answers
    and whether or not it fails, the classification returns, and what it
    returns is one of the seven labels of the fixed set. *)
Theorem classification_in_label_set (svc : Services) (groq : bool)
    (subject snippet : string) (w : World) :
  exists label w',
    classifyEmailWithAI svc groq subject snippet w = (Ok label, w') /\
    In label
      [ "INITIAL_INTERVIEW"; "CODING_CHALLENGE"; "TECHNICAL_INTERVIEW";
        "HR_INTERVIEW"; "REJECTION"; "OFFER"; "OTHER_REPLY" ].
Proof.
  destruct (classify_cases svc groq subject snippet w) as [label [w' [Hrun Hlabel]]].
  exists label, w'. split; [exact Hrun|].
  destruct Hlabel as [-> | Hmember].
  - (* the safe default is the last label of the set *)
    do 6 right. now left.
  - (* an answer that passed [categories.includes] is one of its elements *)
    apply existsb_exists in Hmember as [x [Hx Heq]].
    apply String.eqb_eq in Heq. subst x. exact Hx.
Qed.

(** C4. Without a client, when the request fails, or when the answer is not
    a category once trimmed and put in upper case, the classification
    returns the label OTHER_REPLY: it returns (nothing is raised to the
    caller), and neither a card nor a message is touched. *)
Theorem classification_fails_safe (svc : Services) (groq : bool)
    (subject snippet : string) (w : World) :
  classifier_unavailable svc groq subject snippet w ->
  exists w',
    classifyEmailWithAI svc groq subject snippet w = (Ok "OTHER_REPLY", w') /\
    same_remote w w' /\ same_moves w w'.
Proof.
  unfold classifier_unavailable, classifyEmailWithAI, same_moves.
  intros [-> | [[m Hm] | [content [Hc Hn]]]].
  - exists w. repeat split.
  - destruct groq; cbn [negb]; [|exists w; repeat split].
    unfold try_catch, bind, groq_chat, call. rewrite Hm. cbn [catchable].
    eexists. split; [reflexivity|]. split; [now split|].
    unfold console_error, emit. cbn [snd trace record].
    now rewrite <- !app_assoc, !moves_app, !app_nil_r.
  - destruct groq; cbn [negb]; [|exists w; repeat split].
    unfold try_catch, bind, groq_chat, call. rewrite Hc.
    destruct (existsb (String.eqb (toUpperCase (trim content))) categories) eqn:He.
    + exfalso. apply Hn. now apply member_of_categories.
    + eexists. split; [reflexivity|]. split; [now split|].
      unfold console_warn, emit. cbn [snd trace record].
      now rewrite <- !app_assoc, !moves_app, !app_nil_r.
Qed.

Lemma classification_fails_safe_witness :
  classifier_unavailable (Samples.services Samples.acme_reply (Success "Maybe later") (fun _ => Success tt))
    true "Re: your application" "We will see" Samples.world /\
  exists w',
    classifyEmailWithAI (Samples.services Samples.acme_reply (Success "Maybe later") (fun _ => Success tt))
      true "Re: your application" "We will see" Samples.world = (Ok "OTHER_REPLY", w') /\
    same_remote Samples.world w' /\ same_moves Samples.world w'.
Proof.
  assert (H : classifier_unavailable
                (Samples.services Samples.acme_reply (Success "Maybe later") (fun _ => Success tt))
                true "Re: your application" "We will see" Samples.world).
  { right. right. exists "Maybe later". split; [reflexivity|].
    cbn. intros H. repeat (destruct H as [H|H]; [discriminate|]). exact H. }
  split; [exact H|].
  exact (classification_fails_safe _ _ _ _ _ H).
Defined.

(** The classification requests no move. *)
Lemma classify_same_moves (svc : Services) (groq : bool) (subject snippet : string) :
  preserves same_moves (classifyEmailWithAI svc groq subject snippet).
Proof. unfold classifyEmailWithAI, console_warn, groq_chat. frame_moves. Qed.

(** It always returns. *)
Lemma classify_returns (svc : Services) (groq : bool) (subject snippet : string) (w : World) :
  exists label w',
    classifyEmailWithAI svc groq subject snippet w = (Ok label, w') /\ same_moves w w'.
Proof.
  destruct (classify_cases svc groq subject snippet w) as [label [w' [H _]]].
  exists label, w'. split; [exact H|]. exact (classify_same_moves _ _ _ _ _ _ _ H).
Qed.

End Classifier.

(* ================================================================== *)
(** ** One message of the Reply Classifier *)
(* ================================================================== *)

Module ReplyStep.

Import JS JSFacts EffFacts Classifier ReplyClassifier.

Section Step.

Variable svc : Services.
Variable env : Env.

(** Marking a message read never raises and requests no move. *)
Lemma markEmailAsRead_returns (messageId : string) (w : World) :
  exists w', markEmailAsRead svc messageId w = (Ok tt, w') /\ same_moves w w'.
Proof.
  unfold markEmailAsRead, try_catch, gmail_remove_unread, call, same_moves.
  destruct (svc_mark_read svc (trace w) messageId) as [[]|m]; cbn [catchable].
  - eexists. split; [reflexivity|]. cbn [set_list clear_unread trace record].
    now rewrite moves_app, app_nil_r.
  - eexists. split; [reflexivity|]. unfold console_error, emit.
    cbn [snd trace record]. now rewrite <- !app_assoc, !moves_app, !app_nil_r.
Qed.

Lemma sendNotification_same_moves (title message : string) :
  preserves same_moves (sendNotification svc env title message).
Proof. unfold sendNotification, ntfy_post. destruct (NTFY_TOPIC env); frame_moves. Qed.

Lemma sendNotification_same_remote (title message : string) :
  preserves same_remote (sendNotification svc env title message).
Proof. unfold sendNotification, ntfy_post. destruct (NTFY_TOPIC env); frame_remote. Qed.

(** A match is one of the candidates. *)
Lemma match_card_In (tid : string) (domain : option string) (cards : list Card)
    (card : Card) (method : string) :
  match_card tid domain cards = Ok (Some (card, method)) -> In card cards.
Proof.
  unfold match_card, match_by_thread. destruct (truthy tid).
  - destruct (find _ cards) as [c|] eqn:Hf.
    + intros [= H1 _]. subst card. now apply find_In in Hf.
    + destruct domain as [d|]; [|discriminate]. destruct (truthy d); [|discriminate].
      destruct (RegExp.compile (domain_pattern d) true) as [rx| |]; try discriminate.
      destruct (find (has_domain_tag rx) cards) as [c|] eqn:Hg; [|discriminate].
      intros [= H1 _]. subst card. now apply find_In in Hg.
  - destruct domain as [d|]; [|discriminate]. destruct (truthy d); [|discriminate].
    destruct (RegExp.compile (domain_pattern d) true) as [rx| |]; try discriminate.
    destruct (find (has_domain_tag rx) cards) as [c|] eqn:Hg; [|discriminate].
    intros [= H1 _]. subst card. now apply find_In in Hg.
Qed.

Lemma step_effect_before (L : Locals) (w0 w : World) (card : Card)
    (r : outcome Locals) (w' : World) :
  same_moves w0 w -> step_effect L w card r w' -> step_effect L w0 card r w'.
Proof.
  unfold same_moves. intros H0 [r0 w1 H1 H2 | L' w1 H1 H2 | L' w1 H1 H2].
  - apply NoMove; [unfold same_moves; congruence | exact H2].
  - apply Moved; [congruence | exact H2].
  - apply MoveFailed; [congruence | exact H2].
Qed.

Lemma move_matched_effect (messageId subject : string) (card : Card) (label : string)
    (L : Locals) (w : World) (r : outcome Locals) (w' : World) :
  move_matched svc env messageId subject card label L w = (r, w') ->
  step_effect L w card r w'.
Proof.
  unfold move_matched. destruct (route env label) as [target listName].
  destruct (truthy_opt target).
  - unfold try_catch, bind, trello_move_card, call.
    destruct (svc_move_card svc (trace w) (card_id card) (text_of target)) as [[]|m].
    + destruct (markEmailAsRead_returns messageId
                  (set_list (card_id card) (text_of target)
                     (record (Call (MoveCard (card_id card) (text_of target)) true) w)))
        as [w2 [Hm Hs]].
      rewrite Hm. intros [= <- <-]. apply Moved; [|reflexivity].
      unfold same_moves in Hs. rewrite Hs. cbn [set_list record trace].
      now rewrite moves_app.
    + cbn [catchable]. unfold console_error, emit, ret. intros [= <- <-].
      apply MoveFailed; [|reflexivity]. cbn [record trace].
      now rewrite <- !app_assoc, !moves_app.
  - intros [= <- <-]. apply NoMove; [reflexivity | now intros L' [= <-]].
Qed.

(** What one message does. *)
Lemma process_message_effect (groq : bool) (messageId : string) (L : Locals)
    (w : World) (r : outcome Locals) (w' : World) :
  process_message svc env groq messageId L w = (r, w') ->
  (same_moves w w' /\ forall L', r = Ok L' -> trelloCards L' = trelloCards L) \/
  exists card, In card (trelloCards L) /\ step_effect L w card r w'.
Proof.
  unfold process_message, bind at 1, try_catch, bind at 1, gmail_get, call.
  assert (Hrec : forall ok, same_moves w (record (Call (GetMessage messageId) ok) w)).
  { intros ok. unfold same_moves. rewrite moves_record. simpl. now rewrite app_nil_r. }
  destruct (svc_get_message svc (trace w) messageId) as [msg|m].
  - cbn [ret]. set (w1 := record (Call (GetMessage messageId) true) w).
    unfold bind at 1. destruct (MY_EMAIL env) as [me|].
    + cbn [ret]. destruct (negb (includes _ (toLowerCase me))).
      * intros [= <- <-]. left. split; [apply Hrec | now intros L' [= <-]].
      * unfold bind at 1, lift.
        destruct (match_card (threadId msg) _ (trelloCards L)) as [[[card method]|]|e] eqn:Hm.
        -- unfold bind.
           destruct (classify_returns svc groq
                       (header_value "subject" (headers msg) "No Subject") (snippet msg) w1)
             as [label [w2 [Hc Hs]]].
           rewrite Hc. intros H. right. exists card. split.
           ++ eapply match_card_In; eassumption.
           ++ apply move_matched_effect in H.
              apply (step_effect_before L w w2); [|exact H].
              eapply same_moves_trans; [apply (Hrec true) | exact Hs].
        -- intros [= <- <-]. left. split; [apply Hrec | now intros L' [= <-]].
        -- intros [= <- <-]. left. split; [apply Hrec | discriminate].
    + unfold throw. intros [= <- <-]. left. split; [apply Hrec | discriminate].
  - cbn [catchable]. unfold bind, console_error, emit, ret. intros [= <- <-].
    left. split; [|now intros L' [= <-]].
    unfold same_moves. cbn [record trace].
    now rewrite <- !app_assoc, !moves_app, !app_nil_r.
Qed.

End Step.

End ReplyStep.

(* ================================================================== *)
(** ** Routing and skipping *)
(* ================================================================== *)

Module Routing.

Import JS JSFacts EffFacts Classifier ReplyClassifier ReplyStep.

(** A label outside the label set takes the [default] branch. *)
Lemma route_unknown (env : Env) (label : string) :
  ~ In label categories -> route env label = (None, "Unknown List").
Proof.
  intros H. unfold route.
  repeat match goal with
  | |- context [String.eqb label ?x] =>
      destruct (String.eqb_spec label x) as [->|_];
        [exfalso; apply H; cbn; tauto|]
  end.
  reflexivity.
Qed.

(** C7. A matched card whose label has no destination list -- the label is
    OFFER, or is not one of the labels, or the list id configured for it is
    absent or empty -- is left where it is: the move block requests nothing
    and changes nothing, so the card keeps its list, the message keeps its
    UNREAD label and the candidates are the same. *)
Theorem no_destination_no_move (svc : Services) (env : Env)
    (messageId subject : string) (card : Card) (label : string)
    (L : Locals) (w : World) :
  label = "OFFER" \/ ~ In label categories \/ truthy_opt (fst (route env label)) = false ->
  move_matched svc env messageId subject card label L w = (Ok L, w).
Proof.
  intros H.
  assert (Hr : truthy_opt (fst (route env label)) = false).
  { destruct H as [-> | [H | H]]; [reflexivity | | exact H].
    now rewrite route_unknown. }
  unfold move_matched. destruct (route env label) as [target listName].
  cbn [fst] in Hr. now rewrite Hr.
Qed.

Lemma no_destination_no_move_witness :
  ("OFFER" = "OFFER" \/ ~ In "OFFER" categories \/
   truthy_opt (fst (route Samples.env "OFFER")) = false) /\
  move_matched (Samples.services Samples.acme_reply (Success "OFFER") (fun _ => Success tt)) Samples.env
    "m1" "Re: your application" Samples.acme_by_domain "OFFER"
    (mkLocals [Samples.acme_by_domain] [] 0) Samples.world
  = (Ok (mkLocals [Samples.acme_by_domain] [] 0), Samples.world).
Proof.
  split; [now left|].
  exact (no_destination_no_move _ _ _ _ _ _ _ _ (or_introl eq_refl)).
Defined.

(** C10. A fetched message whose To header does not contain the configured
    address (letters in either case) is skipped: the step answers with the
    same candidates, summary and failure count, and the world differs only
    by the record of the fetch -- no match is looked for, no classification
    is requested, no card moves, the message stays unread. *)
Theorem not_addressed_skipped (svc : Services) (env : Env) (groq : bool)
    (messageId : string) (L : Locals) (w : World) (msg : Message) (me : string) :
  svc_get_message svc (trace w) messageId = Success msg ->
  MY_EMAIL env = Some me ->
  ~ Contains (toLowerCase (header_value "to" (headers msg) "")) (toLowerCase me) ->
  process_message svc env groq messageId L w
  = (Ok L, record (Call (GetMessage messageId) true) w).
Proof.
  intros Hget Hme Hto.
  unfold process_message, bind at 1, try_catch, bind at 1, gmail_get, call.
  rewrite Hget. cbn [ret]. unfold bind at 1. rewrite Hme. cbn [ret].
  destruct (includes _ (toLowerCase me)) eqn:Hi; [|reflexivity].
  exfalso. apply Hto. now apply includes_spec.
Qed.

Lemma not_addressed_skipped_witness :
  svc_get_message
    (Samples.services Samples.to_someone_else (Success "REJECTION") (fun _ => Success tt))
    (trace Samples.world) "m1" = Success Samples.to_someone_else /\
  MY_EMAIL Samples.env = Some "me@x.com" /\
  ~ Contains (toLowerCase (header_value "to" (headers Samples.to_someone_else) ""))
             (toLowerCase "me@x.com") /\
  process_message
    (Samples.services Samples.to_someone_else (Success "REJECTION") (fun _ => Success tt))
    Samples.env true "m1" (mkLocals [Samples.acme_by_domain] [] 0) Samples.world
  = (Ok (mkLocals [Samples.acme_by_domain] [] 0),
     record (Call (GetMessage "m1") true) Samples.world).
Proof.
  assert (Hto : ~ Contains (toLowerCase (header_value "to" (headers Samples.to_someone_else) ""))
                           (toLowerCase "me@x.com")).
  { intros H. apply includes_spec in H. discriminate. }
  split; [reflexivity|]. split; [reflexivity|]. split; [exact Hto|].
  exact (not_addressed_skipped
           (Samples.services Samples.to_someone_else (Success "REJECTION") (fun _ => Success tt))
           Samples.env true "m1" _ Samples.world
           Samples.to_someone_else "me@x.com" eq_refl eq_refl Hto).
Defined.

End Routing.

(* ================================================================== *)
(** ** A run of the Reply Classifier *)
(* ================================================================== *)

Module ReplyRun.

Import JS JSFacts EffFacts Classifier ReplyClassifier ReplyStep.

(** *** Lists of move requests *)

Lemma settled_snoc (ms : list (string * bool)) (cardId : string) (ok : bool) :
  settled (ms ++ [(cardId, ok)]) <->
  settled ms /\ ~ In cardId (map fst (filter snd ms)).
Proof.
  induction ms as [|[i o] ms IH]; cbn [app settled filter map snd fst].
  - intuition auto.
  - rewrite IH, map_app, in_app_iff. cbn [map fst In].
    destruct o; cbn [map fst In]; intuition congruence.
Qed.

Lemma settled_NoDup (ms : list (string * bool)) :
  settled ms -> NoDup (map fst (filter snd ms)).
Proof.
  induction ms as [|[i o] ms IH]; cbn [settled filter map snd fst];
    [constructor|].
  intros [Hi Hs]. destruct o; cbn [map fst]; [|now apply IH].
  constructor; [|now apply IH]. intros Hin. apply (Hi eq_refl).
  apply in_map_iff in Hin as [[j p] [Hj Hp]]. apply filter_In in Hp as [Hp _].
  apply in_map_iff. now exists (j, p).
Qed.

Lemma settled_split (before after : list (string * bool)) (cardId : string) :
  settled (before ++ (cardId, true) :: after) -> ~ In cardId (map fst after).
Proof.
  induction before as [|[i o] before IH]; cbn [app settled].
  - intros [H _]. now apply H.
  - intros [_ H]. now apply IH.
Qed.

Lemma moved_ids_snoc (w w' : World) (cardId : string) (ok : bool) :
  moves (trace w') = (moves (trace w) ++ [(cardId, ok)])%list ->
  moved_ids (trace w') =
  (moved_ids (trace w) ++ (if ok then [cardId] else []))%list.
Proof.
  unfold moved_ids. intros ->. rewrite filter_app, map_app. now destruct ok.
Qed.

Lemma emit_same_moves (e : Event) :
  moves [e] = [] -> preserves same_moves (emit e).
Proof.
  intros He w o w' [= _ <-]. unfold same_moves. rewrite moves_record, He.
  apply app_nil_r.
Qed.

Section Run.

Variable svc : Services.
Variable env : Env.

(** *** One message keeps the invariants *)

Lemma process_message_invariant (groq : bool) (messageId : string) (L : Locals)
    (w : World) (r : outcome Locals) (w' : World) :
  process_message svc env groq messageId L w = (r, w') ->
  candidates_fresh L w -> settled (moves (trace w)) ->
  settled (moves (trace w')) /\
  (forall L', r = Ok L' -> candidates_fresh L' w') /\
  exists new, moves (trace w') = (moves (trace w) ++ new)%list /\ List.length new <= 1.
Proof.
  intros H Hfresh Hset. apply process_message_effect in H.
  assert (Hsame : forall r0 w0,
            same_moves w w0 ->
            (forall L', r0 = Ok L' -> trelloCards L' = trelloCards L) ->
            settled (moves (trace w0)) /\
            (forall L', r0 = Ok L' -> candidates_fresh L' w0) /\
            exists new, moves (trace w0) = (moves (trace w) ++ new)%list /\
                        List.length new <= 1).
  { intros r0 w0 Hs Hc. unfold same_moves in Hs. split; [now rewrite Hs|]. split.
    - intros L' HL c Hin. unfold moved_ids. rewrite Hs.
      apply Hfresh. now rewrite <- (Hc L' HL).
    - exists []. rewrite app_nil_r. split; [exact Hs | cbn; lia]. }
  destruct H as [[Hs Hc] | [card [Hin Heff]]]; [now apply Hsame|].
  destruct Heff as [r0 w0 Hs Hc | L' w0 Hm Hc | L' w0 Hm Hc]; [now apply Hsame | |].
  - split; [|split].
    + rewrite Hm. apply settled_snoc. split; [exact Hset | exact (Hfresh card Hin)].
    + intros L0 [= <-] c Hc'. rewrite Hc in Hc'. apply filter_In in Hc' as [Hc1 Hc2].
      rewrite (moved_ids_snoc w w0 _ _ Hm), in_app_iff. intros [Hold | [Hnew | []]].
      * exact (Hfresh c Hc1 Hold).
      * rewrite Hnew, String.eqb_refl in Hc2. discriminate.
    + exists [(card_id card, true)]. split; [exact Hm | cbn; lia].
  - split; [|split].
    + rewrite Hm. apply settled_snoc. split; [exact Hset | exact (Hfresh card Hin)].
    + intros L0 [= <-] c Hc'. rewrite Hc in Hc'.
      rewrite (moved_ids_snoc w w0 _ _ Hm), app_nil_r. exact (Hfresh c Hc').
    + exists [(card_id card, false)]. split; [exact Hm | cbn; lia].
Qed.

(** *** The loop keeps them *)

Lemma process_messages_invariant (groq : bool) (messages : list string) :
  forall (L : Locals) (w : World) (r : outcome Locals) (w' : World),
    process_messages svc env groq messages L w = (r, w') ->
    candidates_fresh L w -> settled (moves (trace w)) ->
    settled (moves (trace w')) /\
    (forall L', r = Ok L' -> candidates_fresh L' w') /\
    List.length (moves (trace w')) <= List.length (moves (trace w)) + List.length messages.
Proof.
  induction messages as [|messageId rest IH]; intros L w r w' H Hfresh Hset.
  - cbn in H. injection H as <- <-. split; [exact Hset|]. split.
    + now intros L' [= <-].
    + cbn. lia.
  - cbn [process_messages] in H. unfold bind in H.
    destruct (process_message svc env groq messageId L w) as [[L1|e] w1] eqn:Hstep.
    + destruct (process_message_invariant _ _ _ _ _ _ Hstep Hfresh Hset)
        as [Hset1 [Hfresh1 [new [Hnew Hlen]]]].
      destruct (IH L1 w1 r w' H (Hfresh1 L1 eq_refl) Hset1) as [Hset' [Hfresh' Hlen']].
      split; [exact Hset'|]. split; [exact Hfresh'|].
      rewrite Hnew, length_app in Hlen'. cbn [List.length]. lia.
    + injection H as <- <-.
      destruct (process_message_invariant _ _ _ _ _ _ Hstep Hfresh Hset)
        as [Hset1 [_ [new [Hnew Hlen]]]].
      split; [exact Hset1|]. split; [discriminate|].
      rewrite Hnew, length_app. cbn [List.length]. lia.
Qed.


(** *** From the script to its loop *)

(** Whatever a run does, its move requests are those of one pass of the
    loop over some messages, started with all the fetched cards as
    candidates and before any move. *)
Lemma main_reaches_loop (groq : bool) (w : World) (r : outcome unit) (w' : World) :
  main svc env groq w = (r, w') ->
  exists cards messages w1 r1 w2,
    same_moves w w1 /\
    process_messages svc env groq messages (mkLocals cards [] 0) w1 = (r1, w2) /\
    same_moves w2 w'.
Proof.
  assert (Hnone : forall w0, same_moves w w0 ->
            exists cards messages w1 r1 w2,
              same_moves w w1 /\
              process_messages svc env groq messages (mkLocals cards [] 0) w1 = (r1, w2) /\
              same_moves w2 w0).
  { intros w0 Hs. exists [], [], w0, (Ok (mkLocals [] [] 0)), w0.
    split; [exact Hs | split; reflexivity]. }
  pose proof sendNotification_same_moves as Hsend.
  unfold main, bind at 1. intros H.
  match type of H with
  | match ?c w with _ => _ end = _ =>
      assert (Ha : preserves same_moves c)
        by (unfold authorize; frame_moves_with ltac:(apply Hsend));
      destruct (c w) as [[connected|e] wa] eqn:Hc; apply Ha in Hc
  end; [|injection H as _ <-; now apply Hnone].
  destruct connected; cbn [negb] in H; [|injection H as _ <-; now apply Hnone].
  destruct (negb (truthy_opt (TRELLO_API_KEY env)) || negb (truthy_opt (TRELLO_TOKEN env))
            || negb (truthy_opt (TRELLO_SENT_CV_LIST_ID env))).
  { apply Hnone. eapply same_moves_trans; [exact Hc|].
    revert H. generalize wa r w'. change (preserves same_moves
      (console_error
         ["❌ Error: Ensure TRELLO_API_KEY, TRELLO_TOKEN, and TRELLO_SENT_CV_LIST_ID are set in .env"] ;;
       sendNotification svc env "Trello Bot Error" "Trello environment variables are missing.")).
    frame_moves_with ltac:(apply Hsend). }
  unfold bind at 1 in H.
  match type of H with
  | match ?c wa with _ => _ end = _ =>
      assert (Hb : preserves same_moves c)
        by (unfold trello_get_cards; frame_moves_with ltac:(apply Hsend));
      destruct (c wa) as [[fetched|e] wb] eqn:Hf; apply Hb in Hf
  end; [|injection H as _ <-; apply Hnone; eapply same_moves_trans; eassumption].
  assert (Hwb : same_moves w wb) by (eapply same_moves_trans; eassumption).
  destruct fetched as [cards|]; [|injection H as _ <-; now apply Hnone].
  unfold bind at 1 in H.
  match type of H with
  | match ?c wb with _ => _ end = _ =>
      assert (Hd : preserves same_moves c)
        by (unfold gmail_list_unread; frame_moves_with ltac:(apply Hsend));
      destruct (c wb) as [[listed|e] wc] eqn:Hl; apply Hd in Hl
  end; [|injection H as _ <-; apply Hnone; eapply same_moves_trans; eassumption].
  assert (Hwc : same_moves w wc) by (eapply same_moves_trans; eassumption).
  destruct listed as [[|m ms]|]; try (injection H as _ <-; now apply Hnone).
  unfold bind in H.
  destruct (process_messages svc env groq (m :: ms) (mkLocals cards [] 0) wc)
    as [[L|e] wd] eqn:Hloop.
  - exists cards, (m :: ms), wc, (Ok L), wd.
    split; [exact Hwc|]. split; [exact Hloop|].
    destruct (summary (m :: ms) L) as [title body]. eapply Hsend; eassumption.
  - injection H as _ <-. exists cards, (m :: ms), wc, (Throw e), wd.
    split; [exact Hwc|]. split; [exact Hloop | reflexivity].
Qed.

Lemma script_reaches_loop (w : World) (r : outcome nat) (w' : World) :
  script svc env w = (r, w') ->
  exists groq cards messages w1 r1 w2,
    same_moves w w1 /\
    process_messages svc env groq messages (mkLocals cards [] 0) w1 = (r1, w2) /\
    same_moves w2 w'.
Proof.
  pose proof sendNotification_same_moves as Hsend.
  unfold script, bind at 1. intros H.
  assert (Hg : preserves same_moves (groq_init env)).
  { unfold groq_init. destruct (truthy_opt (GROQ_API_KEY env)); frame_moves. }
  destruct (groq_init env w) as [[groq|e] wg] eqn:Hi; apply Hg in Hi.
  2:{ injection H as _ <-. exists false, [], [], wg, (Ok (mkLocals [] [] 0)), wg.
      split; [exact Hi | split; reflexivity]. }
  unfold try_catch, bind at 1 in H.
  destruct (main svc env groq wg) as [[[]|e] wm] eqn:Hm;
    apply main_reaches_loop in Hm as [cards [messages [w1 [r1 [w2 [H1 [Hloop H2]]]]]]];
    exists groq, cards, messages, w1, r1, w2;
    (split; [eapply same_moves_trans; eassumption|]); (split; [exact Hloop|]).
  - injection H as _ <-. exact H2.
  - destruct (catchable e); [|injection H as _ <-; exact H2].
    eapply same_moves_trans; [exact H2|].
    revert H. generalize wm r w'.
    match goal with
    | |- forall w0 r0 w3, ?c w0 = (r0, w3) -> _ => change (preserves same_moves c)
    end.
    frame_moves_with ltac:(first [apply Hsend | apply emit_same_moves; reflexivity]).
Qed.

(** The invariants at the end of a run that starts before any move. *)
Lemma script_settled (w : World) :
  moves (trace w) = [] -> settled (moves (trace (snd (script svc env w)))).
Proof.
  intros H0. destruct (script svc env w) as [r w'] eqn:Hs. cbn [snd].
  apply script_reaches_loop in Hs as [groq [cards [messages [w1 [r1 [w2 [H1 [Hloop H2]]]]]]]].
  unfold same_moves in H1, H2. rewrite H2.
  apply (process_messages_invariant groq messages _ _ _ _ Hloop).
  - intros c _. unfold moved_ids. now rewrite H1, H0.
  - now rewrite H1, H0.
Qed.

End Run.

(** C5. A card that a message moves with success is filtered out of the
    candidates by that very step; a match is always one of the candidates;
    after any number of messages no candidate is a card moved earlier in the
    run; so in the whole run of the script no card is moved twice. *)
Theorem moved_card_leaves_candidates (svc : Services) (env : Env) :
  (forall groq messageId L w L' w' cardId,
      process_message svc env groq messageId L w = (Ok L', w') ->
      In cardId (moved_ids (trace w')) -> ~ In cardId (moved_ids (trace w)) ->
      forall c, In c (trelloCards L') -> card_id c <> cardId) /\
  (forall tid domain cards card method,
      match_card tid domain cards = Ok (Some (card, method)) -> In card cards) /\
  (forall groq messages cards b u L' w',
      process_messages svc env groq messages (mkLocals cards [] 0) (mkWorld b u [])
      = (Ok L', w') ->
      candidates_fresh L' w') /\
  (forall b u, NoDup (moved_ids (trace (snd (script svc env (mkWorld b u [])))))).
Proof.
  split; [|split; [|split]].
  - intros groq messageId L w L' w' cardId H Hin Hnot c Hc Heq.
    apply process_message_effect in H.
    assert (Hsame : same_moves w w' -> False).
    { unfold same_moves, moved_ids in *. intros Hs. apply Hnot. now rewrite <- Hs. }
    destruct H as [[Hs _] | [card [_ Heff]]]; [now apply Hsame|].
    inversion Heff as [r0 w0 Hs _ | L0 w0 Hm Hcards | L0 w0 Hm _]; subst.
    + now apply Hsame.
    + rewrite (moved_ids_snoc w w' _ _ Hm), in_app_iff in Hin.
      destruct Hin as [Hin | [Hin | []]]; [now apply Hnot|].
      rewrite Hcards in Hc. apply filter_In in Hc as [_ Hc].
      rewrite <- Hin, String.eqb_refl in Hc. discriminate.
    + rewrite (moved_ids_snoc w w' _ _ Hm), app_nil_r in Hin. now apply Hnot.
  - intros tid domain cards card method. apply match_card_In.
  - intros groq messages cards b u L' w' H.
    apply (process_messages_invariant svc env groq messages _ _ _ _ H); cbn.
    + intros c _ [].
    + exact I.
    + reflexivity.
  - intros b u. apply settled_NoDup. now apply script_settled.
Qed.

Lemma moved_card_leaves_candidates_witness :
  process_message (Samples.services Samples.acme_reply (Success "REJECTION") (fun _ => Success tt))
    Samples.env true "m1" (mkLocals [Samples.acme_by_domain] [] 0) Samples.world
  = (Ok (mkLocals [] [mkLogEntry "Acme" "Dropped Initial" "Re: your application"] 0),
     snd (process_message
            (Samples.services Samples.acme_reply (Success "REJECTION") (fun _ => Success tt))
            Samples.env true "m1" (mkLocals [Samples.acme_by_domain] [] 0) Samples.world)) /\
  forall c, In c ([] : list Card) -> card_id c <> "c1".
Proof.
  split; [reflexivity|].
  refine (proj1 (moved_card_leaves_candidates
                   (Samples.services Samples.acme_reply (Success "REJECTION")
                      (fun _ => Success tt)) Samples.env)
            true "m1" (mkLocals [Samples.acme_by_domain] [] 0) Samples.world
            (mkLocals [] [mkLogEntry "Acme" "Dropped Initial" "Re: your application"] 0)
            _ "c1" eq_refl _ _).
  - cbn. now left.
  - cbn. intros [].
Defined.

(** C6 as stated fails.  One card tagged with Acme's domain, two unread
    messages from Acme, every move request refused by Trello: the move of
    that card is requested twice in the run, once for each message. *)
Lemma failed_move_is_requested_again :
  move_attempts
    (trace (snd (script
                   (Samples.services Samples.acme_reply (Success "REJECTION")
                      (fun _ => Failure "429 Too Many Requests"))
                   Samples.env Samples.world)))
  = ["c1"; "c1"] /\
  moved_ids
    (trace (snd (script
                   (Samples.services Samples.acme_reply (Success "REJECTION")
                      (fun _ => Failure "429 Too Many Requests"))
                   Samples.env Samples.world)))
  = [].
Proof. split; reflexivity. Qed.

End ReplyRun.

(* ================================================================== *)
(** ** The Job Status Checker: a failed check keeps the card *)
(* ================================================================== *)

Module CheckerFacts.

Import JS JSFacts EffFacts JobStatusChecker.

Section Checker.

Variable svc : Services.
Variable env : Env.

(** Without a usable answer the check says ACTIVE; it returns, requests no
    move and touches no card. *)
Lemma check_fails_active (groq : bool) (jobUrl : string) (w : World) :
  status_unavailable svc groq jobUrl w ->
  exists w',
    checkJobStatusWithAI svc groq jobUrl w = (Ok true, w') /\
    same_remote w w' /\ same_moves w w'.
Proof.
  unfold status_unavailable, checkJobStatusWithAI, same_moves.
  intros [-> | [[m Hm] | [content [Hc [Ha Hd]]]]].
  - exists w. repeat split.
  - destruct groq; cbn [negb]; [|exists w; repeat split].
    unfold try_catch, bind, groq_chat, call. rewrite Hm. cbn [catchable].
    eexists. split; [reflexivity|]. split; [now split|].
    unfold console_error, emit. cbn [snd trace record].
    now rewrite <- !app_assoc, !moves_app, !app_nil_r.
  - destruct groq; cbn [negb]; [|exists w; repeat split].
    unfold try_catch, bind, groq_chat, call. rewrite Hc.
    apply String.eqb_neq in Ha, Hd. rewrite Ha, Hd.
    eexists. split; [reflexivity|]. split; [now split|].
    unfold console_warn, emit. cbn [snd trace record].
    now rewrite <- !app_assoc, !moves_app, !app_nil_r.
Qed.

(** C8. For a card with a link attachment, when the status check has no
    usable answer (no client, a failed request, an answer that is neither
    ACTIVE nor DELETED), the check returns ACTIVE, and the step for that
    card requests no move: the card stays in its list. *)
Theorem status_failure_keeps_card (groq : bool) (card : Card)
    (attachments : list Attachment) (link : Attachment) (L : Locals) (w : World) :
  svc_attachments svc (trace w) (card_id card) = Success attachments ->
  find is_link attachments = Some link ->
  status_unavailable svc groq (url link)
    (record (Call (ListAttachments (card_id card)) true) w) ->
  exists w1 w',
    checkJobStatusWithAI svc groq (url link)
      (record (Call (ListAttachments (card_id card)) true) w) = (Ok true, w1) /\
    process_card svc env groq card L w = (Ok L, w') /\
    same_remote w w' /\ same_moves w w'.
Proof.
  intros Hatt Hlink Hfail.
  destruct (check_fails_active _ _ _ Hfail) as [w1 [Hcheck [[Hb Hu] Hm]]].
  exists w1, (record (Delay 5000) w1). split; [exact Hcheck|].
  unfold process_card, bind at 1, try_catch, bind at 1, trello_get_attachments, call.
  rewrite Hatt, Hlink. cbn [ret]. unfold bind at 1. rewrite Hcheck.
  split; [reflexivity|]. split; [now split|].
  unfold same_moves in *. rewrite moves_record, Hm, moves_record. cbn.
  now rewrite !app_nil_r.
Qed.

End Checker.

Lemma status_failure_keeps_card_witness :
  svc_attachments (Samples.services Samples.acme_reply (Success "I cannot browse")
                     (fun _ => Success tt))
    (trace Samples.world) (card_id Samples.acme_by_domain)
  = Success [mkAttachment true "cv.pdf"; mkAttachment false "https://acme.com/jobs/7"] /\
  find is_link [mkAttachment true "cv.pdf"; mkAttachment false "https://acme.com/jobs/7"]
  = Some (mkAttachment false "https://acme.com/jobs/7") /\
  exists w1 w',
    checkJobStatusWithAI
      (Samples.services Samples.acme_reply (Success "I cannot browse") (fun _ => Success tt))
      true "https://acme.com/jobs/7"
      (record (Call (ListAttachments "c1") true) Samples.world) = (Ok true, w1) /\
    process_card
      (Samples.services Samples.acme_reply (Success "I cannot browse") (fun _ => Success tt))
      Samples.env true Samples.acme_by_domain (mkLocals 0 []) Samples.world
    = (Ok (mkLocals 0 []), w') /\
    same_remote Samples.world w' /\ same_moves Samples.world w'.
Proof.
  split; [reflexivity|]. split; [reflexivity|].
  refine (status_failure_keeps_card
            (Samples.services Samples.acme_reply (Success "I cannot browse")
               (fun _ => Success tt))
            Samples.env true Samples.acme_by_domain
            [mkAttachment true "cv.pdf"; mkAttachment false "https://acme.com/jobs/7"]
            (mkAttachment false "https://acme.com/jobs/7")
            (mkLocals 0 []) Samples.world eq_refl eq_refl _).
  right. right. exists "I cannot browse". split; [reflexivity|].
  split; discriminate.
Defined.

(** With a usable answer DELETED the card does move. *)
Example deleted_job_moves :
  board (snd (script (Samples.services Samples.acme_reply (Success " deleted ")
                        (fun _ => Success tt))
                Samples.env Samples.world)) "c1"
  = Some "L_DELETED".
Proof. reflexivity. Qed.

End CheckerFacts.

(* ================================================================== *)
(** ** Missing configuration *)
(* ================================================================== *)

Module Configuration.

Import JS JSFacts EffFacts.

Section Config.

Variable svc : Services.
Variable env : Env.

(** A notification returns, and leaves in the trace what an attempt
    leaves. *)
Lemma notification_trace (tags title body : string) (w : World) :
  exists w' evs,
    try_catch (ntfy_post svc (text_of (NTFY_TOPIC env)) title body tags)
      (fun error =>
         console_error ["    - ❌ Error sending notification:"; message_of svc error]) w
    = (Ok tt, w') /\
    trace w' = (trace w ++ evs)%list /\
    (evs = [Call (Notify (text_of (NTFY_TOPIC env)) title body tags) true] \/
     exists m,
       evs = [Call (Notify (text_of (NTFY_TOPIC env)) title body tags) false;
              Stderr ("    - ❌ Error sending notification: " ++ m)]) /\
    same_remote w w'.
Proof.
  unfold try_catch, ntfy_post, call.
  destruct (svc_notify svc (trace w) (text_of (NTFY_TOPIC env)) title body) as [[]|m].
  - eexists _, _. split; [reflexivity|]. split; [reflexivity|]. split; [now left | now split].
  - cbn [catchable]. eexists _, _. split; [reflexivity|]. unfold console_error, emit.
    cbn [snd record trace]. rewrite <- app_assoc. split; [reflexivity|].
    split; [|now split]. right. now exists m.
Qed.

Lemma reply_notification (title body : string) (w : World) :
  exists w' evs,
    ReplyClassifier.sendNotification svc env title body w = (Ok tt, w') /\
    trace w' = (trace w ++ evs)%list /\
    notification_attempt env title body "robot" evs /\
    same_remote w w'.
Proof.
  unfold ReplyClassifier.sendNotification, notification_attempt.
  destruct (NTFY_TOPIC env) as [topic|] eqn:Ht; cbn [truthy_opt].
  - destruct (truthy topic).
    + pose proof (notification_trace "robot" title body w) as H.
      rewrite Ht in H. exact H.
    + exists w, []. rewrite app_nil_r. repeat split.
  - exists w, []. rewrite app_nil_r. repeat split.
Qed.

Lemma checker_notification (title body : string) (w : World) :
  exists w' evs,
    JobStatusChecker.sendNotification svc env title body w = (Ok tt, w') /\
    trace w' = (trace w ++ evs)%list /\
    notification_attempt env title body "broom,robot" evs /\
    same_remote w w'.
Proof.
  unfold JobStatusChecker.sendNotification, notification_attempt.
  destruct (NTFY_TOPIC env) as [topic|] eqn:Ht; cbn [truthy_opt].
  - destruct (truthy topic).
    + pose proof (notification_trace "broom,robot" title body w) as H.
      rewrite Ht in H. exact H.
    + exists w, []. rewrite app_nil_r. repeat split.
  - exists w, []. rewrite app_nil_r. repeat split.
Qed.

End Config.

(** C9 as stated fails.  Without GROQ_API_KEY the Reply Classifier does not
    stop: it ends with status 0 after moving the matched card to the list of
    the label OTHER_REPLY. *)
Lemma missing_groq_key_run_goes_on :
  GROQ_API_KEY Samples.env_without_groq_key = None /\
  fst (ReplyClassifier.script
         (Samples.services Samples.acme_reply (Success "REJECTION") (fun _ => Success tt))
         Samples.env_without_groq_key Samples.world) = Ok 0 /\
  moves (trace (snd (ReplyClassifier.script
                       (Samples.services Samples.acme_reply (Success "REJECTION")
                          (fun _ => Success tt))
                       Samples.env_without_groq_key Samples.world)))
  = [("c1", true)] /\
  board (snd (ReplyClassifier.script
                (Samples.services Samples.acme_reply (Success "REJECTION")
                   (fun _ => Success tt))
                Samples.env_without_groq_key Samples.world)) "c1"
  = Some "L_CONTACT".
Proof. repeat split. Qed.

(** Without MY_EMAIL the run is not stopped by a check either: it goes on
    until the first fetched message, where reading the address raises; the
    crash handler then ends the process with status 1. *)
Example missing_recipient_crashes :
  fst (ReplyClassifier.script
         (Samples.services Samples.acme_reply (Success "REJECTION") (fun _ => Success tt))
         Samples.env_without_recipient Samples.world) = Ok 1 /\
  List.firstn 4
    (trace (snd (ReplyClassifier.script
                   (Samples.services Samples.acme_reply (Success "REJECTION")
                      (fun _ => Success tt))
                   Samples.env_without_recipient Samples.world)))
  = [Call Authorize true; Call (ListCards "L_SENT") true; Call ListMessages true;
     Call (GetMessage "m1") true].
Proof. split; reflexivity. Qed.

End Configuration.

(* ================================================================== *)
(** ** Worked runs *)
(* ================================================================== *)

Module Scenarios.

Import Samples.

(** A reply from Acme addressed to me, a card tagged with Acme's domain, the
    label REJECTION: the card goes to the Dropped list, the message loses its
    UNREAD label, the summary announces one moved card. *)
Example rejection_moves_card :
  let w := snd (ReplyClassifier.script
                  (with_messages ["m1"]
                     (services acme_reply (Success " rejection ") (fun _ => Success tt)))
                  env world) in
  board w "c1" = Some "L_DROPPED" /\ unread w "m1" = false /\
  notified (trace w) = ["Trello Bot: 1 Card(s) Moved"].
Proof. repeat split. Qed.

(** The label OFFER: the card is matched and classified, and nothing
    moves. *)
Example offer_moves_nothing :
  let w := snd (ReplyClassifier.script
                  (with_messages ["m1"]
                     (services acme_reply (Success "OFFER") (fun _ => Success tt)))
                  env world) in
  moves (trace w) = [] /\ board w "c1" = Some "L_SENT" /\ unread w "m1" = true /\
  notified (trace w) = ["Trello Bot: All Clear"].
Proof. repeat split. Qed.

(** No unread message: one fetch of the cards, no notification, status 0. *)
Example empty_inbox :
  let run := ReplyClassifier.script
               (with_messages []
                  (services acme_reply (Success "OFFER") (fun _ => Success tt)))
               env world in
  fst run = Ok 0 /\
  requests (trace (snd run)) = [Authorize; ListCards "L_SENT"; ListMessages].
Proof. split; reflexivity. Qed.

(** The tag in brackets and in upper case is accepted. *)
Example bracketed_tag_matches :
  ReplyClassifier.match_card "" (Some "acme.com") [acme_bracketed]
  = Ok (Some (acme_bracketed, "Domain")).
Proof. reflexivity. Qed.

(** The job checker: the status DELETED moves the card, and each checked
    card is followed by the pause of five seconds. *)
Example deleted_job_run :
  let w := snd (JobStatusChecker.script
                  (services acme_reply (Success "Deleted") (fun _ => Success tt))
                  env world) in
  moves (trace w) = [("c1", true)] /\
  List.count_occ Nat.eq_dec (delays (trace w)) 5000 = 1 /\
  notified (trace w) = ["Trello Job Checker: 1 Job(s) Deleted"].
Proof. repeat split. Qed.

End Scenarios.

(* ================================================================== *)
(** ** Reading the sender and shortening the subject *)
(* ================================================================== *)

Module Parsing.

Import JS JSFacts ReplyClassifier.

(** *** The subject quoted in a summary line *)

Lemma substring_prefix (n : nat) (s : string) :
  exists rest,
    s = String.substring 0 n s ++ rest /\
    String.length (String.substring 0 n s) = Nat.min n (String.length s).
Proof.
  revert s. induction n as [|n IH]; intros s.
  - exists s. destruct s; split; reflexivity.
  - destruct s as [|c s]; [exists ""; split; reflexivity|].
    destruct (IH s) as [rest [Hs Hl]]. exists rest. cbn [String.substring append String.length].
    split; [now rewrite <- Hs | now rewrite Hl].
Qed.

Lemma length_append (a b : string) :
  String.length (a ++ b) = String.length a + String.length b.
Proof. induction a as [|c a IH]; simpl; [reflexivity | now rewrite IH]. Qed.

Lemma unit_width_cases (c : ascii) :
  unit_width c = 0 \/ unit_width c = 1 \/ unit_width c = 2.
Proof.
  unfold unit_width.
  repeat match goal with
  | |- context [?a <? ?b] => destruct (a <? b)
  end; auto.
Qed.

Lemma units_append (a b : string) : units (a ++ b) = units a + units b.
Proof. induction a as [|c a IH]; cbn [append units]; [reflexivity | rewrite IH; lia]. Qed.

(** The cut has the number of code units asked for. *)
Lemma units_take_units (n : nat) (s : string) :
  n <= units s -> units (take_units n s) = n.
Proof.
  revert n. induction s as [|c s IH]; intros n Hn; cbn [units take_units] in *; [lia|].
  destruct (unit_width_cases c) as [Hw | [Hw | Hw]]; rewrite Hw in *.
  - cbn [units]. rewrite Hw. now apply IH.
  - destruct (Nat.leb_spec 1 n).
    + cbn [units]. rewrite Hw, IH by lia. lia.
    + replace n with 0 by lia. reflexivity.
  - destruct (Nat.leb_spec 2 n).
    + cbn [units]. rewrite Hw, IH by lia. lia.
    + destruct (Nat.eqb_spec n 0); [now subst|].
      replace n with 1 by lia. reflexivity.
Qed.

(** The cut is a prefix of the text, followed by U+FFFD when it falls
    inside a surrogate pair. *)
Lemma take_units_prefix (n : nat) (s : string) :
  exists head rest,
    s = head ++ rest /\
    (take_units n s = head \/ take_units n s = head ++ replacement).
Proof.
  revert n. induction s as [|c s IH]; intros n; [exists "", ""; now split; [|left]|].
  cbn [take_units].
  assert (Hkeep : forall k, exists head rest,
            String c s = head ++ rest /\
            (String c (take_units k s) = head \/
             String c (take_units k s) = head ++ replacement)).
  { intros k. destruct (IH k) as [head [rest [Hs [Ht | Ht]]]];
      exists (String c head), rest; cbn [append]; rewrite <- Hs, Ht; auto. }
  destruct (unit_width c) as [|w]; [apply Hkeep|].
  destruct (S w <=? n); [apply Hkeep|].
  exists "", (String c s). split; [reflexivity|].
  destruct (n =? 0); [now left | now right].
Qed.

(** On ASCII text the code units are the characters. *)
Lemma units_ascii (s : string) : ascii_text s = true -> units s = String.length s.
Proof.
  induction s as [|c s IH]; [reflexivity|]. cbn [ascii_text units String.length].
  intros H. apply andb_true_iff in H as [Hc Hs]. unfold unit_width. rewrite Hc.
  now rewrite IH.
Qed.

Lemma take_units_ascii (n : nat) (s : string) :
  ascii_text s = true -> take_units n s = String.substring 0 n s.
Proof.
  revert n. induction s as [|c s IH]; intros n H; [now destruct n|].
  cbn [ascii_text] in H. apply andb_true_iff in H as [Hc Hs].
  cbn [take_units]. unfold unit_width. rewrite Hc.
  destruct n as [|n]; [reflexivity|]. cbn [String.substring].
  replace (1 <=? S n) with true by reflexivity.
  replace (S n - 1) with n by lia. now rewrite IH.
Qed.

(** X1. The subject quoted in a line of the summary never has more than 30
    UTF-16 code units, the length that the code measures: a subject of at
    most 30 units is quoted whole; a longer one is cut to its first 27 units
    followed by three dots, where the cut is a prefix of the subject (followed
    by U+FFFD when it falls inside a surrogate pair).  On an ASCII subject
    the units are the characters. *)
Theorem shortSubject_bounded (subject : string) :
  units (shortSubject subject) <= 30 /\
  (units subject <= 30 -> shortSubject subject = subject) /\
  (30 < units subject ->
   shortSubject subject = take_units 27 subject ++ "..." /\
   units (take_units 27 subject) = 27 /\
   exists head rest,
     subject = head ++ rest /\
     (take_units 27 subject = head \/ take_units 27 subject = head ++ replacement)) /\
  (ascii_text subject = true ->
   units subject = String.length subject /\
   take_units 27 subject = String.substring 0 27 subject).
Proof.
  unfold shortSubject.
  split; [|split; [|split]].
  - destruct (30 <? units subject) eqn:Hlong.
    + apply Nat.ltb_lt in Hlong.
      rewrite units_append, units_take_units by lia.
      replace (units "...") with 3 by reflexivity. lia.
    + now apply Nat.ltb_ge in Hlong.
  - intros Hshort. apply Nat.ltb_ge in Hshort. now rewrite Hshort.
  - intros Hlong. pose proof Hlong as Hcut. apply Nat.ltb_lt in Hlong. rewrite Hlong.
    split; [reflexivity|]. split; [apply units_take_units; lia|].
    apply take_units_prefix.
  - intros Hascii. split; [now apply units_ascii | now apply take_units_ascii].
Qed.

(** A Hebrew subject of 20 letters and spaces has 37 bytes and 20 code
    units: it is quoted whole.  A longer one is cut after 27 letters and
    spaces. *)
Example hebrew_subject_quoted_whole :
  String.length "תודה על פנייתך למשרה" = 37 /\
  units "תודה על פנייתך למשרה" = 20 /\
  shortSubject "תודה על פנייתך למשרה" = "תודה על פנייתך למשרה" /\
  shortSubject "תודה על פנייתך למשרת מפתח תוכנה בכיר בחברה"
  = "תודה על פנייתך למשרת מפתח ת...".
Proof. repeat split. Qed.

(** A cut that falls inside a surrogate pair: the character after the 26th
    is sent as U+FFFD. *)
Example cut_inside_surrogate_pair :
  shortSubject "Re: your application here 🎉 news of it"
  = "Re: your application here " ++ replacement ++ "...".
Proof. reflexivity. Qed.

(** *** The sender's address and domain *)

Lemma span_not_gt_body (body rest : string) :
  lacks ">" body = true ->
  span_not_gt (body ++ String ">" rest) = (body, String ">" rest).
Proof.
  induction body as [|c body IH]; intros H; [reflexivity|].
  cbn [lacks] in H. apply andb_true_iff in H as [Hc Hb].
  apply negb_true_iff in Hc. cbn [append span_not_gt]. now rewrite Hc, IH.
Qed.

Lemma match_angle_found (display body rest : string) :
  lacks "<" display = true -> lacks ">" body = true -> truthy body = true ->
  match_angle (display ++ String "<" (body ++ String ">" rest)) = Some body.
Proof.
  intros Hd Hb Ht. induction display as [|c display IH].
  - cbn [append match_angle]. change (Ascii.eqb "<" "<") with true. cbn iota.
    rewrite span_not_gt_body by exact Hb. destruct body; [discriminate | reflexivity].
  - cbn [lacks] in Hd. apply andb_true_iff in Hd as [Hc Hd].
    apply negb_true_iff in Hc. cbn [append match_angle]. rewrite Hc. now apply IH.
Qed.

Lemma split_once (sep : ascii) (a b : string) :
  lacks sep a = true -> lacks sep b = true ->
  split sep (a ++ String sep b) = [a; b].
Proof.
  intros Ha Hb.
  assert (Hsplit_b : split sep b = [b]).
  { clear Ha. induction b as [|c b IH]; [reflexivity|].
    cbn [lacks] in Hb. apply andb_true_iff in Hb as [Hc Hb].
    apply negb_true_iff in Hc. cbn [split]. now rewrite Hc, IH. }
  induction a as [|c a IH].
  - cbn [append split]. now rewrite Ascii.eqb_refl, Hsplit_b.
  - cbn [lacks] in Ha. apply andb_true_iff in Ha as [Hc Ha].
    apply negb_true_iff in Hc. cbn [append split]. now rewrite Hc, IH.
Qed.

Lemma includes_char (c : ascii) (a b : string) :
  includes (a ++ String c b) (String c "") = true.
Proof.
  apply includes_spec. exists a, b. reflexivity.
Qed.

Lemma lacks_app (c : ascii) (a b : string) :
  lacks c (a ++ b) = lacks c a && lacks c b.
Proof. induction a as [|x a IH]; simpl; [reflexivity | now rewrite IH, andb_assoc]. Qed.

(** X2. A From header of the form [display <user@host> rest] gives the
    domain [host] in lower case: the address is what stands between the
    first angle brackets, the domain what follows its [@]. *)
Theorem sender_domain_of_header (display user host rest : string) :
  lacks "<" display = true ->
  lacks ">" user = true -> lacks ">" host = true ->
  lacks "@" user = true -> lacks "@" host = true ->
  fromEmail_of (display ++ "<" ++ user ++ "@" ++ host ++ ">" ++ rest)
  = user ++ "@" ++ host /\
  domain_of (fromEmail_of (display ++ "<" ++ user ++ "@" ++ host ++ ">" ++ rest))
  = Some (toLowerCase host).
Proof.
  intros Hd Hu Hh Hau Hah.
  assert (Hfrom : fromEmail_of (display ++ "<" ++ user ++ "@" ++ host ++ ">" ++ rest)
                  = user ++ "@" ++ host).
  { unfold fromEmail_of.
    replace (display ++ "<" ++ user ++ "@" ++ host ++ ">" ++ rest)
      with (display ++ String "<" ((user ++ "@" ++ host) ++ String ">" rest))
      by (cbn [append]; now rewrite !append_assoc).
    rewrite match_angle_found; [reflexivity | exact Hd | |].
    - rewrite lacks_app, Hu. cbn [append lacks andb]. now rewrite Hh.
    - destruct user; reflexivity. }
  split; [exact Hfrom|]. rewrite Hfrom. unfold domain_of.
  change (user ++ "@" ++ host) with (user ++ String "@" host).
  now rewrite includes_char, split_once.
Qed.

Lemma sender_domain_of_header_witness :
  lacks "<" "HR Team " = true /\
  lacks ">" "jobs" = true /\ lacks ">" "Mail.Acme.COM" = true /\
  lacks "@" "jobs" = true /\ lacks "@" "Mail.Acme.COM" = true /\
  fromEmail_of "HR Team <jobs@Mail.Acme.COM>" = "jobs@Mail.Acme.COM" /\
  domain_of (fromEmail_of "HR Team <jobs@Mail.Acme.COM>") = Some "mail.acme.com".
Proof.
  do 5 (split; [reflexivity|]).
  exact (sender_domain_of_header "HR Team " "jobs" "Mail.Acme.COM" ""
           eq_refl eq_refl eq_refl eq_refl eq_refl).
Defined.

End Parsing.

(* ================================================================== *)
(** ** Answers of the service that are understood *)
(* ================================================================== *)

Module Answers.

Import JS JSFacts EffFacts.

(** *** [trim] ignores white space around a text, whatever the text *)







(** *** Changing the case does not change where the white space is *)










End Answers.

(* ================================================================== *)
(** ** Failures of the collaborators in the Reply Classifier *)
(* ================================================================== *)

Module ReplyFailures.

Import JS JSFacts EffFacts ReplyClassifier Configuration.

(** X4. A notification never raises and touches neither a card nor a
    message.  Without a topic it requests nothing; with a topic it makes one
    request, and a failed request leaves one line on the error stream.  The
    same holds for the Job Status Checker's copy of the function. *)
Theorem notification_never_raises (svc : Services) (env : Env)
    (title body : string) (w : World) :
  (exists w' evs,
     ReplyClassifier.sendNotification svc env title body w = (Ok tt, w') /\
     trace w' = (trace w ++ evs)%list /\
     notification_attempt env title body "robot" evs /\
     same_remote w w') /\
  (exists w' evs,
     JobStatusChecker.sendNotification svc env title body w = (Ok tt, w') /\
     trace w' = (trace w ++ evs)%list /\
     notification_attempt env title body "broom,robot" evs /\
     same_remote w w').
Proof.
  split.
  - apply reply_notification.
  - apply checker_notification.
Qed.

(** X5. Marking a message read never raises.  When Gmail accepts, the
    message loses its UNREAD label and no other message does; when Gmail
    refuses, the labels stay as they are and one line goes to the error
    stream.  No card moves either way. *)
Theorem markEmailAsRead_never_raises (svc : Services) (messageId : string) (w : World) :
  exists w',
    markEmailAsRead svc messageId w = (Ok tt, w') /\
    board w' = board w /\
    ((svc_mark_read svc (trace w) messageId = Success tt /\
      unread w' messageId = false /\
      (forall m, m <> messageId -> unread w' m = unread w m) /\
      trace w' = (trace w ++ [Call (MarkRead messageId) true])%list) \/
     (exists m,
        svc_mark_read svc (trace w) messageId = Failure m /\
        unread w' = unread w /\
        trace w' =
          (trace w ++
           [Call (MarkRead messageId) false;
            Stderr ("    - Failed to mark email " ++ messageId ++ " as read: " ++ m)])%list)).
Proof.
  unfold markEmailAsRead, try_catch, gmail_remove_unread, call.
  destruct (svc_mark_read svc (trace w) messageId) as [[]|m] eqn:Hm.
  - eexists. split; [reflexivity|]. split; [reflexivity|]. left.
    split; [reflexivity|]. cbn [clear_unread unread record trace board].
    split; [now rewrite String.eqb_refl|]. split; [|reflexivity].
    intros m Hm'. apply String.eqb_neq in Hm'. now rewrite Hm'.
  - cbn [catchable]. eexists. split; [reflexivity|]. split; [reflexivity|]. right.
    exists m. split; [reflexivity|]. split; [reflexivity|].
    cbn [console_error emit snd record trace message_of join String.concat].
    now rewrite <- app_assoc, !append_assoc.
Qed.

Section Startup.

Variable svc : Services.
Variable env : Env.

(** X6. A failure while the run starts ends it at once, with an error line
    and a notification that both carry the message of the failure, and
    nothing else: when Gmail refuses the connection no other call is made;
    when Trello cannot list the cards no message is listed; when Gmail cannot
    list the unread messages no message is fetched. *)
Theorem startup_failure_aborts (groq : bool) (w : World) :
  (forall m,
     svc_authorize svc (trace w) = Failure m ->
     main svc env groq w =
     sendNotification svc env "Trello Bot Error" ("Failed to connect to Gmail: " ++ m)
       (record (Stderr ("❌ Failed to connect to Gmail: " ++ m))
          (record (Call Authorize false) w))) /\
  (forall m,
     svc_authorize svc (trace w) = Success tt ->
     reply_config_missing env = false ->
     svc_list_cards svc (trace (record (Call Authorize true) w))
       (text_of (TRELLO_SENT_CV_LIST_ID env)) = Failure m ->
     main svc env groq w =
     sendNotification svc env "Trello Bot Error" ("Failed to fetch Trello cards: " ++ m)
       (record (Stderr ("❌ Error getting Trello cards: " ++ m))
          (record (Call (ListCards (text_of (TRELLO_SENT_CV_LIST_ID env))) false)
             (record (Call Authorize true) w)))) /\
  (forall cards m,
     svc_authorize svc (trace w) = Success tt ->
     reply_config_missing env = false ->
     svc_list_cards svc (trace (record (Call Authorize true) w))
       (text_of (TRELLO_SENT_CV_LIST_ID env)) = Success cards ->
     svc_list_messages svc
       (trace (record (Call (ListCards (text_of (TRELLO_SENT_CV_LIST_ID env))) true)
                 (record (Call Authorize true) w))) = Failure m ->
     main svc env groq w =
     sendNotification svc env "Trello Bot Error" ("Failed to fetch Gmail list: " ++ m)
       (record (Stderr ("❌ Error fetching email list from Gmail: " ++ m))
          (record (Call ListMessages false)
             (record (Call (ListCards (text_of (TRELLO_SENT_CV_LIST_ID env))) true)
                (record (Call Authorize true) w))))).
Proof.
  pose proof (fun t b w0 => reply_notification svc env t b w0) as Hsend.
  split; [|split].
  - intros m Hauth.
    unfold main, bind at 1, try_catch, bind at 1, authorize, call.
    rewrite Hauth. cbn [catchable]. unfold bind at 1, console_error, emit.
    cbn [message_of join String.concat]. unfold bind at 1.
    destruct (Hsend "Trello Bot Error" ("Failed to connect to Gmail: " ++ m)
                (record (Stderr ("❌ Failed to connect to Gmail: " ++ m))
                   (record (Call Authorize false) w))) as [w' [evs [Hrun _]]].
    cbn [append] in Hrun |- *. now rewrite Hrun.
  - intros m Hauth Hcfg Hcards. unfold reply_config_missing in Hcfg.
    unfold main, bind at 1, try_catch, bind at 1, authorize, call.
    rewrite Hauth. cbn [ret negb]. rewrite Hcfg.
    unfold bind at 1, bind at 1, trello_get_cards, call. rewrite Hcards.
    cbn [catchable]. unfold bind at 1, console_error, emit.
    cbn [message_of join String.concat]. unfold bind at 1.
    destruct (Hsend "Trello Bot Error" ("Failed to fetch Trello cards: " ++ m)
                (record (Stderr ("❌ Error getting Trello cards: " ++ m))
                   (record (Call (ListCards (text_of (TRELLO_SENT_CV_LIST_ID env))) false)
                      (record (Call Authorize true) w)))) as [w' [evs [Hrun _]]].
    cbn [append] in Hrun |- *. now rewrite Hrun.
  - intros cards m Hauth Hcfg Hcards Hlist. unfold reply_config_missing in Hcfg.
    unfold main, bind at 1, try_catch, bind at 1, authorize, call.
    rewrite Hauth. cbn [ret negb]. rewrite Hcfg.
    unfold bind at 1, bind at 1, trello_get_cards, call. rewrite Hcards. cbn [ret].
    unfold bind at 1, bind at 1, gmail_list_unread, call. rewrite Hlist.
    cbn [catchable]. unfold bind at 1, console_error, emit.
    cbn [message_of join String.concat]. unfold bind at 1.
    destruct (Hsend "Trello Bot Error" ("Failed to fetch Gmail list: " ++ m)
                (record (Stderr ("❌ Error fetching email list from Gmail: " ++ m))
                   (record (Call ListMessages false)
                      (record (Call (ListCards (text_of (TRELLO_SENT_CV_LIST_ID env))) true)
                         (record (Call Authorize true) w))))) as [w' [evs [Hrun _]]].
    cbn [append] in Hrun |- *. now rewrite Hrun.
Qed.

(** X7. With no unread message the run ends after the two listings: no
    message is fetched, nothing is classified or moved, and no notification
    is sent. *)
Theorem empty_inbox_ends_quietly (groq : bool) (w : World) (cards : list Card) :
  svc_authorize svc (trace w) = Success tt ->
  reply_config_missing env = false ->
  svc_list_cards svc (trace (record (Call Authorize true) w))
    (text_of (TRELLO_SENT_CV_LIST_ID env)) = Success cards ->
  svc_list_messages svc
    (trace (record (Call (ListCards (text_of (TRELLO_SENT_CV_LIST_ID env))) true)
              (record (Call Authorize true) w))) = Success [] ->
  main svc env groq w =
  (Ok tt,
   record (Call ListMessages true)
     (record (Call (ListCards (text_of (TRELLO_SENT_CV_LIST_ID env))) true)
        (record (Call Authorize true) w))).
Proof.
  intros Hauth Hcfg Hcards Hlist. unfold reply_config_missing in Hcfg.
  unfold main, bind at 1, try_catch, bind at 1, authorize, call.
  rewrite Hauth. cbn [ret negb]. rewrite Hcfg.
  unfold bind at 1, bind at 1, trello_get_cards, call. rewrite Hcards. cbn [ret].
  unfold bind at 1, bind at 1, gmail_list_unread, call. now rewrite Hlist.
Qed.

(** X8. A message that cannot be fetched is skipped and the loop goes on:
    the step leaves one error line with the message of the failure, changes
    neither the candidates nor the counters, and the remaining messages are
    processed from there. *)
Theorem failed_fetch_skips_message (groq : bool) (messageId : string)
    (rest : list string) (L : Locals) (w : World) (m : string) :
  svc_get_message svc (trace w) messageId = Failure m ->
  process_message svc env groq messageId L w =
  (Ok L,
   record (Stderr (nl ++ "❌ Error fetching details for email ID " ++ messageId ++ ": " ++ m))
     (record (Call (GetMessage messageId) false) w)) /\
  process_messages svc env groq (messageId :: rest) L w =
  process_messages svc env groq rest L
    (record (Stderr (nl ++ "❌ Error fetching details for email ID " ++ messageId ++ ": " ++ m))
       (record (Call (GetMessage messageId) false) w)).
Proof.
  intros Hget.
  assert (Hstep : process_message svc env groq messageId L w =
    (Ok L,
     record (Stderr (nl ++ "❌ Error fetching details for email ID " ++ messageId ++ ": " ++ m))
       (record (Call (GetMessage messageId) false) w))).
  { unfold process_message, bind at 1, try_catch, bind at 1, gmail_get, call.
    rewrite Hget. cbn [catchable]. unfold bind at 1, console_error, emit.
    cbn [message_of join String.concat]. cbn [ret].
    now rewrite !append_assoc. }
  split; [exact Hstep|]. cbn [process_messages]. unfold bind at 1. now rewrite Hstep.
Qed.

End Startup.

Lemma empty_inbox_ends_quietly_witness :
  svc_authorize (Samples.with_messages [] Samples.friendly) (trace Samples.world) = Success tt /\
  reply_config_missing Samples.env = false /\
  main (Samples.with_messages [] Samples.friendly) Samples.env true Samples.world =
  (Ok tt,
   record (Call ListMessages true)
     (record (Call (ListCards "L_SENT") true) (record (Call Authorize true) Samples.world))).
Proof.
  split; [reflexivity|]. split; [reflexivity|].
  exact (empty_inbox_ends_quietly (Samples.with_messages [] Samples.friendly) Samples.env
           true Samples.world [Samples.acme_by_domain] eq_refl eq_refl eq_refl eq_refl).
Defined.

Lemma failed_fetch_skips_message_witness :
  svc_get_message (Samples.with_failing_fetch "404" Samples.friendly)
    (trace Samples.world) "m1" = Failure "404" /\
  process_messages (Samples.with_failing_fetch "404" Samples.friendly) Samples.env true
    ["m1"; "m2"] (mkLocals [Samples.acme_by_domain] [] 0) Samples.world =
  process_messages (Samples.with_failing_fetch "404" Samples.friendly) Samples.env true
    ["m2"] (mkLocals [Samples.acme_by_domain] [] 0)
    (record (Stderr (nl ++ "❌ Error fetching details for email ID " ++ "m1" ++ ": " ++ "404"))
       (record (Call (GetMessage "m1") false) Samples.world)).
Proof.
  split; [reflexivity|].
  exact (proj2 (failed_fetch_skips_message
                  (Samples.with_failing_fetch "404" Samples.friendly) Samples.env true
                  "m1" ["m2"] (mkLocals [Samples.acme_by_domain] [] 0) Samples.world "404"
                  eq_refl)).
Defined.

Lemma startup_failure_aborts_witness :
  main (Samples.with_failing_authorize "invalid_grant" Samples.friendly) Samples.env true
    Samples.world =
  sendNotification (Samples.with_failing_authorize "invalid_grant" Samples.friendly)
    Samples.env "Trello Bot Error" ("Failed to connect to Gmail: " ++ "invalid_grant")
    (record (Stderr ("❌ Failed to connect to Gmail: " ++ "invalid_grant"))
       (record (Call Authorize false) Samples.world)) /\
  main (Samples.with_failing_cards "503" Samples.friendly) Samples.env true Samples.world =
  sendNotification (Samples.with_failing_cards "503" Samples.friendly)
    Samples.env "Trello Bot Error" ("Failed to fetch Trello cards: " ++ "503")
    (record (Stderr ("❌ Error getting Trello cards: " ++ "503"))
       (record (Call (ListCards "L_SENT") false)
          (record (Call Authorize true) Samples.world))) /\
  main (Samples.with_failing_list "500" Samples.friendly) Samples.env true Samples.world =
  sendNotification (Samples.with_failing_list "500" Samples.friendly)
    Samples.env "Trello Bot Error" ("Failed to fetch Gmail list: " ++ "500")
    (record (Stderr ("❌ Error fetching email list from Gmail: " ++ "500"))
       (record (Call ListMessages false)
          (record (Call (ListCards "L_SENT") true)
             (record (Call Authorize true) Samples.world)))).
Proof.
  split; [|split].
  - exact (proj1 (startup_failure_aborts
                    (Samples.with_failing_authorize "invalid_grant" Samples.friendly)
                    Samples.env true Samples.world) "invalid_grant" eq_refl).
  - exact (proj1 (proj2 (startup_failure_aborts
                           (Samples.with_failing_cards "503" Samples.friendly)
                           Samples.env true Samples.world)) "503" eq_refl eq_refl eq_refl).
  - exact (proj2 (proj2 (startup_failure_aborts
                           (Samples.with_failing_list "500" Samples.friendly)
                           Samples.env true Samples.world))
             [Samples.acme_by_domain] "500" eq_refl eq_refl eq_refl eq_refl).
Defined.

End ReplyFailures.

(* ================================================================== *)
(** ** Quiet computations *)
(* ================================================================== *)

Module Quiet.

Import JS JSFacts EffFacts.

Lemma quiet_refl (w : World) : quiet w w.
Proof.
  split; [reflexivity|]. split; [reflexivity|]. exists []. now rewrite app_nil_r.
Qed.

Lemma quiet_trans (a b c : World) : quiet a b -> quiet b c -> quiet a c.
Proof.
  intros [Hb1 [Hu1 [e1 [Ht1 Hh1]]]] [Hb2 [Hu2 [e2 [Ht2 Hh2]]]].
  split; [congruence|]. split; [congruence|]. exists (e1 ++ e2)%list.
  split; [now rewrite Ht2, Ht1, app_assoc | now rewrite forallb_app, Hh1, Hh2].
Qed.

Lemma emit_quiet (e : Event) : harmless e = true -> preserves quiet (emit e).
Proof.
  intros He w o w' [= _ <-]. split; [reflexivity|]. split; [reflexivity|].
  exists [e]. split; [reflexivity|]. cbn. now rewrite He.
Qed.

Lemma console_quiet (args : list string) : preserves quiet (console_error args).
Proof. now apply emit_quiet. Qed.

Lemma call_quiet {A : Type} (r : request) (answer : list Event -> reply A) :
  harmless (Call r true) = true -> preserves quiet (call r answer).
Proof.
  intros Hr w o w' H. unfold call in H.
  destruct (answer (trace w)); injection H as _ <-;
    (split; [reflexivity|]; split; [reflexivity|]);
    eexists [_]; (split; [reflexivity|]); cbn; destruct r; try discriminate; reflexivity.
Qed.

Ltac frame_quiet_with known :=
  repeat first
    [ known
    | apply quiet_refl
    | apply quiet_trans
    | apply preserves_ret
    | apply preserves_throw
    | apply console_quiet
    | apply emit_quiet; reflexivity
    | apply call_quiet; reflexivity
    | apply preserves_bind
    | apply preserves_try_catch
    | apply preserves_if
    | intro ].

Ltac frame_quiet := frame_quiet_with fail.

(** *** What a quiet stretch leaves alone *)

Lemma move_requests_app (a b : list Event) :
  move_requests (a ++ b) = (move_requests a ++ move_requests b)%list.
Proof.
  induction a as [|e a IH]; [reflexivity|].
  destruct e as [[] ok| | |]; simpl; now rewrite ?IH.
Qed.

Lemma mark_requests_app (a b : list Event) :
  mark_requests (a ++ b) = (mark_requests a ++ mark_requests b)%list.
Proof.
  induction a as [|e a IH]; [reflexivity|].
  destruct e as [[] ok| | |]; simpl; now rewrite ?IH.
Qed.

Lemma harmless_silent (evs : list Event) :
  forallb harmless evs = true ->
  moves evs = [] /\ move_requests evs = [] /\ mark_requests evs = [].
Proof.
  induction evs as [|e evs IH]; [now repeat split|].
  cbn [forallb]. intros H. apply andb_true_iff in H as [He Hevs].
  destruct (IH Hevs) as [H1 [H2 H3]].
  destruct e as [[] ok| | |]; try discriminate; cbn; auto.
Qed.

Lemma quiet_same_moves (w w' : World) : quiet w w' -> same_moves w w'.
Proof.
  intros [_ [_ [evs [Ht Hh]]]]. unfold same_moves.
  destruct (harmless_silent evs Hh) as [H _]. now rewrite Ht, moves_app, H, app_nil_r.
Qed.

Lemma quiet_same_remote (w w' : World) : quiet w w' -> same_remote w w'.
Proof. intros [Hb [Hu _]]. now split. Qed.

Lemma quiet_move_requests (w w' : World) :
  quiet w w' -> move_requests (trace w') = move_requests (trace w).
Proof.
  intros [_ [_ [evs [Ht Hh]]]].
  destruct (harmless_silent evs Hh) as [_ [H _]].
  now rewrite Ht, move_requests_app, H, app_nil_r.
Qed.

Lemma quiet_mark_requests (w w' : World) :
  quiet w w' -> mark_requests (trace w') = mark_requests (trace w).
Proof.
  intros [_ [_ [evs [Ht Hh]]]].
  destruct (harmless_silent evs Hh) as [_ [_ H]].
  now rewrite Ht, mark_requests_app, H, app_nil_r.
Qed.

(** *** The quiet parts of the scripts *)

Lemma classify_quiet (svc : Services) (groq : bool) (subject snippet : string) :
  preserves quiet (ReplyClassifier.classifyEmailWithAI svc groq subject snippet).
Proof.
  unfold ReplyClassifier.classifyEmailWithAI, console_warn, groq_chat. frame_quiet.
Qed.

Lemma check_quiet (svc : Services) (groq : bool) (jobUrl : string) :
  preserves quiet (JobStatusChecker.checkJobStatusWithAI svc groq jobUrl).
Proof.
  unfold JobStatusChecker.checkJobStatusWithAI, console_warn, groq_chat.
  frame_quiet.
Qed.

Lemma reply_notification_quiet (svc : Services) (env : Env) (title body : string) :
  preserves quiet (ReplyClassifier.sendNotification svc env title body).
Proof.
  unfold ReplyClassifier.sendNotification, ntfy_post. destruct (NTFY_TOPIC env); frame_quiet.
Qed.

Lemma checker_notification_quiet (svc : Services) (env : Env) (title body : string) :
  preserves quiet (JobStatusChecker.sendNotification svc env title body).
Proof.
  unfold JobStatusChecker.sendNotification, ntfy_post. destruct (NTFY_TOPIC env); frame_quiet.
Qed.

End Quiet.

(* ================================================================== *)
(** ** The bookkeeping of the Reply Classifier *)
(* ================================================================== *)

Module ReplyBook.

Import JS JSFacts EffFacts Quiet ReplyClassifier ReplyStep.

Section Book.

Variable svc : Services.
Variable env : Env.

(** The move block, case by case. *)
Lemma move_matched_exact (messageId subject : string) (card : Card) (label : string)
    (L : Locals) (w : World) :
  move_matched svc env messageId subject card label L w =
  if truthy_opt (fst (route env label)) then
    match svc_move_card svc (trace w) (card_id card) (text_of (fst (route env label))) with
    | Success _ =>
        (Ok (mkLocals
               (filter (fun c => negb (String.eqb (card_id c) (card_id card))) (trelloCards L))
               (movedCardsLog L ++
                [mkLogEntry (card_name card) (snd (route env label)) subject])%list
               (cardsFailed L)),
         snd (markEmailAsRead svc messageId
                (set_list (card_id card) (text_of (fst (route env label)))
                   (record (Call (MoveCard (card_id card) (text_of (fst (route env label)))) true)
                      w))))
    | Failure m =>
        (Ok (mkLocals (trelloCards L) (movedCardsLog L) (S (cardsFailed L))),
         record (Stderr ("    ❌ Error moving card " ++ card_id card ++ ": " ++ m))
           (record (Call (MoveCard (card_id card) (text_of (fst (route env label)))) false) w))
    end
  else (Ok L, w).
Proof.
  unfold move_matched. destruct (route env label) as [target listName]. cbn [fst snd].
  destruct (truthy_opt target); [|reflexivity].
  unfold try_catch, bind, trello_move_card, call.
  destruct (svc_move_card svc (trace w) (card_id card) (text_of target)) as [[]|m].
  - destruct (markEmailAsRead_returns svc messageId
                (set_list (card_id card) (text_of target)
                   (record (Call (MoveCard (card_id card) (text_of target)) true) w)))
      as [w2 [Hm _]].
    now rewrite Hm.
  - cbn [catchable]. unfold console_error, emit, ret.
    cbn [message_of join String.concat]. now rewrite !append_assoc.
Qed.

(** One message: it is skipped quietly, or it raises before anything is
    moved, or a candidate is matched and, after a quiet stretch, handed to
    the move block. *)
Lemma process_message_shape (groq : bool) (messageId : string) (L : Locals)
    (w : World) (r : outcome Locals) (w' : World) :
  process_message svc env groq messageId L w = (r, w') ->
  (quiet w w' /\
   (r = Ok L \/
    (r = Throw TypeError /\ MY_EMAIL env = None) \/
    (exists msg e,
       svc_get_message svc (trace w) messageId = Success msg /\
       match_card (threadId msg) (sender_domain msg) (trelloCards L) = Throw e /\
       r = Throw e))) \/
  (exists msg card method label w1,
     svc_get_message svc (trace w) messageId = Success msg /\
     match_card (threadId msg) (sender_domain msg) (trelloCards L)
     = Ok (Some (card, method)) /\
     quiet w w1 /\
     move_matched svc env messageId (header_value "subject" (headers msg) "No Subject")
       card label L w1 = (r, w')).
Proof.
  unfold process_message, bind at 1, try_catch, bind at 1, gmail_get, call.
  assert (Hrec : forall ok, quiet w (record (Call (GetMessage messageId) ok) w)).
  { intros ok. split; [reflexivity|]. split; [reflexivity|].
    exists [Call (GetMessage messageId) ok]. now split. }
  destruct (svc_get_message svc (trace w) messageId) as [msg|m] eqn:Hget.
  - cbn [ret]. set (w1 := record (Call (GetMessage messageId) true) w).
    unfold bind at 1. destruct (MY_EMAIL env) as [me|] eqn:Hme.
    + cbn [ret]. destruct (negb (includes _ (toLowerCase me))).
      * intros [= <- <-]. left. split; [apply Hrec | now left].
      * unfold bind at 1, lift. fold (sender_domain msg).
        destruct (match_card (threadId msg) (sender_domain msg) (trelloCards L))
          as [[[card method]|]|e] eqn:Hm.
        -- unfold bind.
           destruct (ReplyClassifier.classifyEmailWithAI svc groq
                       (header_value "subject" (headers msg) "No Subject") (snippet msg) w1)
             as [[label|e] w2] eqn:Hc.
           ++ intros Hmove. right. exists msg, card, method, label, w2.
              split; [reflexivity|]. split; [exact Hm|]. split; [|exact Hmove].
              eapply quiet_trans; [apply (Hrec true)|]. eapply classify_quiet; exact Hc.
           ++ exfalso.
              destruct (Classifier.classify_cases svc groq
                          (header_value "subject" (headers msg) "No Subject") (snippet msg) w1)
                as [l [w3 [Hr _]]]. congruence.
        -- intros [= <- <-]. left. split; [apply Hrec | now left].
        -- intros [= <- <-]. left. split; [apply Hrec|]. right. right.
           exists msg, e. now repeat split.
    + unfold throw. intros [= <- <-]. left. split; [apply Hrec|]. right. left. now split.
  - cbn [catchable]. unfold bind, console_error, emit, ret. intros [= <- <-].
    left. split; [|now left]. split; [reflexivity|]. split; [reflexivity|].
    eexists [_; _]. cbn [record trace]. rewrite <- app_assoc. now split.
Qed.


Lemma markEmailAsRead_frame (messageId : string) (w : World) :
  board (snd (markEmailAsRead svc messageId w)) = board w /\
  (forall m, m <> messageId ->
             unread (snd (markEmailAsRead svc messageId w)) m = unread w m) /\
  moves (trace (snd (markEmailAsRead svc messageId w))) = moves (trace w) /\
  move_requests (trace (snd (markEmailAsRead svc messageId w))) = move_requests (trace w).
Proof.
  unfold markEmailAsRead, try_catch, gmail_remove_unread, call.
  destruct (svc_mark_read svc (trace w) messageId) as [[]|m]; cbn [catchable snd].
  - cbn [clear_unread record board unread trace]. split; [reflexivity|]. split.
    + intros m Hm. apply String.eqb_neq in Hm. now rewrite Hm.
    + now rewrite moves_app, move_requests_app, !app_nil_r.
  - cbn [console_error emit snd record board unread trace]. split; [reflexivity|].
    split; [reflexivity|].
    now rewrite <- !app_assoc, moves_app, move_requests_app, !app_nil_r.
Qed.

(** A destination that passes the test of the move block is one of the six
    configured list ids. *)
Lemma route_destination (label : string) :
  truthy_opt (fst (route env label)) = true ->
  In (fst (route env label)) (destinations env).
Proof.
  unfold route, destinations.
  repeat match goal with
  | |- context [String.eqb label ?x] => destruct (String.eqb label x)
  end; cbn [fst In]; try tauto. discriminate.
Qed.

Lemma truthy_opt_text (o : option string) :
  truthy_opt o = true -> o = Some (text_of o) /\ truthy (text_of o) = true.
Proof. destruct o; [now split | discriminate]. Qed.

(** *** What one message changes *)

Lemma step_summary_quiet (cards : list Card) (L : Locals) (w w' : World) :
  quiet w w' -> step_summary env cards L w L w'.
Proof.
  intros Hq. pose proof (quiet_same_moves _ _ Hq) as Hm. unfold same_moves in Hm.
  constructor; unfold moved_ids; rewrite ?Hm; try reflexivity.
  - apply incl_refl.
  - auto.
  - exists []. rewrite app_nil_r. split; [now apply quiet_move_requests | constructor].
Qed.

Lemma step_summary_before (cards : list Card) (L : Locals) (w0 w : World)
    (L' : Locals) (w' : World) :
  quiet w0 w -> step_summary env cards L w L' w' -> step_summary env cards L w0 L' w'.
Proof.
  intros Hq [H1 H2 H3 H4 [new [H5 H6]]].
  pose proof (quiet_same_moves _ _ Hq) as Hm. unfold same_moves in Hm.
  pose proof (quiet_move_requests _ _ Hq) as Hr.
  constructor; unfold moved_ids in *; rewrite <- ?Hm; auto.
  exists new. split; [now rewrite <- Hr | exact H6].
Qed.

Lemma move_matched_summary (cards : list Card) (messageId subject : string)
    (card : Card) (label : string) (L : Locals) (w : World)
    (r : outcome Locals) (w' : World) :
  In card (trelloCards L) ->
  move_matched svc env messageId subject card label L w = (r, w') ->
  exists L', r = Ok L' /\ step_summary env cards L w L' w'.
Proof.
  intros Hin. rewrite move_matched_exact.
  destruct (truthy_opt (fst (route env label))) eqn:Ht.
  - destruct (truthy_opt_text _ Ht) as [Hsome Htruthy].
    pose proof (route_destination label Ht) as Hdest. rewrite Hsome in Hdest.
    destruct (svc_move_card svc (trace w) (card_id card) (text_of (fst (route env label))))
      as [[]|m]; intros [= <- <-]; eexists; (split; [reflexivity|]).
    + destruct (markEmailAsRead_frame messageId
                  (set_list (card_id card) (text_of (fst (route env label)))
                     (record (Call (MoveCard (card_id card)
                                      (text_of (fst (route env label)))) true) w)))
        as [_ [_ [Hm Hr]]].
      cbn [set_list record trace] in Hm, Hr. rewrite moves_app in Hm.
      rewrite move_requests_app in Hr. cbn [moves move_requests] in Hm, Hr.
      constructor; cbn [movedCardsLog cardsFailed trelloCards]; unfold moved_ids;
        rewrite ?Hm, ?filter_app, ?map_app, ?length_app; cbn [filter snd map List.length].
      * lia.
      * lia.
      * intros c Hc. now apply filter_In in Hc.
      * intros Hlog Hcards e He. apply in_app_iff in He as [He | [<- | []]]; [now apply Hlog|].
        exists card. split; [now apply Hcards | reflexivity].
      * eexists [_]. split; [exact Hr|]. constructor; [|constructor]. cbn [fst snd].
        split; [now apply in_map|]. now split.
    + constructor; cbn [movedCardsLog cardsFailed trelloCards record trace]; unfold moved_ids;
        rewrite <- ?app_assoc, ?moves_app, ?move_requests_app, ?filter_app, ?map_app, ?length_app;
        cbn [moves move_requests filter snd map List.length app].
      * lia.
      * lia.
      * apply incl_refl.
      * auto.
      * eexists [_]. split; [reflexivity|]. constructor; [|constructor]. cbn [fst snd].
        split; [now apply in_map|]. now split.
  - intros [= <- <-]. exists L. split; [reflexivity|]. apply step_summary_quiet, quiet_refl.
Qed.

Lemma process_message_summary (cards : list Card) (groq : bool) (messageId : string)
    (L : Locals) (w : World) (L' : Locals) (w' : World) :
  process_message svc env groq messageId L w = (Ok L', w') ->
  step_summary env cards L w L' w'.
Proof.
  intros H. apply process_message_shape in H.
  destruct H as [[Hq [[= <-] | [[[=] _] | [msg [e [_ [_ [=]]]]]]]]
                 | [msg [card [method [label [w1 [_ [Hm [Hq Hmove]]]]]]]]].
  - now apply step_summary_quiet.
  - apply match_card_In in Hm.
    destruct (move_matched_summary cards _ _ _ _ _ _ _ _ Hm Hmove) as [L0 [[= <-] Hs]].
    now apply (step_summary_before cards L w w1).
Qed.


(** *** The loop *)

Lemma loop_book (cards : list Card) (groq : bool) (messages : list string) :
  forall (L : Locals) (w : World) (L' : Locals) (w' : World),
    process_messages svc env groq messages L w = (Ok L', w') ->
    incl (trelloCards L) cards ->
    (forall e, In e (movedCardsLog L) -> exists c, In c cards /\ log_name e = card_name c) ->
    List.length (movedCardsLog L') + List.length (moved_ids (trace w))
    = List.length (movedCardsLog L) + List.length (moved_ids (trace w')) /\
    cardsFailed L' + List.length (moved_ids (trace w')) + List.length (moves (trace w))
    = cardsFailed L + List.length (moved_ids (trace w)) + List.length (moves (trace w')) /\
    (forall e, In e (movedCardsLog L') -> exists c, In c cards /\ log_name e = card_name c).
Proof.
  induction messages as [|messageId rest IH]; intros L w L' w' H Hcards Hnames.
  - cbn in H. injection H as <- <-. auto.
  - cbn [process_messages] in H. unfold bind in H.
    destruct (process_message svc env groq messageId L w) as [[L1|e] w1] eqn:Hstep;
      [|discriminate].
    destruct (process_message_summary cards _ _ _ _ _ _ Hstep) as [H1 H2 H3 H4 _].
    destruct (IH L1 w1 L' w' H) as [I1 [I2 I3]].
    + intros c Hc. apply Hcards. now apply H3.
    + now apply H4.
    + split; [lia|]. split; [lia | exact I3].
Qed.

Lemma loop_requests (groq : bool) (messages : list string) :
  forall (L : Locals) (w : World),
  exists new,
    move_requests (trace (snd (process_messages svc env groq messages L w)))
    = (move_requests (trace w) ++ new)%list /\
    Forall (fun p => In (fst p) (map card_id (trelloCards L)) /\
                     truthy (snd p) = true /\
                     In (Some (snd p)) (destinations env)) new.
Proof.
  induction messages as [|messageId rest IH]; intros L w.
  - exists []. cbn. rewrite app_nil_r. split; [reflexivity | constructor].
  - cbn [process_messages]. unfold bind.
    destruct (process_message svc env groq messageId L w) as [[L1|e] w1] eqn:Hstep.
    + destruct (process_message_summary (trelloCards L) _ _ _ _ _ _ Hstep)
        as [_ _ H3 _ [new1 [Hr1 Hf1]]].
      destruct (IH L1 w1) as [new2 [Hr2 Hf2]].
      exists (new1 ++ new2)%list. split; [now rewrite Hr2, Hr1, app_assoc|].
      apply Forall_app. split; [exact Hf1|].
      eapply Forall_impl; [|exact Hf2]. intros p [Hp1 Hp2]. split; [|exact Hp2].
      apply in_map_iff in Hp1 as [c [Hc Hin]]. apply in_map_iff. exists c.
      split; [exact Hc | now apply H3].
    + cbn [snd]. exists []. rewrite app_nil_r. split; [|constructor].
      apply process_message_shape in Hstep.
      destruct Hstep as [[Hq _] | [msg [card [method [label [w2 [_ [Hm [Hq Hmove]]]]]]]]].
      * now apply quiet_move_requests.
      * apply match_card_In in Hm.
        destruct (move_matched_summary (trelloCards L) _ _ _ _ _ _ _ _ Hm Hmove)
          as [L0 [[=] _]].
Qed.

End Book.

(** X9. The counters of a run tell what happened: when the loop ends, the
    summary has one line for each card moved with success, the failure count
    is the number of refused moves, every line names a fetched card, and the
    title of the summary announces the number of cards moved (or that
    nothing moved). *)
Theorem summary_counts_moves (svc : Services) (env : Env) (groq : bool)
    (messages : list string) (cards : list Card) (w : World) (L : Locals) (w' : World) :
  moves (trace w) = [] ->
  process_messages svc env groq messages (mkLocals cards [] 0) w = (Ok L, w') ->
  List.length (movedCardsLog L) = List.length (moved_ids (trace w')) /\
  cardsFailed L + List.length (moved_ids (trace w')) = List.length (move_attempts (trace w')) /\
  (forall e, In e (movedCardsLog L) -> exists c, In c cards /\ log_name e = card_name c) /\
  fst (summary messages L) =
    (if 0 <? List.length (moved_ids (trace w'))
     then "Trello Bot: " ++ ofNat (List.length (moved_ids (trace w'))) ++ " Card(s) Moved"
     else "Trello Bot: All Clear").
Proof.
  intros H0 Hrun.
  destruct (loop_book svc env cards groq messages _ _ _ _ Hrun) as [H1 [H2 H3]].
  - apply incl_refl.
  - intros e [].
  - assert (Hz : moved_ids (trace w) = []) by (unfold moved_ids; now rewrite H0).
    rewrite Hz in H1, H2. rewrite H0 in H2.
    cbn [movedCardsLog cardsFailed List.length] in H1, H2.
    assert (Hlog : List.length (movedCardsLog L) = List.length (moved_ids (trace w'))) by lia.
    split; [exact Hlog|]. split; [unfold move_attempts; rewrite length_map; lia|].
    split; [exact H3|]. unfold summary. rewrite Hlog.
    now destruct (0 <? List.length (moved_ids (trace w'))).
Qed.

Lemma summary_counts_moves_witness :
  moves (trace Samples.world) = [] /\
  process_messages Samples.friendly Samples.env true ["m1"; "m2"]
    (mkLocals [Samples.acme_by_domain] [] 0) Samples.world
  = (Ok (mkLocals [] [mkLogEntry "Acme" "Dropped Initial" "Re: your application"] 0),
     snd (process_messages Samples.friendly Samples.env true ["m1"; "m2"]
            (mkLocals [Samples.acme_by_domain] [] 0) Samples.world)) /\
  fst (summary ["m1"; "m2"]
         (mkLocals [] [mkLogEntry "Acme" "Dropped Initial" "Re: your application"] 0))
  = "Trello Bot: 1 Card(s) Moved".
Proof.
  split; [reflexivity|]. split; [reflexivity|].
  exact (proj2 (proj2 (proj2
    (summary_counts_moves Samples.friendly Samples.env true ["m1"; "m2"]
       [Samples.acme_by_domain] Samples.world
       (mkLocals [] [mkLogEntry "Acme" "Dropped Initial" "Re: your application"] 0)
       _ eq_refl eq_refl)))).
Defined.

(** X10. The loop asks Trello to move only cards that are among its
    candidates, and only to a list id that is configured, not empty, and one
    of the six destinations of the labels. *)
Theorem moves_stay_within_configuration (svc : Services) (env : Env) (groq : bool)
    (messages : list string) (L : Locals) (w : World) :
  exists new,
    move_requests (trace (snd (process_messages svc env groq messages L w)))
    = (move_requests (trace w) ++ new)%list /\
    Forall (fun p => In (fst p) (map card_id (trelloCards L)) /\
                     truthy (snd p) = true /\
                     In (Some (snd p)) (destinations env)) new.
Proof. apply loop_requests. Qed.

(** X11. One message touches only what is its own: the UNREAD label of no
    other message changes, the list of no card outside the candidates
    changes, and when the step moved no card with success nothing changes at
    all -- no message is marked read without its card having moved. *)
Theorem step_touches_only_its_own (svc : Services) (env : Env) (groq : bool)
    (messageId : string) (L : Locals) (w : World) :
  (forall m, m <> messageId ->
     unread (snd (process_message svc env groq messageId L w)) m = unread w m) /\
  (forall c, ~ In c (map card_id (trelloCards L)) ->
     board (snd (process_message svc env groq messageId L w)) c = board w c) /\
  (moved_ids (trace (snd (process_message svc env groq messageId L w)))
   = moved_ids (trace w) ->
   same_remote w (snd (process_message svc env groq messageId L w))).
Proof.
  destruct (process_message svc env groq messageId L w) as [r w'] eqn:Hstep. cbn [snd].
  apply process_message_shape in Hstep.
  destruct Hstep as [[Hq _] | [msg [card [method [label [w1 [_ [Hm [Hq Hmove]]]]]]]]].
  - destruct Hq as [Hb [Hu _]].
    split; [intros; now rewrite Hu | split; [intros; now rewrite Hb | intros _; now split]].
  - apply match_card_In in Hm. rewrite move_matched_exact in Hmove.
    pose proof (quiet_same_moves _ _ Hq) as Hsame. unfold same_moves in Hsame.
    destruct Hq as [Hb [Hu _]].
    destruct (truthy_opt (fst (route env label))).
    + destruct (svc_move_card svc (trace w1) (card_id card) (text_of (fst (route env label))))
        as [[]|m]; injection Hmove as _ <-.
      * destruct (markEmailAsRead_frame svc messageId
                    (set_list (card_id card) (text_of (fst (route env label)))
                       (record (Call (MoveCard (card_id card)
                                        (text_of (fst (route env label)))) true) w1)))
          as [Hb' [Hu' [Hm' _]]].
        split; [|split].
        -- intros m Hne. rewrite (Hu' m Hne). cbn [set_list record unread]. now rewrite Hu.
        -- intros c Hc. rewrite Hb'. cbn [set_list record board].
           destruct (String.eqb_spec c (card_id card)) as [->|_]; [|now rewrite Hb].
           exfalso. apply Hc. now apply in_map.
        -- unfold moved_ids. rewrite Hm'. cbn [set_list record trace].
           rewrite moves_app, Hsame, filter_app, map_app. cbn [moves filter snd map].
           intros Heq. apply (f_equal (@List.length string)) in Heq.
           rewrite length_app in Heq. cbn in Heq. lia.
      * cbn [record board unread].
        split; [intros; now rewrite Hu | split; [intros; now rewrite Hb | intros _; now split]].
    + injection Hmove as _ <-.
      split; [intros; now rewrite Hu | split; [intros; now rewrite Hb | intros _; now split]].
Qed.

End ReplyBook.

(* ================================================================== *)
(** ** Runs that cannot crash *)
(* ================================================================== *)

Module NoCrash.

Import JS JSFacts EffFacts Quiet.

Lemma returns_ret {A : Type} (a : A) : returns (ret a).
Proof. intros w. now exists a. Qed.

Lemma returns_emit (e : Event) : returns (emit e).
Proof. intros w. now exists tt. Qed.

Lemma returns_console (args : list string) : returns (console_error args).
Proof. apply returns_emit. Qed.

Lemma returns_bind {A B : Type} (c : M A) (k : A -> M B) :
  returns c -> (forall a, returns (k a)) -> returns (bind c k).
Proof.
  intros Hc Hk w. unfold bind. destruct (Hc w) as [a Ha].
  destruct (c w) as [[a'|e] w1]; cbn [fst] in Ha; [|discriminate]. apply Hk.
Qed.

Lemma returns_mild {A : Type} (c : M A) : returns c -> mild c.
Proof. intros Hc w. destruct (Hc w) as [a Ha]. now rewrite Ha. Qed.

Lemma mild_bind {A B : Type} (c : M A) (k : A -> M B) :
  mild c -> (forall a, mild (k a)) -> mild (bind c k).
Proof.
  intros Hc Hk w. unfold bind. specialize (Hc w).
  destruct (c w) as [[a|e] w1]; cbn [fst] in *; [apply Hk | exact Hc].
Qed.

Lemma mild_call {A : Type} (r : request) (answer : list Event -> reply A) :
  mild (call r answer).
Proof. intros w. unfold call. now destruct (answer (trace w)). Qed.

Lemma returns_try_catch {A : Type} (c : M A) (h : exn -> M A) :
  mild c -> (forall e, returns (h e)) -> returns (try_catch c h).
Proof.
  intros Hc Hh w. unfold try_catch. specialize (Hc w).
  destruct (c w) as [[a|e] w1]; cbn [fst] in *; [now exists a|].
  rewrite Hc. apply Hh.
Qed.

Lemma mild_move (svc : Services) (cardId idList : string) :
  mild (trello_move_card svc cardId idList).
Proof.
  intros w. unfold trello_move_card, call.
  now destruct (svc_move_card svc (trace w) cardId idList).
Qed.

Lemma mild_mark (svc : Services) (messageId : string) :
  mild (gmail_remove_unread svc messageId).
Proof.
  intros w. unfold gmail_remove_unread, call.
  now destruct (svc_mark_read svc (trace w) messageId).
Qed.

(** Splits a computation into its parts and shows that each of them
    answers. *)
Ltac total_with known :=
  repeat first
    [ known
    | apply returns_ret
    | apply returns_console
    | apply returns_emit
    | apply returns_bind
    | apply returns_try_catch
    | apply mild_call
    | apply mild_move
    | apply mild_mark
    | apply mild_bind
    | match goal with
      | |- returns (match ?x with _ => _ end) => destruct x
      | |- mild (match ?x with _ => _ end) => destruct x
      | |- returns (let (_, _) := ?x in _) => destruct x
      end
    | apply returns_mild
    | intro ].

Ltac total := total_with fail.

(** *** The Job Status Checker *)

Section Checker.

Import JobStatusChecker.

Variable svc : Services.
Variable env : Env.

Lemma checker_notification_returns (title body : string) :
  returns (sendNotification svc env title body).
Proof. unfold sendNotification, ntfy_post. total. Qed.

Lemma check_returns (groq : bool) (jobUrl : string) :
  returns (checkJobStatusWithAI svc groq jobUrl).
Proof. unfold checkJobStatusWithAI, groq_chat, console_warn. total. Qed.

Lemma process_card_returns (groq : bool) (card : Card) (L : Locals) :
  returns (process_card svc env groq card L).
Proof.
  unfold process_card, move_if_deleted, trello_get_attachments.
  total_with ltac:(apply check_returns).
Qed.

Lemma process_cards_returns (groq : bool) (cards : list Card) :
  forall L, returns (process_cards svc env groq cards L).
Proof.
  induction cards as [|card rest IH]; intros L; cbn [process_cards].
  - apply returns_ret.
  - apply returns_bind; [apply process_card_returns | exact IH].
Qed.

Lemma checker_main_returns : returns (main svc env).
Proof.
  unfold main, trello_get_cards.
  total_with ltac:(first [ apply checker_notification_returns
                         | apply process_cards_returns ]).
Qed.

End Checker.

(** X12. No refused request can crash the Job Status Checker.  For
    collaborators that refuse a request or answer it with a value of the
    documented shape (the card listing an array of cards), in any order and
    with any content, and for every configuration, [main] returns, the
    crash handler is never entered, and the status is 0.  A fulfilled
    listing that is not an array is outside the model: lines 457-465 read it
    outside every [try]. *)
Theorem checker_never_crashes (svc : Services) (env : Env) (w : World) :
  exists w',
    JobStatusChecker.main svc env w = (Ok tt, w') /\
    JobStatusChecker.script svc env w = (Ok 0, w').
Proof.
  destruct (checker_main_returns svc env w) as [[] Hmain].
  destruct (JobStatusChecker.main svc env w) as [r w'] eqn:Hrun. cbn [fst] in Hmain.
  subst r. exists w'. split; [reflexivity|].
  unfold JobStatusChecker.script, try_catch, bind. now rewrite Hrun.
Qed.


(** *** The Reply Classifier *)

Section Reply.

Import ReplyClassifier ReplyStep ReplyBook DomainPattern.

Variable svc : Services.
Variable env : Env.

Lemma reply_notification_returns (title body : string) :
  returns (sendNotification svc env title body).
Proof. unfold sendNotification, ntfy_post. total. Qed.

(** The matcher answers for a sender whose pattern can be built. *)
Lemma match_card_readable (msg : Message) (cards : list Card) :
  readable_sender msg = true ->
  exists m, match_card (threadId msg) (sender_domain msg) cards = Ok m.
Proof.
  unfold readable_sender, match_card. intros H.
  destruct (match_by_thread (threadId msg) cards); [eauto|].
  destruct (sender_domain msg) as [d|]; [|eauto].
  destruct (truthy d) eqn:Ht; [|eauto].
  rewrite compile_domain_pattern by assumption.
  destruct (find _ cards); eauto.
Qed.

Hypothesis recipient_set : exists me, MY_EMAIL env = Some me.
Hypothesis senders_readable :
  forall h messageId msg,
    svc_get_message svc h messageId = Success msg -> readable_sender msg = true.

Lemma process_message_returns (groq : bool) (messageId : string) (L : Locals) :
  returns (process_message svc env groq messageId L).
Proof.
  intros w. destruct (process_message svc env groq messageId L w) as [r w'] eqn:Hstep.
  cbn [fst]. apply process_message_shape in Hstep.
  destruct Hstep as [[_ [-> | [[_ Hnone] | [msg [e [Hget [Hm _]]]]]]]
                     | [msg [card [method [label [w1 [_ [Hm [_ Hmove]]]]]]]]].
  - eauto.
  - destruct recipient_set as [me Hme]. congruence.
  - destruct (match_card_readable msg (trelloCards L) (senders_readable _ _ _ Hget)) as [m Hok].
    congruence.
  - apply match_card_In in Hm.
    destruct (move_matched_summary svc env (trelloCards L) _ _ _ _ _ _ _ _ Hm Hmove)
      as [L' [-> _]]. eauto.
Qed.

Lemma process_messages_returns (groq : bool) (messages : list string) :
  forall L, returns (process_messages svc env groq messages L).
Proof.
  induction messages as [|messageId rest IH]; intros L; cbn [process_messages].
  - apply returns_ret.
  - apply returns_bind; [apply process_message_returns | exact IH].
Qed.

Lemma reply_main_returns (groq : bool) : returns (main svc env groq).
Proof.
  unfold main, authorize, trello_get_cards, gmail_list_unread.
  total_with ltac:(first [ apply reply_notification_returns
                         | apply process_messages_returns ]).
Qed.

End Reply.

(** X13. With the recipient address configured and senders whose domain
    pattern can be built (no domain, or a domain without pattern characters
    other than the dot), no refused request can crash the Reply Classifier.
    For collaborators that refuse a request or answer it with a value of
    the documented shape (the card listing an array of cards, a fetched
    message with its array of headers), in any order and with any content,
    [main] returns, the crash handler is never entered, and the status is
    0.  A fetched message without [payload.headers] and a listing that is
    not an array are outside the model: lines 214-217 and 237-248 read them
    outside every [try]. *)
Theorem reply_never_crashes (svc : Services) (env : Env) (w : World) :
  (exists me, MY_EMAIL env = Some me) ->
  (forall h messageId msg,
     svc_get_message svc h messageId = Success msg -> readable_sender msg = true) ->
  exists groq wg w',
    ReplyClassifier.groq_init env w = (Ok groq, wg) /\
    ReplyClassifier.main svc env groq wg = (Ok tt, w') /\
    ReplyClassifier.script svc env w = (Ok 0, w').
Proof.
  intros Hme Hsenders.
  assert (Hinit : exists groq wg, ReplyClassifier.groq_init env w = (Ok groq, wg)).
  { unfold ReplyClassifier.groq_init.
    destruct (truthy_opt (GROQ_API_KEY env)); eexists _, _; reflexivity. }
  destruct Hinit as [groq [wg Hinit]].
  destruct (reply_main_returns svc env Hme Hsenders groq wg) as [[] Hmain].
  destruct (ReplyClassifier.main svc env groq wg) as [r w'] eqn:Hrun. cbn [fst] in Hmain.
  subst r. exists groq, wg, w'. split; [exact Hinit|]. split; [exact Hrun|].
  unfold ReplyClassifier.script, bind at 1. rewrite Hinit.
  unfold try_catch, bind. now rewrite Hrun.
Qed.

Lemma reply_never_crashes_witness :
  (exists me, MY_EMAIL Samples.env = Some me) /\
  (forall h messageId msg,
     svc_get_message Samples.friendly h messageId = Success msg ->
     readable_sender msg = true) /\
  exists groq wg w',
    ReplyClassifier.groq_init Samples.env Samples.world = (Ok groq, wg) /\
    ReplyClassifier.main Samples.friendly Samples.env groq wg = (Ok tt, w') /\
    ReplyClassifier.script Samples.friendly Samples.env Samples.world = (Ok 0, w').
Proof.
  assert (H1 : exists me, MY_EMAIL Samples.env = Some me) by (now exists "me@x.com").
  assert (H2 : forall h messageId msg,
             svc_get_message Samples.friendly h messageId = Success msg ->
             readable_sender msg = true).
  { intros h messageId msg [= <-]. reflexivity. }
  split; [exact H1|]. split; [exact H2|].
  exact (reply_never_crashes Samples.friendly Samples.env Samples.world H1 H2).
Defined.

End NoCrash.

(* ================================================================== *)
(** ** The loop of the Job Status Checker *)
(* ================================================================== *)

Module CheckerRun.

Import JS JSFacts EffFacts Quiet JobStatusChecker.

Lemma chat_requests_app (a b : list Event) :
  chat_requests (a ++ b) = (chat_requests a ++ chat_requests b)%list.
Proof.
  induction a as [|e a IH]; [reflexivity|].
  destruct e as [[] ok| | |]; simpl; now rewrite ?IH.
Qed.

Lemma delays_app (a b : list Event) : delays (a ++ b) = (delays a ++ delays b)%list.
Proof.
  induction a as [|e a IH]; [reflexivity|].
  destruct e as [[] ok| | |]; simpl; now rewrite ?IH.
Qed.

Lemma moved_ids_app (a b : list Event) :
  moved_ids (a ++ b) = (moved_ids a ++ moved_ids b)%list.
Proof. unfold moved_ids. now rewrite moves_app, filter_app, map_app. Qed.

Lemma subseq_nil_l {A : Type} (l : list A) : subseq [] l.
Proof. induction l; now constructor. Qed.

Lemma subseq_trans {A : Type} (a b c : list A) : subseq a b -> subseq b c -> subseq a c.
Proof.
  intros Hab Hbc. revert a Hab. induction Hbc; intros a Hab.
  - exact Hab.
  - apply subseq_skip. now apply IHHbc.
  - inversion Hab; subst.
    + apply subseq_skip. now apply IHHbc.
    + apply subseq_keep. now apply IHHbc.
Qed.

Lemma subseq_In {A : Type} (a b : list A) (x : A) : subseq a b -> In x a -> In x b.
Proof. induction 1; cbn; intuition. Qed.

Lemma subseq_map {A B : Type} (f : A -> B) (a b : list A) :
  subseq a b -> subseq (map f a) (map f b).
Proof.
  induction 1; cbn; [apply subseq_nil | now apply subseq_skip | now apply subseq_keep].
Qed.

Lemma subseq_NoDup {A : Type} (a b : list A) : subseq a b -> NoDup b -> NoDup a.
Proof.
  induction 1; intros Hb; [constructor | |]; inversion Hb; subst; auto.
  constructor; auto. intros Hin. eauto using subseq_In.
Qed.

(** The projections of a trace, pushed through the events a step adds. *)
Ltac project :=
  cbn [record set_list trace board unread];
  rewrite <- ?app_assoc;
  rewrite ?chat_requests_app, ?delays_app, ?move_requests_app, ?moved_ids_app;
  cbn [chat_requests delays move_requests moved_ids moves filter map fst snd app
       List.length repeat userPrompt].

Section Loop.

Variable svc : Services.
Variable env : Env.

(** X14. A card without a usable link is skipped: when its attachments
    cannot be fetched, or none of them is a link (an attachment that is not
    an upload and has a non-empty url), the step asks for the attachments and
    nothing else: no status request, no move, no pause, and the counters
    stay as they are. *)
Theorem card_without_link_is_skipped (groq : bool) (card : Card) (L : Locals) (w : World) :
  (forall atts, svc_attachments svc (trace w) (card_id card) = Success atts ->
                find is_link atts = None) ->
  exists w',
    process_card svc env groq card L w = (Ok L, w') /\
    same_remote w w' /\
    requests (trace w') = (requests (trace w) ++ [ListAttachments (card_id card)])%list /\
    delays (trace w') = delays (trace w).
Proof.
  intros Hno.
  assert (Hreq : forall a b, requests (a ++ b) = (requests a ++ requests b)%list).
  { induction a as [|e a IH]; [reflexivity|]. intros b.
    destruct e as [r ok| | |]; simpl; now rewrite ?IH. }
  unfold process_card, bind at 1, try_catch, bind at 1, trello_get_attachments, call.
  destruct (svc_attachments svc (trace w) (card_id card)) as [atts|m] eqn:Hatt.
  - rewrite (Hno atts eq_refl). cbn [ret]. eexists. split; [reflexivity|].
    split; [now split|]. project. rewrite Hreq. cbn. now rewrite app_nil_r.
  - cbn [catchable]. unfold bind, console_error, emit, ret. eexists.
    split; [reflexivity|]. split; [now split|]. project.
    rewrite Hreq. cbn. now rewrite app_nil_r.
Qed.

(** One card, with the client set as [main] sets it. *)
Lemma process_card_summary (card : Card) (L : Locals) (w : World) :
  exists L' w',
    process_card svc env true card L w = (Ok L', w') /\
    card_summary env card L w L' w'.
Proof.
  unfold process_card, bind at 1, try_catch, bind at 1, trello_get_attachments, call.
  destruct (svc_attachments svc (trace w) (card_id card)) as [atts|m].
  - destruct (find is_link atts) as [link|]; cbn [ret].
    + unfold bind at 1, checkJobStatusWithAI. cbn [negb].
      unfold try_catch, bind at 1, groq_chat, call.
      set (w1 := record (Call (ListAttachments (card_id card)) true) w).
      assert (active_case : forall w2,
        unread w2 = unread w -> board w2 = board w ->
        chat_requests (trace w2) = (chat_requests (trace w) ++ [userPrompt (url link)])%list ->
        delays (trace w2) = delays (trace w) ->
        move_requests (trace w2) = move_requests (trace w) ->
        moved_ids (trace w2) = moved_ids (trace w) ->
        exists L' w',
          (L' <- move_if_deleted svc env card true L ;; emit (Delay 5000) ;; ret L') w2
          = (Ok L', w') /\
          card_summary env card L w L' w').
      { intros w2 Hu Hb Hc Hd Hm Hi. eexists _, _. split; [reflexivity|].
        exists [url link], 0, 0. project. rewrite Hc, Hd, Hm, Hi, ?app_nil_r.
        repeat split; auto; try lia; try discriminate. intros c _. now rewrite Hb. }
      destruct (svc_chat svc (trace w1) aiModelName systemPrompt (userPrompt (url link)))
        as [content|m].
      * destruct (String.eqb (toUpperCase (trim content)) "ACTIVE").
        -- cbn [ret]. apply active_case; try reflexivity; subst w1; project;
             now rewrite ?app_nil_r.
        -- destruct (String.eqb (toUpperCase (trim content)) "DELETED").
           ++ cbn [ret]. unfold bind at 1, move_if_deleted. cbn [negb].
              unfold try_catch, bind at 1, trello_move_card, call.
              match goal with
              | |- context [svc_move_card svc ?t ?c ?l] =>
                  destruct (svc_move_card svc t c l) as [[]|m]
              end.
              ** cbn [ret]. unfold bind, emit, ret. eexists _, _. split; [reflexivity|].
                 exists [url link], 1, 1. subst w1. project. rewrite ?app_nil_r.
                 repeat split; auto; try lia; try (cbn; lia);
                   try (intros _; now rewrite String.eqb_refl).
                 intros c [Hc | Hc]; [discriminate|].
                 apply String.eqb_neq in Hc. now rewrite Hc.
              ** cbn [catchable]. unfold bind, console_error, emit, ret.
                 eexists _, _. split; [reflexivity|].
                 exists [url link], 1, 0. subst w1. project. rewrite ?app_nil_r.
                 repeat split; auto; try lia; try discriminate.
           ++ unfold bind at 1, console_warn, emit. cbn [ret].
              apply active_case; try reflexivity; subst w1; project;
                now rewrite ?app_nil_r.
      * cbn [catchable]. unfold bind at 1, console_error, emit. cbn [ret].
        apply active_case; try reflexivity; subst w1; project; now rewrite ?app_nil_r.
    + eexists _, _. split; [reflexivity|]. exists [], 0, 0. project.
      rewrite ?app_nil_r. repeat split; auto; try discriminate.
  - cbn [catchable]. unfold bind, console_error, emit, ret.
    eexists _, _. split; [reflexivity|]. exists [], 0, 0. project.
    rewrite ?app_nil_r. repeat split; auto; try discriminate.
Qed.

Lemma checker_run_idle (cards : list Card) (w w' : World) :
  chat_requests (trace w') = chat_requests (trace w) ->
  delays (trace w') = delays (trace w) ->
  move_requests (trace w') = move_requests (trace w) ->
  moved_ids (trace w') = moved_ids (trace w) ->
  unread w' = unread w -> board w' = board w ->
  checker_run env cards w w' [] [] [].
Proof.
  intros Hc Hd Hr Hi Hu Hb. unfold checker_run. cbn. rewrite ?app_nil_r, Hb.
  repeat split; auto; try apply subseq_nil_l; try lia; try tauto.
Qed.

(** All the cards, with the client set as [main] sets it. *)
Lemma process_cards_summary (cards : list Card) (L : Locals) (w : World) :
  exists L' w' urls tried moved,
    process_cards svc env true cards L w = (Ok L', w') /\
    checker_run env cards w w' urls tried moved /\
    cardsMoved L' = cardsMoved L + List.length moved /\
    deletedJobNames L' = (deletedJobNames L ++ map card_name moved)%list.
Proof.
  revert L w. induction cards as [|card cards IH]; intros L w.
  - exists L, w, [], [], []. cbn. rewrite !app_nil_r, Nat.add_0_r.
    split; [reflexivity|]. split; [now apply checker_run_idle | now split].
  - destruct (process_card_summary card L w)
      as (L1 & w1 & Hstep & urls1 & t & m & Hmt & Htu & Hu1 & Hc1 & Hd1 & Hr1 & Hi1
          & Hn1 & Hj1 & Hun1 & Hb1 & Hb1').
    destruct (IH L1 w1)
      as (L2 & w2 & urls2 & tried2 & moved2 & Hrun
          & (Hs1 & Hs2 & Hl1 & Hl2 & Hc2 & Hd2 & Hr2 & Hi2 & Hun2 & Hb2 & Hb2')
          & Hn2 & Hj2).
    exists L2, w2, (urls1 ++ urls2)%list, (repeat card t ++ tried2)%list,
      (repeat card m ++ moved2)%list.
    cbn [process_cards]. unfold bind at 1. rewrite Hstep. split; [exact Hrun|].
    assert (Ht : t = 0 \/ t = 1) by lia.
    assert (Hm : m = 0 \/ (m = 1 /\ t = 1)) by lia.
    unfold checker_run.
    rewrite Hc2, Hd2, Hr2, Hi2, Hn2, Hj2, Hun2, Hc1, Hd1, Hr1, Hi1, Hn1, Hj1, Hun1.
    rewrite !map_app, !length_app, !repeat_app, !map_repeat, !repeat_length, <- !app_assoc.
    split; [|split; [lia | reflexivity]].
    split.
    { destruct Hm as [-> | [-> ->]]; [destruct Ht as [-> | ->]|]; cbn;
        [exact Hs1 | now apply subseq_skip | now apply subseq_keep]. }
    split.
    { destruct Ht as [-> | ->]; cbn; [now apply subseq_skip | now apply subseq_keep]. }
    split; [lia|]. split; [cbn [List.length]; lia|].
    do 5 (split; [reflexivity|]).
    split.
    + intros c Hc. rewrite in_app_iff in Hc. rewrite Hb2 by tauto. apply Hb1.
      destruct Hm as [-> | [-> _]]; [now left | right].
      intros ->. apply Hc. left. now left.
    + intros c Hc. destruct (in_dec string_dec c (map card_id moved2)) as [Hin | Hout].
      * now apply Hb2'.
      * rewrite Hb2 by exact Hout. rewrite in_app_iff in Hc.
        destruct Hc as [Hc | Hc]; [|contradiction].
        destruct Hm as [-> | [-> _]]; [destruct Hc|].
        apply repeat_spec in Hc as ->. now apply Hb1'.
Qed.

(** A notification of the checker answers, and is no status request, no
    pause and no move. *)
Lemma notification_silent (title body : string) (w : World) :
  exists w',
    sendNotification svc env title body w = (Ok tt, w') /\
    chat_requests (trace w') = chat_requests (trace w) /\
    delays (trace w') = delays (trace w) /\
    move_requests (trace w') = move_requests (trace w) /\
    moved_ids (trace w') = moved_ids (trace w) /\
    unread w' = unread w /\ board w' = board w.
Proof.
  destruct (Configuration.checker_notification svc env title body w)
    as [w' [evs [Hrun [Ht [Hatt [Hb Hu]]]]]].
  exists w'. split; [exact Hrun|]. rewrite Ht. project.
  unfold notification_attempt in Hatt.
  destruct (truthy_opt (NTFY_TOPIC env)); [destruct Hatt as [-> | [m ->]] | subst evs];
    cbn; rewrite ?app_nil_r; now repeat split.
Qed.

(** The run of [main] once the cards are fetched and there is one at
    least: the loop from the world after the fetch, then the notification
    with the summary of the loop's counters. *)
Lemma main_with_cards (cards : list Card) (w : World) :
  checker_config_missing env = false ->
  svc_list_cards svc (trace w) (text_of (TRELLO_SENT_CV_LIST_ID env)) = Success cards ->
  cards <> [] ->
  exists L' w1 urls tried moved,
    process_cards svc env true cards (mkLocals 0 [])
      (record (Call (ListCards (text_of (TRELLO_SENT_CV_LIST_ID env))) true) w)
    = (Ok L', w1) /\
    checker_run env cards w w1 urls tried moved /\
    L' = mkLocals (List.length moved) (map card_name moved) /\
    main svc env w =
    sendNotification svc env (fst (summary cards L')) (snd (summary cards L')) w1.
Proof.
  intros Hcfg Hcards Hne. unfold checker_config_missing in Hcfg.
  destruct (process_cards_summary cards (mkLocals 0 [])
              (record (Call (ListCards (text_of (TRELLO_SENT_CV_LIST_ID env))) true) w))
    as (L' & w1 & urls & tried & moved & Hrun & Hsum & Hn & Hj).
  exists L', w1, urls, tried, moved. split; [exact Hrun|].
  split; [|split].
  - unfold checker_run in *. revert Hsum. project. now rewrite ?app_nil_r.
  - destruct L' as [n names]. cbn in Hn, Hj. now subst.
  - unfold main. rewrite Hcfg.
    unfold bind at 1, try_catch, bind at 1, trello_get_cards, call. rewrite Hcards.
    cbn [ret]. destruct cards as [|card cards]; [congruence|].
    unfold bind at 1. rewrite Hrun. now destruct (summary (card :: cards) L').
Qed.

(** What a whole run of [main] does with the cards it fetched, if any. *)
Lemma main_summary (w : World) :
  exists w' cards urls tried moved,
    main svc env w = (Ok tt, w') /\
    (cards = [] \/
     svc_list_cards svc (trace w) (text_of (TRELLO_SENT_CV_LIST_ID env)) = Success cards) /\
    checker_run env cards w w' urls tried moved.
Proof.
  destruct (checker_config_missing env) eqn:Hcfg.
  - unfold checker_config_missing in Hcfg.
    destruct (notification_silent "Job Checker Error" "Required .env variables are missing."
                (record (Stderr "   (Check TRELLO_API_KEY, TRELLO_TOKEN, GROQ_API_KEY, TRELLO_SENT_CV_LIST_ID, TRELLO_JOB_DELETED_FROM_WEBSITE_LIST_ID)")
                   (record (Stderr "❌ Error: One or more required environment variables are missing.") w)))
      as [w' [Hrun [Hc [Hd [Hr [Hi [Hu Hb]]]]]]].
    exists w', [], [], [], []. split; [|split; [now left|]].
    + unfold main. rewrite Hcfg. unfold bind, console_error, emit.
      cbn [join String.concat]. exact Hrun.
    + apply checker_run_idle; try assumption;
        rewrite ?Hc, ?Hd, ?Hr, ?Hi; project; now rewrite ?app_nil_r.
  - destruct (svc_list_cards svc (trace w) (text_of (TRELLO_SENT_CV_LIST_ID env)))
      as [cards|m] eqn:Hcards.
    + destruct cards as [|card cards].
      * exists (record (Call (ListCards (text_of (TRELLO_SENT_CV_LIST_ID env))) true) w),
          [], [], [], [].
        split; [|split; [now left|]].
        -- unfold checker_config_missing in Hcfg. unfold main. rewrite Hcfg.
           unfold bind at 1, try_catch, bind at 1, trello_get_cards, call.
           now rewrite Hcards.
        -- apply checker_run_idle; try reflexivity; project; now rewrite ?app_nil_r.
      * destruct (main_with_cards (card :: cards) w Hcfg Hcards)
          as (L' & w1 & urls & tried & moved & _ & Hsum & _ & Hmain); [discriminate|].
        destruct (notification_silent (fst (summary (card :: cards) L'))
                    (snd (summary (card :: cards) L')) w1)
          as [w' [Hsend [Hc' [Hd' [Hr' [Hi' [Hu' Hb']]]]]]].
        exists w', (card :: cards), urls, tried, moved.
        split; [now rewrite Hmain|]. split; [now right|].
        unfold checker_run in *. now rewrite Hc', Hd', Hr', Hi', Hu', Hb'.
    + unfold checker_config_missing in Hcfg.
      destruct (notification_silent "Job Checker Error"
                  ("Failed to fetch Trello cards: " ++ m)
                  (record (Stderr ("❌ Error fetching Trello cards: " ++ m))
                     (record (Call (ListCards (text_of (TRELLO_SENT_CV_LIST_ID env))) false) w)))
        as [w' [Hrun [Hc [Hd [Hr [Hi [Hu Hb]]]]]]].
      exists w', [], [], [], []. split; [|split; [now left|]].
      * unfold main. rewrite Hcfg.
        unfold bind at 1, try_catch, bind at 1, trello_get_cards, call. rewrite Hcards.
        cbn [catchable]. unfold bind at 1, console_error, emit.
        cbn [message_of join String.concat]. unfold bind at 1.
        cbn [append] in Hrun |- *. now rewrite Hrun.
      * apply checker_run_idle; try assumption;
          rewrite ?Hc, ?Hd, ?Hr, ?Hi; project; now rewrite ?app_nil_r.
Qed.

(** The script ends where [main] ends, with status 0. *)
Lemma script_of_main (w w' : World) :
  main svc env w = (Ok tt, w') -> script svc env w = (Ok 0, w').
Proof. intros H. unfold script, try_catch, bind. now rewrite H. Qed.

(** X15. In a run of the Job Status Checker every card of the fetched list
    is asked to move at most once, in the order of the list, and only to the
    list of the deleted jobs (so no card id is asked twice when the ids of the
    list are distinct); the cards whose move Trello accepted end in that
    list, every other card stays in its list, no message changes its label,
    and the script ends with status 0. *)
Theorem checker_moves_each_card_once (cards : list Card) (w : World) :
  svc_list_cards svc (trace w) (text_of (TRELLO_SENT_CV_LIST_ID env)) = Success cards ->
  exists w' tried moved,
    script svc env w = (Ok 0, w') /\
    subseq moved tried /\ subseq tried cards /\
    (NoDup (map card_id cards) -> NoDup (map card_id tried)) /\
    move_requests (trace w') =
      (move_requests (trace w) ++
       map (fun c => (card_id c, text_of (TRELLO_JOB_DELETED_FROM_WEBSITE_LIST_ID env)))
         tried)%list /\
    moved_ids (trace w') = (moved_ids (trace w) ++ map card_id moved)%list /\
    unread w' = unread w /\
    (forall c, ~ In c (map card_id moved) -> board w' c = board w c) /\
    (forall c, In c (map card_id moved) ->
               board w' c = Some (text_of (TRELLO_JOB_DELETED_FROM_WEBSITE_LIST_ID env))).
Proof.
  intros Hcards.
  destruct (main_summary w)
    as (w' & cards' & urls & tried & moved & Hmain & Hfrom
        & Hs1 & Hs2 & _ & _ & _ & _ & Hr & Hi & Hu & Hb & Hb').
  assert (Hsub : subseq tried cards).
  { destruct Hfrom as [-> | Hfrom].
    - inversion Hs2. apply subseq_nil_l.
    - rewrite Hcards in Hfrom. now injection Hfrom as ->. }
  exists w', tried, moved. split; [now apply script_of_main|].
  split; [exact Hs1|]. split; [exact Hsub|]. split; [|now repeat split].
  apply subseq_NoDup. now apply subseq_map.
Qed.

(** X16. The run pauses exactly once, for five seconds, per status request
    sent to the AI agent, and not otherwise; at most one status request is
    sent per card of the fetched list. *)
Theorem checker_paces_requests (w : World) :
  exists urls,
    chat_requests (trace (snd (script svc env w))) =
      (chat_requests (trace w) ++ map userPrompt urls)%list /\
    delays (trace (snd (script svc env w))) =
      (delays (trace w) ++ repeat 5000 (List.length urls))%list /\
    (forall cards,
       svc_list_cards svc (trace w) (text_of (TRELLO_SENT_CV_LIST_ID env)) = Success cards ->
       List.length urls <= List.length cards).
Proof.
  destruct (main_summary w)
    as (w' & cards' & urls & tried & moved & Hmain & Hfrom
        & _ & _ & _ & Hl & Hc & Hd & _).
  exists urls. rewrite (script_of_main w w' Hmain). cbn [snd].
  split; [exact Hc|]. split; [exact Hd|].
  intros cards Hcards. destruct Hfrom as [-> | Hfrom].
  - cbn in Hl. lia.
  - rewrite Hcards in Hfrom. now injection Hfrom as ->.
Qed.

(** X17. The final notification of a run over a non-empty list reports the
    cards whose move Trello accepted, and only those: its counter is their
    number and its list their names, in the order of the fetched list. *)
Theorem checker_reports_moved_cards (card : Card) (rest : list Card) (w : World) :
  checker_config_missing env = false ->
  svc_list_cards svc (trace w) (text_of (TRELLO_SENT_CV_LIST_ID env))
  = Success (card :: rest) ->
  exists w1 w' moved,
    subseq moved (card :: rest) /\
    moved_ids (trace w1) = (moved_ids (trace w) ++ map card_id moved)%list /\
    sendNotification svc env
      (fst (summary (card :: rest) (mkLocals (List.length moved) (map card_name moved))))
      (snd (summary (card :: rest) (mkLocals (List.length moved) (map card_name moved))))
      w1 = (Ok tt, w') /\
    moved_ids (trace w') = moved_ids (trace w1) /\
    script svc env w = (Ok 0, w').
Proof.
  intros Hcfg Hcards.
  destruct (main_with_cards (card :: rest) w Hcfg Hcards)
    as (L' & w1 & urls & tried & moved & _ & Hsum & -> & Hmain); [discriminate|].
  destruct Hsum as (Hs1 & Hs2 & _ & _ & _ & _ & _ & Hi & _).
  destruct (notification_silent
              (fst (summary (card :: rest) (mkLocals (List.length moved) (map card_name moved))))
              (snd (summary (card :: rest) (mkLocals (List.length moved) (map card_name moved))))
              w1)
    as (w' & Hsend & _ & _ & _ & Hi' & _).
  exists w1, w', moved. split; [now apply (subseq_trans moved tried)|].
  split; [exact Hi|]. split; [exact Hsend|]. split; [exact Hi'|].
  apply script_of_main. now rewrite Hmain.
Qed.


(** X19. When Trello cannot list the cards the run ends at once: an error
    line and a notification that carry the message of the failure, no other
    request, and the exit status is 0.  With an empty list the run ends after
    the listing, without a notification. *)
Theorem checker_without_cards_ends (w : World) :
  checker_config_missing env = false ->
  (forall m,
     svc_list_cards svc (trace w) (text_of (TRELLO_SENT_CV_LIST_ID env)) = Failure m ->
     exists w',
       sendNotification svc env "Job Checker Error" ("Failed to fetch Trello cards: " ++ m)
         (record (Stderr ("❌ Error fetching Trello cards: " ++ m))
            (record (Call (ListCards (text_of (TRELLO_SENT_CV_LIST_ID env))) false) w))
       = (Ok tt, w') /\
       script svc env w = (Ok 0, w')) /\
  (svc_list_cards svc (trace w) (text_of (TRELLO_SENT_CV_LIST_ID env)) = Success [] ->
   script svc env w =
   (Ok 0, record (Call (ListCards (text_of (TRELLO_SENT_CV_LIST_ID env))) true) w)).
Proof.
  intros Hcfg. unfold checker_config_missing in Hcfg. split.
  - intros m Hcards.
    destruct (notification_silent "Job Checker Error"
                ("Failed to fetch Trello cards: " ++ m)
                (record (Stderr ("❌ Error fetching Trello cards: " ++ m))
                   (record (Call (ListCards (text_of (TRELLO_SENT_CV_LIST_ID env))) false) w)))
      as [w' [Hrun _]].
    exists w'. split; [exact Hrun|]. apply script_of_main.
    unfold main. rewrite Hcfg.
    unfold bind at 1, try_catch, bind at 1, trello_get_cards, call. rewrite Hcards.
    cbn [catchable]. unfold bind at 1, console_error, emit.
    cbn [message_of join String.concat]. unfold bind at 1.
    cbn [append] in Hrun |- *. now rewrite Hrun.
  - intros Hcards. apply script_of_main. unfold main. rewrite Hcfg.
    unfold bind at 1, try_catch, bind at 1, trello_get_cards, call.
    now rewrite Hcards.
Qed.

End Loop.

Lemma card_without_link_is_skipped_witness :
  find is_link [mkAttachment true "cv.pdf"; mkAttachment false ""] = None /\
  exists w',
    process_card
      (with_attachments (Success [mkAttachment true "cv.pdf"; mkAttachment false ""])
         Samples.friendly)
      Samples.env true Samples.acme_by_domain (mkLocals 0 []) Samples.world
    = (Ok (mkLocals 0 []), w') /\
    same_remote Samples.world w' /\
    requests (trace w') = (requests (trace Samples.world) ++ [ListAttachments "c1"])%list /\
    delays (trace w') = delays (trace Samples.world).
Proof.
  split; [reflexivity|].
  apply (card_without_link_is_skipped
           (with_attachments (Success [mkAttachment true "cv.pdf"; mkAttachment false ""])
              Samples.friendly)
           Samples.env true Samples.acme_by_domain (mkLocals 0 []) Samples.world).
  intros atts Hatt. injection Hatt as <-. reflexivity.
Defined.

Lemma checker_moves_each_card_once_witness :
  svc_list_cards (Samples.services Samples.acme_reply (Success "deleted") (fun _ => Success tt))
    (trace Samples.world) "L_SENT" = Success [Samples.acme_by_domain] /\
  exists w' tried moved,
    script (Samples.services Samples.acme_reply (Success "deleted") (fun _ => Success tt))
      Samples.env Samples.world = (Ok 0, w') /\
    subseq moved tried /\ subseq tried [Samples.acme_by_domain] /\
    (NoDup (map card_id [Samples.acme_by_domain]) -> NoDup (map card_id tried)) /\
    move_requests (trace w') =
      (move_requests (trace Samples.world) ++
       map (fun c => (card_id c, "L_DELETED")) tried)%list /\
    moved_ids (trace w') = (moved_ids (trace Samples.world) ++ map card_id moved)%list /\
    unread w' = unread Samples.world /\
    (forall c, ~ In c (map card_id moved) -> board w' c = board Samples.world c) /\
    (forall c, In c (map card_id moved) -> board w' c = Some "L_DELETED").
Proof.
  split; [reflexivity|].
  exact (checker_moves_each_card_once
           (Samples.services Samples.acme_reply (Success "deleted") (fun _ => Success tt))
           Samples.env [Samples.acme_by_domain] Samples.world eq_refl).
Defined.

Lemma checker_reports_moved_cards_witness :
  checker_config_missing Samples.env = false /\
  exists w1 w' moved,
    subseq moved [Samples.acme_by_domain] /\
    moved_ids (trace w1) = (moved_ids (trace Samples.world) ++ map card_id moved)%list /\
    sendNotification
      (Samples.services Samples.acme_reply (Success "deleted") (fun _ => Success tt))
      Samples.env
      (fst (summary [Samples.acme_by_domain]
              (mkLocals (List.length moved) (map card_name moved))))
      (snd (summary [Samples.acme_by_domain]
              (mkLocals (List.length moved) (map card_name moved))))
      w1 = (Ok tt, w') /\
    moved_ids (trace w') = moved_ids (trace w1) /\
    script (Samples.services Samples.acme_reply (Success "deleted") (fun _ => Success tt))
      Samples.env Samples.world = (Ok 0, w').
Proof.
  split; [reflexivity|].
  exact (checker_reports_moved_cards
           (Samples.services Samples.acme_reply (Success "deleted") (fun _ => Success tt))
           Samples.env Samples.acme_by_domain [] Samples.world eq_refl eq_refl).
Defined.


Lemma checker_without_cards_ends_witness :
  checker_config_missing Samples.env = false /\
  svc_list_cards (Samples.with_failing_cards "503" Samples.friendly)
    (trace Samples.world) "L_SENT" = Failure "503" /\
  exists w',
    sendNotification (Samples.with_failing_cards "503" Samples.friendly) Samples.env
      "Job Checker Error" ("Failed to fetch Trello cards: " ++ "503")
      (record (Stderr ("❌ Error fetching Trello cards: " ++ "503"))
         (record (Call (ListCards "L_SENT") false) Samples.world))
    = (Ok tt, w') /\
    script (Samples.with_failing_cards "503" Samples.friendly) Samples.env Samples.world
    = (Ok 0, w').
Proof.
  split; [reflexivity|]. split; [reflexivity|].
  exact (proj1 (checker_without_cards_ends
                  (Samples.with_failing_cards "503" Samples.friendly) Samples.env
                  Samples.world eq_refl) "503" eq_refl).
Defined.

End CheckerRun.

(* ================================================================== *)
(** ** The saved token *)
(* ================================================================== *)

Module AuthFacts.

Import JS JSFacts Auth.

(** *** [split] and [join] *)

Lemma split_nonempty (sep : ascii) (s : string) : split sep s <> [].
Proof.
  destruct s as [|c s]; cbn [split]; [discriminate|].
  destruct (Ascii.eqb c sep); [discriminate|]. now destruct (split sep s).
Qed.

Lemma split_app_sep (sep : ascii) (a b : string) :
  split sep (a ++ String sep b) = (split sep a ++ split sep b)%list.
Proof.
  induction a as [|c a IH]; cbn [append split].
  - now rewrite Ascii.eqb_refl.
  - destruct (Ascii.eqb c sep); [now rewrite IH|]. rewrite IH.
    pose proof (split_nonempty sep a). now destruct (split sep a).
Qed.

Lemma split_whole (sep : ascii) (s : string) : lacks sep s = true -> split sep s = [s].
Proof.
  induction s as [|c s IH]; [reflexivity|]. cbn [lacks split]. intros H.
  apply andb_true_iff in H as [Hc Hs]. apply negb_true_iff in Hc.
  now rewrite Hc, IH.
Qed.

(** A scope without a space is found again among the pieces of the joined
    scopes, whatever the other scopes are. *)
Lemma split_join_member (s : string) (l : list string) :
  In s l -> lacks " " s = true -> In s (split " " (join " " l)).
Proof.
  intros Hin Hs. unfold join. induction l as [|x l IH]; [destruct Hin|].
  destruct l as [|y l].
  - destruct Hin as [-> | []]. cbn [String.concat]. rewrite split_whole by exact Hs.
    now left.
  - change (String.concat " " (x :: y :: l))
      with (x ++ String " " (String.concat " " (y :: l))).
    rewrite split_app_sep, in_app_iff. destruct Hin as [-> | Hin].
    + left. rewrite split_whole by exact Hs. now left.
    + right. now apply IH.
Qed.

(** *** The check of the saved scopes *)

(** The test of [authorize] on a saved document. *)
Lemma required_scopes_found (saved : list string) :
  forallb (fun scope => existsb (String.eqb scope) saved) SCOPES = true <->
  incl SCOPES saved.
Proof.
  rewrite forallb_forall. unfold incl. split; intros H s Hs.
  - apply H in Hs. apply existsb_exists in Hs as [x [Hx He]].
    apply String.eqb_eq in He. now subst.
  - apply existsb_exists. exists s. split; [now apply H | apply String.eqb_refl].
Qed.

Lemma SCOPES_plain (s : string) : In s SCOPES -> lacks " " s = true.
Proof. intros [<- | [<- | []]]; reflexivity. Qed.

Lemma lookup_app_miss (k : string) (a b : list (string * Json)) :
  lookup k a = None -> lookup k (a ++ b) = lookup k b.
Proof.
  induction a as [|[k' v] a IH]; [reflexivity|]. cbn [lookup app].
  destruct (String.eqb k k'); [discriminate | exact IH].
Qed.

Lemma lookup_field_other (k k' : string) (v : option Json) :
  String.eqb k k' = false -> lookup k (field k' v) = None.
Proof. intros H. destruct v; cbn; now rewrite ?H. Qed.

(** The scope of a saved document is the scope text of the client. *)
Lemma payload_scope (key : Json) (creds : Credentials) :
  savedScopes_of (payload key creds) = Some (split " " (scope_string (scope creds))).
Proof.
  unfold savedScopes_of, payload. cbn [app lookup String.eqb Ascii.eqb Bool.eqb].
  rewrite !lookup_app_miss by (apply lookup_field_other; reflexivity).
  reflexivity.
Qed.

Section Runs.

Variable g : Google.

(** A run over a token that passes the check. *)
Lemma authorize_reuse (d : Disk) (saved : Json) (scopes : list string) :
  token_file d = Doc saved ->
  truthy_json saved = true ->
  savedScopes_of saved = Some scopes ->
  incl SCOPES scopes ->
  authorize g d =
  match g_fromJSON g (calls d) saved with
  | Success client => (Ok client, note (FromJSON saved true) d)
  | Failure m => (Throw (Error m), note (FromJSON saved false) d)
  end.
Proof.
  intros Hfile Htruthy Hscopes Hincl. unfold authorize.
  rewrite Hfile, Hscopes, Htruthy.
  apply required_scopes_found in Hincl. now rewrite Hincl.
Qed.

(** A run over a token that fails the check without raising. *)
Lemma authorize_again (d : Disk) (saved : Json) (scopes : list string) :
  saved = match token_file d with Doc v => v | Unreadable _ => JNull end ->
  savedScopes_of saved = Some scopes ->
  truthy_json saved
  && forallb (fun scope => existsb (String.eqb scope) scopes) SCOPES = false ->
  authorize g d =
  match g_authenticate g (calls (unlink_token g d)) with
  | Failure m => (Throw (Error m), note (Authenticate false) (unlink_token g d))
  | Success client =>
      match credentials client with
      | Some creds =>
          match saveCredentials g creds (note (Authenticate true) (unlink_token g d)) with
          | (Ok _, d3) => (Ok client, d3)
          | (Throw e, d3) => (Throw e, d3)
          end
      | None => (Ok client, note (Authenticate true) (unlink_token g d))
      end
  end.
Proof.
  intros Hsaved Hscopes Hcheck. unfold authorize. rewrite <- Hsaved, Hscopes, Hcheck.
  reflexivity.
Qed.

(** What [saveCredentials] leaves when it answers. *)
Lemma saveCredentials_ok (creds : Credentials) (d d1 : Disk) :
  saveCredentials g creds d = (Ok tt, d1) ->
  exists key,
    token_file d1 = Doc (payload key creds) /\
    credentials_file d1 = credentials_file d /\
    calls d1 = (calls d ++ [WriteFile (payload key creds) true])%list.
Proof.
  unfold saveCredentials. destruct (credentials_file d) as [m|keys] eqn:Hk; [discriminate|].
  destruct (is_null keys); [discriminate|].
  destruct (client_key keys) as [key|]; [|discriminate].
  destruct (is_null key); [discriminate|].
  destruct (g_writeFile g (calls d) (payload key creds)) as [[]|m]; [|discriminate].
  intros [= <-]. exists key. split; [reflexivity|]. split; [|reflexivity].
  cbn. now rewrite Hk.
Qed.

(** X20. A saved token whose scope text lists the two required scopes,
    among others and in any order, is reused as it is: the run makes one call
    to [google.auth.fromJSON] with the saved document and answers what that
    call answers; the token file is neither deleted nor rewritten and no
    authentication is started. *)
Theorem token_with_required_scopes_is_reused (d : Disk)
    (fields : list (string * Json)) (scopes : list string) :
  token_file d = Doc (JObj fields) ->
  lookup "scope" fields = Some (JStr (join " " scopes)) ->
  incl SCOPES scopes ->
  authorize g d =
  match g_fromJSON g (calls d) (JObj fields) with
  | Success client => (Ok client, note (FromJSON (JObj fields) true) d)
  | Failure m => (Throw (Error m), note (FromJSON (JObj fields) false) d)
  end.
Proof.
  intros Hfile Hscope Hincl.
  apply (authorize_reuse d (JObj fields) (split " " (join " " scopes)));
    [exact Hfile | reflexivity | |].
  - unfold savedScopes_of. now rewrite Hscope.
  - intros s Hs. apply split_join_member; [now apply Hincl | now apply SCOPES_plain].
Qed.

(** X21. A token obtained in one run is reused by the next: when
    [authorize] answers a client whose credentials list the two required
    scopes (as an array or as a text with spaces), the token file then holds
    a document, and the next [authorize] calls [google.auth.fromJSON] on it
    and nothing else. *)
Theorem fresh_token_is_reused (d d1 : Disk) (client : Client) (creds : Credentials)
    (scopes : list string) :
  authorize g d = (Ok client, d1) ->
  credentials client = Some creds ->
  scope_string (scope creds) = join " " scopes ->
  incl SCOPES scopes ->
  exists saved,
    token_file d1 = Doc saved /\
    authorize g d1 =
    match g_fromJSON g (calls d1) saved with
    | Success client' => (Ok client', note (FromJSON saved true) d1)
    | Failure m => (Throw (Error m), note (FromJSON saved false) d1)
    end.
Proof.
  intros Hrun Hcreds Hscope Hincl. unfold authorize in Hrun.
  set (saved := match token_file d with Doc v => v | Unreadable _ => JNull end) in Hrun.
  destruct (savedScopes_of saved) as [found|] eqn:Hfound; [|discriminate].
  destruct (truthy_json saved
            && forallb (fun scope => existsb (String.eqb scope) found) SCOPES) eqn:Hcheck.
  - apply andb_true_iff in Hcheck as [Htruthy Hall].
    assert (Hfile : token_file d = Doc saved).
    { subst saved. destruct (token_file d); [discriminate | reflexivity]. }
    destruct (g_fromJSON g (calls d) saved) as [c|m]; [|discriminate].
    injection Hrun as _ <-. exists saved. split; [exact Hfile|].
    apply (authorize_reuse (note (FromJSON saved true) d) saved found);
      [exact Hfile | exact Htruthy | exact Hfound | now apply required_scopes_found].
  - destruct (g_authenticate g (calls (unlink_token g d))) as [c|m]; [|discriminate].
    destruct (credentials c) as [creds'|] eqn:Hc.
    + destruct (saveCredentials g creds' (note (Authenticate true) (unlink_token g d)))
        as [[[]|e] d3] eqn:Hsave; [|discriminate].
      injection Hrun as -> ->. rewrite Hcreds in Hc. injection Hc as <-.
      destruct (saveCredentials_ok _ _ _ Hsave) as [key [Htoken _]].
      exists (payload key creds). split; [exact Htoken|].
      apply (authorize_reuse d1 (payload key creds) (split " " (join " " scopes)));
        [exact Htoken | reflexivity | now rewrite payload_scope, Hscope |].
      intros s Hs. apply split_join_member; [now apply Hincl | now apply SCOPES_plain].
    + injection Hrun as -> _. congruence.
Qed.

(** X22. A client whose credentials carry no scope is saved with an empty
    scope text, so its token is never reused: after a first run without a
    readable token that answers such a client, the next run asks to remove the
    token and starts the authentication again. *)
Theorem scopeless_token_is_not_reused (d d1 : Disk) (m : string) (client : Client)
    (creds : Credentials) :
  token_file d = Unreadable m ->
  authorize g d = (Ok client, d1) ->
  credentials client = Some creds ->
  scope_string (scope creds) = "" ->
  (exists key, token_file d1 = Doc (payload key creds)) /\
  exists removed asked rest,
    calls (snd (authorize g d1))
    = (calls d1 ++ Unlink removed :: Authenticate asked :: rest)%list.
Proof.
  intros Hfile Hrun Hcreds Hscope.
  rewrite (authorize_again d JNull []) in Hrun;
    [| now rewrite Hfile | reflexivity | reflexivity].
  destruct (g_authenticate g (calls (unlink_token g d))) as [c|e]; [|discriminate].
  destruct (credentials c) as [creds'|] eqn:Hc.
  - destruct (saveCredentials g creds' (note (Authenticate true) (unlink_token g d)))
      as [[[]|e] d3] eqn:Hsave; [|discriminate].
    injection Hrun as -> ->. rewrite Hcreds in Hc. injection Hc as <-.
    destruct (saveCredentials_ok _ _ _ Hsave) as [key [Htoken _]].
    split; [now exists key|].
    rewrite (authorize_again d1 (payload key creds) [""]);
      [| now rewrite Htoken | now rewrite payload_scope, Hscope | reflexivity].
    assert (Hun : exists removed,
              calls (unlink_token g d1) = (calls d1 ++ [Unlink removed])%list).
    { unfold unlink_token. destruct (g_unlink g (calls d1)); eexists; reflexivity. }
    destruct Hun as [removed Hun].
    destruct (g_authenticate g (calls (unlink_token g d1))) as [c'|e].
    + destruct (credentials c') as [creds'|].
      * destruct (saveCredentials g creds' (note (Authenticate true) (unlink_token g d1)))
          as [[[]|e] d3] eqn:Hsave'.
        -- destruct (saveCredentials_ok _ _ _ Hsave') as [key' [_ [_ Hcalls]]].
           exists removed, true, [WriteFile (payload key' creds') true].
           cbn [snd]. rewrite Hcalls. cbn [note calls]. rewrite Hun.
           now rewrite <- !app_assoc.
        -- assert (Hgrow : exists rest,
                     calls d3 = (calls (note (Authenticate true) (unlink_token g d1))
                                 ++ rest)%list).
           { revert Hsave'. unfold saveCredentials.
             generalize (note (Authenticate true) (unlink_token g d1)). intros d0.
             destruct (credentials_file d0) as [m0|keys];
               [intros [= _ <-]; exists []; now rewrite app_nil_r|].
             destruct (is_null keys); [intros [= _ <-]; exists []; now rewrite app_nil_r|].
             destruct (client_key keys) as [key0|];
               [|intros [= _ <-]; exists []; now rewrite app_nil_r].
             destruct (is_null key0); [intros [= _ <-]; exists []; now rewrite app_nil_r|].
             destruct (g_writeFile g (calls d0) (payload key0 creds')) as [[]|m0];
               [discriminate | intros [= _ <-]; eexists; reflexivity]. }
           destruct Hgrow as [rest Hgrow]. exists removed, true, rest.
           cbn [snd]. rewrite Hgrow. cbn [note calls]. rewrite Hun.
           now rewrite <- !app_assoc.
      * exists removed, true, []. cbn [snd note calls]. rewrite Hun.
        now rewrite <- !app_assoc.
    + exists removed, false, []. cbn [snd note calls]. rewrite Hun.
      now rewrite <- !app_assoc.
  - injection Hrun as -> _. congruence.
Qed.

(** X23. A saved token whose scope is neither absent, [null] nor a text
    -- an array of scopes, for one -- makes [authorize] raise a TypeError:
    nothing is called, the token is not removed and no authentication is
    started. *)
Theorem malformed_scope_raises (d : Disk) (fields : list (string * Json)) (v : Json) :
  token_file d = Doc (JObj fields) ->
  lookup "scope" fields = Some v ->
  is_null v = false ->
  (forall s, v <> JStr s) ->
  authorize g d = (Throw TypeError, d).
Proof.
  intros Hfile Hscope Hnull Htext. unfold authorize. rewrite Hfile.
  unfold savedScopes_of. rewrite Hscope.
  destruct v; try reflexivity; [discriminate | now destruct (Htext s)].
Qed.

End Runs.

Lemma token_with_required_scopes_is_reused_witness :
  incl SCOPES AuthSamples.granted /\
  authorize (AuthSamples.google AuthSamples.granted_client)
    (mkDisk (Doc (JObj (AuthSamples.saved_token (JStr (join " " AuthSamples.granted)))))
       (Doc AuthSamples.keys) [])
  = (Ok AuthSamples.granted_client,
     note (FromJSON (JObj (AuthSamples.saved_token (JStr (join " " AuthSamples.granted)))) true)
       (mkDisk (Doc (JObj (AuthSamples.saved_token (JStr (join " " AuthSamples.granted)))))
          (Doc AuthSamples.keys) [])).
Proof.
  assert (Hincl : incl SCOPES AuthSamples.granted).
  { intros s [<- | [<- | []]]; cbn; tauto. }
  split; [exact Hincl|].
  exact (token_with_required_scopes_is_reused
           (AuthSamples.google AuthSamples.granted_client)
           (mkDisk (Doc (JObj (AuthSamples.saved_token (JStr (join " " AuthSamples.granted)))))
              (Doc AuthSamples.keys) [])
           (AuthSamples.saved_token (JStr (join " " AuthSamples.granted)))
           AuthSamples.granted eq_refl eq_refl Hincl).
Defined.

Lemma fresh_token_is_reused_witness :
  incl SCOPES AuthSamples.granted /\
  exists saved,
    token_file (snd (authorize (AuthSamples.google AuthSamples.granted_client)
                       AuthSamples.first_run)) = Doc saved /\
    authorize (AuthSamples.google AuthSamples.granted_client)
      (snd (authorize (AuthSamples.google AuthSamples.granted_client) AuthSamples.first_run))
    = match g_fromJSON (AuthSamples.google AuthSamples.granted_client)
              (calls (snd (authorize (AuthSamples.google AuthSamples.granted_client)
                             AuthSamples.first_run))) saved with
      | Success client' =>
          (Ok client',
           note (FromJSON saved true)
             (snd (authorize (AuthSamples.google AuthSamples.granted_client)
                     AuthSamples.first_run)))
      | Failure m =>
          (Throw (Error m),
           note (FromJSON saved false)
             (snd (authorize (AuthSamples.google AuthSamples.granted_client)
                     AuthSamples.first_run)))
      end.
Proof.
  assert (Hincl : incl SCOPES AuthSamples.granted).
  { intros s [<- | [<- | []]]; cbn; tauto. }
  split; [exact Hincl|].
  exact (fresh_token_is_reused (AuthSamples.google AuthSamples.granted_client)
           AuthSamples.first_run
           (snd (authorize (AuthSamples.google AuthSamples.granted_client)
                   AuthSamples.first_run))
           AuthSamples.granted_client
           (mkCredentials (ScopeArray AuthSamples.granted) (Some (JStr "r1")))
           AuthSamples.granted eq_refl eq_refl eq_refl Hincl).
Defined.

Lemma scopeless_token_is_not_reused_witness :
  token_file AuthSamples.first_run = Unreadable "ENOENT" /\
  (exists key,
     token_file (snd (authorize (AuthSamples.google AuthSamples.scopeless_client)
                        AuthSamples.first_run))
     = Doc (payload key (mkCredentials ScopeOther (Some (JStr "r1"))))) /\
  exists removed asked rest,
    calls (snd (authorize (AuthSamples.google AuthSamples.scopeless_client)
                  (snd (authorize (AuthSamples.google AuthSamples.scopeless_client)
                          AuthSamples.first_run))))
    = (calls (snd (authorize (AuthSamples.google AuthSamples.scopeless_client)
                     AuthSamples.first_run))
       ++ Unlink removed :: Authenticate asked :: rest)%list.
Proof.
  split; [reflexivity|].
  exact (scopeless_token_is_not_reused (AuthSamples.google AuthSamples.scopeless_client)
           AuthSamples.first_run
           (snd (authorize (AuthSamples.google AuthSamples.scopeless_client)
                   AuthSamples.first_run))
           "ENOENT" AuthSamples.scopeless_client
           (mkCredentials ScopeOther (Some (JStr "r1")))
           eq_refl eq_refl eq_refl eq_refl).
Defined.

Lemma malformed_scope_raises_witness :
  lookup "scope" (AuthSamples.saved_token (JArr [JStr "openid"])) = Some (JArr [JStr "openid"]) /\
  authorize (AuthSamples.google AuthSamples.granted_client)
    (mkDisk (Doc (JObj (AuthSamples.saved_token (JArr [JStr "openid"])))) (Doc AuthSamples.keys) [])
  = (Throw TypeError,
     mkDisk (Doc (JObj (AuthSamples.saved_token (JArr [JStr "openid"])))) (Doc AuthSamples.keys) []).
Proof.
  split; [reflexivity|].
  apply (malformed_scope_raises (AuthSamples.google AuthSamples.granted_client)
           (mkDisk (Doc (JObj (AuthSamples.saved_token (JArr [JStr "openid"]))))
              (Doc AuthSamples.keys) [])
           (AuthSamples.saved_token (JArr [JStr "openid"])) (JArr [JStr "openid"])
           eq_refl eq_refl eq_refl).
  intros s. discriminate.
Defined.

End AuthFacts.

(* ================================================================== *)
(** ** The crash handler of the Reply Classifier *)
(* ================================================================== *)

Module Crash.

Import JS JSFacts EffFacts ReplyClassifier.

Section Handler.

Variable svc : Services.
Variable env : Env.

(** The handler attached to [main]: three lines on the error stream, an
    attempted notification, the exit with status 1. *)
Lemma handler_runs (groq : bool) (w wg w1 : World) (e : exn) :
  groq_init env w = (Ok groq, wg) ->
  main svc env groq wg = (Throw e, w1) ->
  catchable e = true ->
  exists evs w',
    script svc env w = (Ok 1, w') /\
    trace w' =
      (trace w1 ++
       [Stderr (nl ++ "--- Critical Error ---");
        Stderr ("An unhandled error occurred: " ++ message_of svc e);
        Stderr (engine_stack svc e)] ++ evs ++ [Exit 1])%list /\
    notification_attempt env "Trello Bot: CRITICAL ERROR"
      ("Script crashed: " ++ message_of svc e) "robot" evs /\
    same_remote w1 w'.
Proof.
  intros Hinit Hmain Hcatch.
  destruct (Configuration.reply_notification svc env "Trello Bot: CRITICAL ERROR"
              ("Script crashed: " ++ message_of svc e)
              (record (Stderr (engine_stack svc e))
                 (record (Stderr ("An unhandled error occurred: " ++ message_of svc e))
                    (record (Stderr (nl ++ "--- Critical Error ---")) w1))))
    as [w2 [evs [Hsend [Htr [Hatt [Hb Hu]]]]]].
  exists evs, (record (Exit 1) w2). split; [|split; [|split; [exact Hatt|]]].
  - unfold script, bind at 1. rewrite Hinit. unfold try_catch, bind at 1.
    rewrite Hmain, Hcatch. unfold bind at 1, console_error, emit.
    cbn [join String.concat]. unfold bind at 1, bind at 1. rewrite ?append_assoc.
    cbn [append] in Hsend |- *. unfold bind at 1. rewrite Hsend. reflexivity.
  - cbn [record trace]. rewrite Htr. cbn [record trace].
    now rewrite <- !app_assoc.
  - split; [exact Hb | exact Hu].
Qed.

(** X24. Whenever [main] raises an error that [catch] sees, the handler reports it and ends
    the process with status 1: three lines on the error stream, the second
    with the message of the error, one attempted notification titled
    CRITICAL ERROR, then the exit; the handler moves no card and changes no
    label. *)
Theorem crash_is_reported (groq : bool) (w wg w1 : World) (e : exn) :
  groq_init env w = (Ok groq, wg) ->
  main svc env groq wg = (Throw e, w1) ->
  catchable e = true ->
  exists evs w',
    script svc env w = (Ok 1, w') /\
    trace w' =
      (trace w1 ++
       [Stderr (nl ++ "--- Critical Error ---");
        Stderr ("An unhandled error occurred: " ++ message_of svc e);
        Stderr (engine_stack svc e)] ++ evs ++ [Exit 1])%list /\
    notification_attempt env "Trello Bot: CRITICAL ERROR"
      ("Script crashed: " ++ message_of svc e) "robot" evs /\
    same_remote w1 w'.
Proof. apply handler_runs. Qed.

(** X25. MY_EMAIL is not among the values checked when the run starts:
    without it the run goes on until the first message that can be fetched,
    where reading the address raises a TypeError.  The run then ends with
    status 1 after the four requests made so far: nothing is matched,
    classified or moved, and the other messages are not fetched. *)
Theorem missing_recipient_ends_run (groq : bool) (w wg : World) (cards : list Card)
    (messageId : string) (rest : list string) (msg : Message) :
  MY_EMAIL env = None ->
  reply_config_missing env = false ->
  groq_init env w = (Ok groq, wg) ->
  svc_authorize svc (trace wg) = Success tt ->
  svc_list_cards svc (trace (record (Call Authorize true) wg))
    (text_of (TRELLO_SENT_CV_LIST_ID env)) = Success cards ->
  svc_list_messages svc
    (trace (record (Call (ListCards (text_of (TRELLO_SENT_CV_LIST_ID env))) true)
              (record (Call Authorize true) wg))) = Success (messageId :: rest) ->
  svc_get_message svc
    (trace (record (Call ListMessages true)
              (record (Call (ListCards (text_of (TRELLO_SENT_CV_LIST_ID env))) true)
                 (record (Call Authorize true) wg)))) messageId = Success msg ->
  exists evs w',
    script svc env w = (Ok 1, w') /\
    trace w' =
      (trace wg ++
       [Call Authorize true;
        Call (ListCards (text_of (TRELLO_SENT_CV_LIST_ID env))) true;
        Call ListMessages true;
        Call (GetMessage messageId) true;
        Stderr (nl ++ "--- Critical Error ---");
        Stderr ("An unhandled error occurred: " ++ engine_message svc TypeError);
        Stderr (engine_stack svc TypeError)] ++ evs ++ [Exit 1])%list /\
    notification_attempt env "Trello Bot: CRITICAL ERROR"
      ("Script crashed: " ++ engine_message svc TypeError) "robot" evs /\
    same_remote wg w'.
Proof.
  intros Hme Hcfg Hinit Hauth Hcards Hlist Hget. unfold reply_config_missing in Hcfg.
  assert (Hmain : main svc env groq wg =
    (Throw TypeError,
     record (Call (GetMessage messageId) true)
       (record (Call ListMessages true)
          (record (Call (ListCards (text_of (TRELLO_SENT_CV_LIST_ID env))) true)
             (record (Call Authorize true) wg))))).
  { unfold main, bind at 1, try_catch, bind at 1, authorize, call.
    rewrite Hauth. cbn [ret negb]. rewrite Hcfg.
    unfold bind at 1, bind at 1, trello_get_cards, call. rewrite Hcards. cbn [ret].
    unfold bind at 1, bind at 1, gmail_list_unread, call. rewrite Hlist. cbn [ret].
    unfold bind at 1. cbn [process_messages]. unfold bind at 1.
    unfold process_message, bind at 1, try_catch, bind at 1, gmail_get, call.
    rewrite Hget. cbn [ret]. unfold bind at 1. now rewrite Hme. }
  destruct (handler_runs groq w wg _ TypeError Hinit Hmain eq_refl)
    as [evs [w' [Hrun [Htr [Hatt [Hb Hu]]]]]].
  exists evs, w'. split; [exact Hrun|]. split; [|split; [exact Hatt | now split]].
  rewrite Htr. cbn [record trace]. now rewrite <- !app_assoc.
Qed.

End Handler.

Lemma crash_is_reported_witness :
  exists evs w',
    script Samples.friendly Samples.env_without_recipient Samples.world = (Ok 1, w') /\
    trace w' =
      (trace (record (Call (GetMessage "m1") true)
                (record (Call ListMessages true)
                   (record (Call (ListCards "L_SENT") true)
                      (record (Call Authorize true) Samples.world)))) ++
       [Stderr (nl ++ "--- Critical Error ---");
        Stderr ("An unhandled error occurred: " ++ message_of Samples.friendly TypeError);
        Stderr (engine_stack Samples.friendly TypeError)] ++ evs ++ [Exit 1])%list /\
    notification_attempt Samples.env_without_recipient "Trello Bot: CRITICAL ERROR"
      ("Script crashed: " ++ message_of Samples.friendly TypeError) "robot" evs /\
    same_remote
      (record (Call (GetMessage "m1") true)
         (record (Call ListMessages true)
            (record (Call (ListCards "L_SENT") true)
               (record (Call Authorize true) Samples.world)))) w'.
Proof.
  exact (crash_is_reported Samples.friendly Samples.env_without_recipient true
           Samples.world Samples.world
           (record (Call (GetMessage "m1") true)
              (record (Call ListMessages true)
                 (record (Call (ListCards "L_SENT") true)
                    (record (Call Authorize true) Samples.world))))
           TypeError eq_refl eq_refl eq_refl).
Defined.

Lemma missing_recipient_ends_run_witness :
  MY_EMAIL Samples.env_without_recipient = None /\
  reply_config_missing Samples.env_without_recipient = false /\
  exists evs w',
    script Samples.friendly Samples.env_without_recipient Samples.world = (Ok 1, w') /\
    trace w' =
      (trace Samples.world ++
       [Call Authorize true; Call (ListCards "L_SENT") true; Call ListMessages true;
        Call (GetMessage "m1") true;
        Stderr (nl ++ "--- Critical Error ---");
        Stderr ("An unhandled error occurred: " ++ engine_message Samples.friendly TypeError);
        Stderr (engine_stack Samples.friendly TypeError)] ++ evs ++ [Exit 1])%list /\
    notification_attempt Samples.env_without_recipient "Trello Bot: CRITICAL ERROR"
      ("Script crashed: " ++ engine_message Samples.friendly TypeError) "robot" evs /\
    same_remote Samples.world w'.
Proof.
  split; [reflexivity|]. split; [reflexivity|].
  exact (missing_recipient_ends_run Samples.friendly Samples.env_without_recipient true
           Samples.world Samples.world [Samples.acme_by_domain] "m1" ["m2"]
           Samples.acme_reply eq_refl eq_refl eq_refl eq_refl eq_refl eq_refl eq_refl).
Defined.

End Crash.

(* ================================================================== *)
(** ** A reply that moves its card *)
(* ================================================================== *)

Module ReplyPath.

Import JS JSFacts EffFacts Quiet ReplyClassifier.

Section Path.

Variable svc : Services.
Variable env : Env.

(** X26. A reply addressed to the configured recipient, matched to a card
    and given a label that has a list, moves the card when Trello accepts:
    the card is then in that list and every other card where it was, it
    leaves the candidates, and one entry with its name, the list and the
    subject joins the log.  The message loses its UNREAD label only if Gmail
    accepts the change; when Gmail refuses, the labels stay as they were and
    the move, the log and the counters stand all the same. *)
Theorem matched_reply_moves_card (groq : bool) (messageId me : string) (msg : Message)
    (card : Card) (method label : string) (L : Locals) (w w2 : World) :
  svc_get_message svc (trace w) messageId = Success msg ->
  MY_EMAIL env = Some me ->
  includes (toLowerCase (header_value "to" (headers msg) "")) (toLowerCase me) = true ->
  match_card (threadId msg) (sender_domain msg) (trelloCards L) = Ok (Some (card, method)) ->
  classifyEmailWithAI svc groq (header_value "subject" (headers msg) "No Subject")
    (snippet msg) (record (Call (GetMessage messageId) true) w) = (Ok label, w2) ->
  truthy_opt (fst (route env label)) = true ->
  svc_move_card svc (trace w2) (card_id card) (text_of (fst (route env label))) = Success tt ->
  exists w',
    process_message svc env groq messageId L w =
    (Ok (mkLocals
           (filter (fun c => negb (String.eqb (card_id c) (card_id card))) (trelloCards L))
           (movedCardsLog L ++
            [mkLogEntry (card_name card) (snd (route env label))
               (header_value "subject" (headers msg) "No Subject")])%list
           (cardsFailed L)), w') /\
    board w' (card_id card) = Some (text_of (fst (route env label))) /\
    (forall c, c <> card_id card -> board w' c = board w c) /\
    (forall m, m <> messageId -> unread w' m = unread w m) /\
    (svc_mark_read svc
       (trace w2 ++ [Call (MoveCard (card_id card) (text_of (fst (route env label)))) true])
       messageId = Success tt ->
     unread w' messageId = false) /\
    (forall m,
       svc_mark_read svc
         (trace w2 ++ [Call (MoveCard (card_id card) (text_of (fst (route env label)))) true])
         messageId = Failure m ->
       unread w' = unread w).
Proof.
  intros Hget Hme Hto Hmatch Hclass Htarget Hmove.
  destruct (classify_quiet svc groq _ _ _ _ _ Hclass) as [Hb [Hu _]].
  cbn [record board unread] in Hb, Hu.
  set (w3 := set_list (card_id card) (text_of (fst (route env label)))
               (record (Call (MoveCard (card_id card) (text_of (fst (route env label)))) true)
                  w2)).
  exists (snd (markEmailAsRead svc messageId w3)). split.
  - unfold process_message, bind at 1, try_catch, bind at 1, gmail_get, call.
    rewrite Hget. cbn [ret]. unfold bind at 1. rewrite Hme. cbn [ret]. rewrite Hto.
    cbn [negb]. unfold bind at 1, lift. fold (sender_domain msg). rewrite Hmatch.
    unfold bind at 1. rewrite Hclass.
    rewrite (ReplyBook.move_matched_exact svc env). now rewrite Htarget, Hmove.
  - destruct (ReplyBook.markEmailAsRead_frame svc messageId w3) as [Hb3 [Hu3 _]].
    rewrite Hb3. split; [|split; [|split; [|split]]].
    + subst w3. cbn [set_list board]. now rewrite String.eqb_refl.
    + intros c Hc. subst w3. cbn [set_list record board].
      apply String.eqb_neq in Hc. now rewrite Hc, Hb.
    + intros m Hm. rewrite (Hu3 m Hm). subst w3. cbn [set_list record unread].
      now rewrite Hu.
    + intros Hmark. unfold markEmailAsRead, try_catch, gmail_remove_unread, call.
      subst w3. cbn [set_list record trace]. rewrite Hmark.
      cbn [snd clear_unread unread]. now rewrite String.eqb_refl.
    + intros m Hmark. unfold markEmailAsRead, try_catch, gmail_remove_unread, call.
      subst w3. cbn [set_list record trace]. rewrite Hmark.
      cbn [catchable console_error emit snd record unread]. exact Hu.
Qed.

End Path.

Lemma matched_reply_moves_card_witness :
  includes (toLowerCase (header_value "to" (headers Samples.acme_reply) ""))
    (toLowerCase "me@x.com") = true /\
  match_card (threadId Samples.acme_reply) (sender_domain Samples.acme_reply)
    [Samples.acme_by_domain] = Ok (Some (Samples.acme_by_domain, "Domain")) /\
  truthy_opt (fst (route Samples.env "REJECTION")) = true /\
  exists w',
    process_message Samples.friendly Samples.env true "m1"
      (mkLocals [Samples.acme_by_domain] [] 0) Samples.world =
    (Ok (mkLocals [] [mkLogEntry "Acme" "Dropped Initial" "Re: your application"] 0), w') /\
    board w' "c1" = Some "L_DROPPED" /\
    (forall c, c <> "c1" -> board w' c = board Samples.world c) /\
    (forall m, m <> "m1" -> unread w' m = unread Samples.world m) /\
    (svc_mark_read Samples.friendly
       (trace (record
                 (Call (ChatCompletion aiModelName systemPrompt
                          (userPrompt "Re: your application" "We regret to inform you") false)
                    true)
                 (record (Call (GetMessage "m1") true) Samples.world))
        ++ [Call (MoveCard "c1" "L_DROPPED") true]) "m1" = Success tt ->
     unread w' "m1" = false) /\
    (forall m,
       svc_mark_read Samples.friendly
         (trace (record
                   (Call (ChatCompletion aiModelName systemPrompt
                            (userPrompt "Re: your application" "We regret to inform you")
                            false) true)
                   (record (Call (GetMessage "m1") true) Samples.world))
          ++ [Call (MoveCard "c1" "L_DROPPED") true]) "m1" = Failure m ->
       unread w' = unread Samples.world).
Proof.
  split; [reflexivity|]. split; [reflexivity|]. split; [reflexivity|].
  exact (matched_reply_moves_card Samples.friendly Samples.env true "m1" "me@x.com"
           Samples.acme_reply Samples.acme_by_domain "Domain" "REJECTION"
           (mkLocals [Samples.acme_by_domain] [] 0) Samples.world
           (record
              (Call (ChatCompletion aiModelName systemPrompt
                       (userPrompt "Re: your application" "We regret to inform you") false)
                 true)
              (record (Call (GetMessage "m1") true) Samples.world))
           eq_refl eq_refl eq_refl eq_refl eq_refl eq_refl eq_refl).
Defined.

End ReplyPath.

(* ================================================================== *)
(** ** Move attempts, message by message *)
(* ================================================================== *)

Module Attempts.

Import JS JSFacts EffFacts Quiet ReplyClassifier.

Section Steps.

Variable svc : Services.
Variable env : Env.

(** A message that is fetched, addressed to the recipient and matched to a
    card reaches the move block with the label of its classification. *)
Lemma process_message_matched (groq : bool) (messageId me : string) (msg : Message)
    (card : Card) (method label : string) (L : Locals) (w w2 : World) :
  svc_get_message svc (trace w) messageId = Success msg ->
  MY_EMAIL env = Some me ->
  includes (toLowerCase (header_value "to" (headers msg) "")) (toLowerCase me) = true ->
  match_card (threadId msg) (sender_domain msg) (trelloCards L) = Ok (Some (card, method)) ->
  classifyEmailWithAI svc groq (header_value "subject" (headers msg) "No Subject")
    (snippet msg) (record (Call (GetMessage messageId) true) w) = (Ok label, w2) ->
  process_message svc env groq messageId L w =
  move_matched svc env messageId (header_value "subject" (headers msg) "No Subject")
    card label L w2 /\
  moves (trace w2) = moves (trace w) /\ board w2 = board w /\ unread w2 = unread w.
Proof.
  intros Hget Hme Hto Hmatch Hclass. split.
  - unfold process_message, bind at 1, try_catch, bind at 1, gmail_get, call.
    rewrite Hget. cbn [ret]. unfold bind at 1. rewrite Hme. cbn [ret]. rewrite Hto.
    cbn [negb]. unfold bind at 1, lift. fold (sender_domain msg). rewrite Hmatch.
    unfold bind at 1. now rewrite Hclass.
  - pose proof (classify_quiet svc groq _ _ _ _ _ Hclass) as Hq.
    pose proof (quiet_same_moves _ _ Hq) as Hm. destruct Hq as [Hb [Hu _]].
    unfold same_moves in Hm. rewrite Hm, moves_record. cbn [moves].
    now rewrite app_nil_r.
Qed.

End Steps.

(** C6, as the code has it.  One message requests at most one move; in the
    whole run no move is requested for a card after a successful move of it;
    a move that Trello refuses leaves the card among the candidates, counts
    one failure and changes no list and no label, so the message stays
    unread; and a message that matches a candidate card and has a label with
    a list always requests the move of that card -- also of a card whose
    move was refused before. *)
Theorem one_attempt_per_message (svc : Services) (env : Env) :
  (forall groq messageId L w r w',
      process_message svc env groq messageId L w = (r, w') ->
      exists new,
        move_attempts (trace w') = (move_attempts (trace w) ++ new)%list /\
        List.length new <= 1) /\
  (forall b u before cardId after,
      moves (trace (snd (script svc env (mkWorld b u []))))
      = (before ++ (cardId, true) :: after)%list ->
      ~ In cardId (map fst after)) /\
  (forall groq messageId me msg card method label L w w2 m,
      svc_get_message svc (trace w) messageId = Success msg ->
      MY_EMAIL env = Some me ->
      includes (toLowerCase (header_value "to" (headers msg) "")) (toLowerCase me) = true ->
      match_card (threadId msg) (sender_domain msg) (trelloCards L)
      = Ok (Some (card, method)) ->
      classifyEmailWithAI svc groq (header_value "subject" (headers msg) "No Subject")
        (snippet msg) (record (Call (GetMessage messageId) true) w) = (Ok label, w2) ->
      truthy_opt (fst (route env label)) = true ->
      svc_move_card svc (trace w2) (card_id card) (text_of (fst (route env label)))
      = Failure m ->
      exists w',
        process_message svc env groq messageId L w =
        (Ok (mkLocals (trelloCards L) (movedCardsLog L) (S (cardsFailed L))), w') /\
        moves (trace w') = (moves (trace w) ++ [(card_id card, false)])%list /\
        board w' = board w /\ unread w' = unread w) /\
  (forall groq messageId me msg card method label L w w2,
      svc_get_message svc (trace w) messageId = Success msg ->
      MY_EMAIL env = Some me ->
      includes (toLowerCase (header_value "to" (headers msg) "")) (toLowerCase me) = true ->
      match_card (threadId msg) (sender_domain msg) (trelloCards L)
      = Ok (Some (card, method)) ->
      classifyEmailWithAI svc groq (header_value "subject" (headers msg) "No Subject")
        (snippet msg) (record (Call (GetMessage messageId) true) w) = (Ok label, w2) ->
      truthy_opt (fst (route env label)) = true ->
      exists ok,
        moves (trace (snd (process_message svc env groq messageId L w)))
        = (moves (trace w) ++ [(card_id card, ok)])%list).
Proof.
  split; [|split; [|split]].
  - intros groq messageId L w r w' H. apply ReplyStep.process_message_effect in H.
    unfold move_attempts.
    destruct H as [[Hs _] | [card [_ Heff]]].
    + exists []. unfold same_moves in Hs. rewrite Hs, app_nil_r.
      split; [reflexivity | cbn; lia].
    + destruct Heff as [r0 w0 Hs _ | L0 w0 Hm _ | L0 w0 Hm _].
      * exists []. unfold same_moves in Hs. rewrite Hs, app_nil_r.
        split; [reflexivity | cbn; lia].
      * exists [card_id card]. rewrite Hm, map_app. split; [reflexivity | cbn; lia].
      * exists [card_id card]. rewrite Hm, map_app. split; [reflexivity | cbn; lia].
  - intros b u before cardId after H. apply (ReplyRun.settled_split before).
    rewrite <- H. now apply ReplyRun.script_settled.
  - intros groq messageId me msg card method label L w w2 m
      Hget Hme Hto Hmatch Hclass Htarget Hmove.
    destruct (process_message_matched svc env groq messageId me msg card method label
                L w w2 Hget Hme Hto Hmatch Hclass) as [Hstep [Hm [Hb Hu]]].
    rewrite Hstep, ReplyBook.move_matched_exact, Htarget, Hmove.
    eexists. split; [reflexivity|]. cbn [record trace board unread].
    rewrite <- app_assoc, moves_app, Hm. cbn [moves app]. now repeat split.
  - intros groq messageId me msg card method label L w w2
      Hget Hme Hto Hmatch Hclass Htarget.
    destruct (process_message_matched svc env groq messageId me msg card method label
                L w w2 Hget Hme Hto Hmatch Hclass) as [Hstep [Hm _]].
    rewrite Hstep, ReplyBook.move_matched_exact, Htarget.
    destruct (svc_move_card svc (trace w2) (card_id card) (text_of (fst (route env label))))
      as [[]|m]; cbn [snd].
    + exists true.
      destruct (ReplyBook.markEmailAsRead_frame svc messageId
                  (set_list (card_id card) (text_of (fst (route env label)))
                     (record (Call (MoveCard (card_id card) (text_of (fst (route env label))))
                                true) w2))) as [_ [_ [Hmv _]]].
      rewrite Hmv. cbn [set_list record trace]. rewrite moves_app, Hm. reflexivity.
    + exists false. cbn [record trace].
      rewrite <- app_assoc, moves_app, Hm. reflexivity.
Qed.

Lemma one_attempt_per_message_witness :
  (moves (trace (snd (script Samples.friendly Samples.env Samples.world)))
   = ([] ++ ("c1", true) :: [])%list /\
   ~ In "c1" (map fst ([] : list (string * bool)))) /\
  (exists w',
     process_message
       (Samples.services Samples.acme_reply (Success "REJECTION")
          (fun _ => Failure "429 Too Many Requests"))
       Samples.env true "m1" (mkLocals [Samples.acme_by_domain] [] 0) Samples.world =
     (Ok (mkLocals [Samples.acme_by_domain] [] 1), w') /\
     moves (trace w') = (moves (trace Samples.world) ++ [("c1", false)])%list /\
     board w' = board Samples.world /\ unread w' = unread Samples.world) /\
  (exists ok,
     moves (trace (snd (process_message
                          (Samples.services Samples.acme_reply (Success "REJECTION")
                             (fun _ => Failure "429 Too Many Requests"))
                          Samples.env true "m2" (mkLocals [Samples.acme_by_domain] [] 1)
                          (snd (process_message
                                  (Samples.services Samples.acme_reply (Success "REJECTION")
                                     (fun _ => Failure "429 Too Many Requests"))
                                  Samples.env true "m1"
                                  (mkLocals [Samples.acme_by_domain] [] 0) Samples.world)))))
     = (moves (trace (snd (process_message
                             (Samples.services Samples.acme_reply (Success "REJECTION")
                                (fun _ => Failure "429 Too Many Requests"))
                             Samples.env true "m1"
                             (mkLocals [Samples.acme_by_domain] [] 0) Samples.world)))
        ++ [("c1", ok)])%list).
Proof.
  split; [|split].
  - split; [reflexivity|].
    exact (proj1 (proj2 (one_attempt_per_message Samples.friendly Samples.env))
             (board Samples.world) (unread Samples.world) [] "c1" [] eq_refl).
  - exact (proj1 (proj2 (proj2 (one_attempt_per_message
                                  (Samples.services Samples.acme_reply (Success "REJECTION")
                                     (fun _ => Failure "429 Too Many Requests"))
                                  Samples.env)))
             true "m1" "me@x.com" Samples.acme_reply Samples.acme_by_domain "Domain"
             "REJECTION" (mkLocals [Samples.acme_by_domain] [] 0) Samples.world
             (record
                (Call (ChatCompletion aiModelName systemPrompt
                         (userPrompt "Re: your application" "We regret to inform you") false)
                   true)
                (record (Call (GetMessage "m1") true) Samples.world))
             "429 Too Many Requests"
             eq_refl eq_refl eq_refl eq_refl eq_refl eq_refl eq_refl).
  - exact (proj2 (proj2 (proj2 (one_attempt_per_message
                                  (Samples.services Samples.acme_reply (Success "REJECTION")
                                     (fun _ => Failure "429 Too Many Requests"))
                                  Samples.env)))
             true "m2" "me@x.com" Samples.acme_reply Samples.acme_by_domain "Domain"
             "REJECTION" (mkLocals [Samples.acme_by_domain] [] 1)
             (snd (process_message
                     (Samples.services Samples.acme_reply (Success "REJECTION")
                        (fun _ => Failure "429 Too Many Requests"))
                     Samples.env true "m1"
                     (mkLocals [Samples.acme_by_domain] [] 0) Samples.world))
             _ eq_refl eq_refl eq_refl eq_refl eq_refl eq_refl).
Defined.

End Attempts.

(* ================================================================== *)
(** ** Runs with a value missing *)
(* ================================================================== *)

Module MissingValues.

Import JS JSFacts EffFacts Quiet ReplyClassifier.

Lemma unset_client_events_app (env : Env) (a b : list Event) :
  unset_client_events env a -> unset_client_events env b ->
  unset_client_events env (a ++ b).
Proof.
  intros [Ha1 Ha2] [Hb1 Hb2]. split.
  - now rewrite CheckerRun.chat_requests_app, Ha1, Hb1.
  - rewrite move_requests_app. apply Forall_app. now split.
Qed.

Section Calm.

Variable env : Env.

Lemma calm_refl (w : World) : calm env w w.
Proof. exists []. rewrite app_nil_r. split; [reflexivity|]. split; [reflexivity | constructor]. Qed.

Lemma calm_trans (a b c : World) : calm env a b -> calm env b c -> calm env a c.
Proof.
  intros [e1 [H1 U1]] [e2 [H2 U2]]. exists (e1 ++ e2)%list.
  split; [now rewrite H2, H1, app_assoc | now apply unset_client_events_app].
Qed.

Lemma calm_record (e : Event) (w : World) :
  unset_client_events env [e] -> calm env w (record e w).
Proof. intros H. exists [e]. now split. Qed.

Lemma emit_calm (e : Event) :
  unset_client_events env [e] -> preserves (calm env) (emit e).
Proof. intros He w o w' [= _ <-]. now apply calm_record. Qed.

Lemma console_calm (args : list string) : preserves (calm env) (console_error args).
Proof. apply emit_calm. split; [reflexivity | constructor]. Qed.

Lemma call_calm {A : Type} (r : request) (answer : list Event -> reply A) :
  unset_client_events env [Call r true] -> preserves (calm env) (call r answer).
Proof.
  intros Hr w o w' H. unfold call in H.
  destruct (answer (trace w)); injection H as _ <-; apply calm_record; [exact Hr|].
  destruct Hr as [H1 H2]. split; [exact H1 | exact H2].
Qed.

Lemma move_calm (svc : Services) (cardId : string) :
  preserves (calm env)
    (trello_move_card svc cardId (text_of (TRELLO_ESTABLISHED_CONTACT_LIST_ID env))).
Proof.
  intros w o w' H. unfold trello_move_card, call in H.
  destruct (svc_move_card svc (trace w) cardId _); injection H as _ <-;
    (eexists [_]; split; [reflexivity|]; split; [reflexivity|]);
    repeat constructor.
Qed.

Lemma mark_calm (svc : Services) (messageId : string) :
  preserves (calm env) (gmail_remove_unread svc messageId).
Proof.
  intros w o w' H. unfold gmail_remove_unread, call in H.
  destruct (svc_mark_read svc (trace w) messageId); injection H as _ <-;
    (eexists [_]; split; [reflexivity|]; split; [reflexivity | constructor]).
Qed.

Lemma lift_calm {A : Type} (o : outcome A) : preserves (calm env) (lift o).
Proof. intros w r w' [= _ <-]. apply calm_refl. Qed.

(** Splits a computation into its parts and shows that each of them is
    calm. *)
Ltac frame_calm_with known :=
  repeat first
    [ known
    | apply calm_refl
    | apply calm_trans
    | apply preserves_ret
    | apply preserves_throw
    | apply console_calm
    | apply lift_calm
    | apply move_calm
    | apply mark_calm
    | apply emit_calm; split; [reflexivity | constructor]
    | apply call_calm; split; [reflexivity | constructor]
    | apply preserves_bind
    | apply preserves_try_catch
    | apply preserves_if
    | match goal with
      | |- preserves _ (match ?x with _ => _ end) => destruct x
      | |- preserves _ (let (_, _) := ?x in _) => destruct x
      end
    | intro ].

Variable svc : Services.

Lemma notification_calm (title body : string) :
  preserves (calm env) (sendNotification svc env title body).
Proof. unfold sendNotification, ntfy_post. frame_calm_with fail. Qed.

(** Without the client the label is OTHER_REPLY, and the card goes to the
    list of the established contacts. *)
Lemma classified_move_calm (messageId subject snip : string) (card : Card) (L : Locals) :
  preserves (calm env)
    (classificationLabel <- classifyEmailWithAI svc false subject snip ;;
     move_matched svc env messageId subject card classificationLabel L).
Proof.
  change (preserves (calm env) (move_matched svc env messageId subject card "OTHER_REPLY" L)).
  unfold move_matched.
  change (route env "OTHER_REPLY")
    with (TRELLO_ESTABLISHED_CONTACT_LIST_ID env, "Established Contact").
  unfold markEmailAsRead.
  frame_calm_with fail.
Qed.

(** One message, with the client unset. *)
Lemma process_message_calm (messageId : string) (L : Locals) :
  preserves (calm env) (process_message svc env false messageId L).
Proof.
  unfold process_message, gmail_get.
  frame_calm_with ltac:(apply classified_move_calm).
Qed.

Lemma process_messages_calm (messages : list string) :
  forall L, preserves (calm env) (process_messages svc env false messages L).
Proof.
  induction messages as [|messageId rest IH]; intros L; cbn [process_messages].
  - frame_calm_with fail.
  - frame_calm_with ltac:(first [apply process_message_calm | apply IH]).
Qed.

(** The connection to Gmail: one request, then nothing but the notice of
    its failure. *)
Lemma connect_unset (w : World) (o : outcome bool) (wa : World) :
  try_catch (authorize svc ;; ret true)
    (fun gmailError =>
       console_error ["❌ Failed to connect to Gmail:"; message_of svc gmailError] ;;
       sendNotification svc env "Trello Bot Error"
         ("Failed to connect to Gmail: " ++ message_of svc gmailError) ;;
       ret false) w = (o, wa) ->
  exists ok, calm env (record (Call Authorize ok) w) wa.
Proof.
  unfold try_catch, bind at 1, authorize, call.
  destruct (svc_authorize svc (trace w)) as [[]|m].
  - intros [= _ <-]. exists true. apply calm_refl.
  - cbn [catchable]. intros Hh. exists false.
    revert Hh. generalize (record (Call Authorize false) w) o wa.
    match goal with
    | |- forall w0 r0 w3, ?c w0 = (r0, w3) -> _ => change (preserves (calm env) c)
    end.
    frame_calm_with ltac:(apply notification_calm).
Qed.

(** A run of [main] with the client unset starts with the connection to
    Gmail and goes on calmly. *)
Lemma main_unset (w : World) (r : outcome unit) (w' : World) :
  main svc env false w = (r, w') ->
  exists ok evs,
    trace w' = (trace w ++ Call Authorize ok :: evs)%list /\
    unset_client_events env evs.
Proof.
  unfold main, bind at 1. intros H.
  match type of H with
  | match ?c w with _ => _ end = _ =>
      destruct (c w) as [[connected|e] wa] eqn:Hc; apply connect_unset in Hc
  end; destruct Hc as [ok [evs [Ht Hu]]].
  - assert (Hrest : calm env wa w').
    { revert H. generalize wa r w'.
      match goal with
      | |- forall w0 r0 w3, ?c w0 = (r0, w3) -> _ => change (preserves (calm env) c)
      end.
      unfold trello_get_cards, gmail_list_unread.
      frame_calm_with ltac:(first [apply notification_calm | apply process_messages_calm]). }
    destruct Hrest as [evs' [Ht' Hu']]. exists ok, (evs ++ evs')%list.
    split; [|now apply unset_client_events_app].
    rewrite Ht', Ht. cbn [record trace]. now rewrite <- !app_assoc.
  - injection H as _ <-. exists ok, evs. split; [|exact Hu].
    rewrite Ht. cbn [record trace]. now rewrite <- !app_assoc.
Qed.

(** The whole script without the key of the AI service. *)
Lemma script_unset (w : World) :
  truthy_opt (GROQ_API_KEY env) = false ->
  exists ok rest,
    trace (snd (script svc env w)) =
      (trace w ++
       Stderr "❌ Error: GROQ_API_KEY not found in .env file. AI classification disabled."
       :: Call Authorize ok :: rest)%list /\
    unset_client_events env rest.
Proof.
  intros Hkey. unfold script, bind at 1, groq_init. rewrite Hkey.
  unfold bind at 1, console_error, emit. cbn [join String.concat ret].
  set (w1 := record (Stderr "❌ Error: GROQ_API_KEY not found in .env file. AI classification disabled.") w).
  unfold try_catch, bind at 1.
  destruct (main svc env false w1) as [[[]|e] wm] eqn:Hm;
    apply main_unset in Hm as [ok [evs [Ht Hu]]].
  - cbn [ret snd]. exists ok, evs. split; [|exact Hu]. rewrite Ht. subst w1.
    cbn [record trace]. now rewrite <- app_assoc.
  - destruct (catchable e).
    + match goal with
      | |- context [snd (?c wm)] =>
          assert (Hh : preserves (calm env) c)
            by frame_calm_with ltac:(apply notification_calm);
          destruct (c wm) as [r w'] eqn:Hc; apply Hh in Hc
      end.
      destruct Hc as [evs' [Ht' Hu']]. cbn [snd]. exists ok, (evs ++ evs')%list.
      split; [|now apply unset_client_events_app].
      rewrite Ht', Ht. subst w1. cbn [record trace]. now rewrite <- !app_assoc.
    + cbn [snd]. exists ok, evs. split; [|exact Hu]. rewrite Ht. subst w1.
      cbn [record trace]. now rewrite <- app_assoc.
Qed.

End Calm.

(** C9, as the code has it.  In the Reply Classifier, once Gmail is
    connected, a missing TRELLO_API_KEY, TRELLO_TOKEN or
    TRELLO_SENT_CV_LIST_ID ends the run at once: an error line, an attempted
    notification, and nothing else -- no card is fetched, matched or moved.
    In the Job Status Checker a missing TRELLO_API_KEY, TRELLO_TOKEN,
    GROQ_API_KEY, TRELLO_SENT_CV_LIST_ID or
    TRELLO_JOB_DELETED_FROM_WEBSITE_LIST_ID does the same before any call.
    A missing GROQ_API_KEY does not end the run of the Reply Classifier:
    the script writes its error line, leaves the client unset and goes on
    with the connection to Gmail and with [main]; the run sends no
    classification request, a matched message is handled as one labelled
    OTHER_REPLY, and cards are only asked to move to the list of that
    label.  A label whose destination list id is missing leaves everything
    as it is: no request, the card still a candidate, the message unread. *)
Theorem missing_config_aborts (svc : Services) (env : Env) :
  (reply_config_missing env = true ->
   forall groq w,
     svc_authorize svc (trace w) = Success tt ->
     exists w' evs,
       ReplyClassifier.main svc env groq w = (Ok tt, w') /\
       trace w' =
         (trace w ++
          [Call Authorize true;
           Stderr "❌ Error: Ensure TRELLO_API_KEY, TRELLO_TOKEN, and TRELLO_SENT_CV_LIST_ID are set in .env"]
          ++ evs)%list /\
       notification_attempt env "Trello Bot Error"
         "Trello environment variables are missing." "robot" evs /\
       same_remote w w') /\
  (checker_config_missing env = true ->
   forall w,
     exists w' evs,
       JobStatusChecker.main svc env w = (Ok tt, w') /\
       trace w' =
         (trace w ++
          [Stderr "❌ Error: One or more required environment variables are missing.";
           Stderr "   (Check TRELLO_API_KEY, TRELLO_TOKEN, GROQ_API_KEY, TRELLO_SENT_CV_LIST_ID, TRELLO_JOB_DELETED_FROM_WEBSITE_LIST_ID)"]
          ++ evs)%list /\
       notification_attempt env "Job Checker Error"
         "Required .env variables are missing." "broom,robot" evs /\
       same_remote w w') /\
  (truthy_opt (GROQ_API_KEY env) = false ->
   (forall w,
      ReplyClassifier.groq_init env w =
        (Ok false,
         record (Stderr "❌ Error: GROQ_API_KEY not found in .env file. AI classification disabled.") w)) /\
   (forall subject snippet w,
      ReplyClassifier.classifyEmailWithAI svc false subject snippet w
      = (Ok "OTHER_REPLY", w)) /\
   (forall w,
      exists ok rest,
        trace (snd (ReplyClassifier.script svc env w)) =
          (trace w ++
           Stderr "❌ Error: GROQ_API_KEY not found in .env file. AI classification disabled."
           :: Call Authorize ok :: rest)%list /\
        chat_requests rest = [] /\
        Forall (fun p => snd p = text_of (TRELLO_ESTABLISHED_CONTACT_LIST_ID env))
               (move_requests rest)) /\
   (forall w r w',
      ReplyClassifier.main svc env false
        (record (Stderr "❌ Error: GROQ_API_KEY not found in .env file. AI classification disabled.") w)
      = (Ok r, w') ->
      ReplyClassifier.script svc env w = (Ok 0, w')) /\
   (forall messageId me msg card method L w,
      svc_get_message svc (trace w) messageId = Success msg ->
      MY_EMAIL env = Some me ->
      includes (toLowerCase (header_value "to" (headers msg) "")) (toLowerCase me) = true ->
      match_card (threadId msg) (sender_domain msg) (trelloCards L)
      = Ok (Some (card, method)) ->
      process_message svc env false messageId L w =
        move_matched svc env messageId
          (header_value "subject" (headers msg) "No Subject") card "OTHER_REPLY" L
          (record (Call (GetMessage messageId) true) w))) /\
  (forall label,
     truthy_opt (fst (route env label)) = false ->
     (forall messageId subject card L w,
        move_matched svc env messageId subject card label L w = (Ok L, w)) /\
     (forall groq messageId me msg card method L w w2,
        svc_get_message svc (trace w) messageId = Success msg ->
        MY_EMAIL env = Some me ->
        includes (toLowerCase (header_value "to" (headers msg) "")) (toLowerCase me) = true ->
        match_card (threadId msg) (sender_domain msg) (trelloCards L)
        = Ok (Some (card, method)) ->
        classifyEmailWithAI svc groq (header_value "subject" (headers msg) "No Subject")
          (snippet msg) (record (Call (GetMessage messageId) true) w) = (Ok label, w2) ->
        process_message svc env groq messageId L w = (Ok L, w2) /\
        moves (trace w2) = moves (trace w) /\
        board w2 = board w /\ unread w2 = unread w)).
Proof.
  assert (Hskip : forall label, truthy_opt (fst (route env label)) = false ->
            forall messageId subject card L w,
              move_matched svc env messageId subject card label L w = (Ok L, w)).
  { intros label Hl messageId subject card L w. unfold move_matched.
    destruct (route env label) as [targetListId targetListName].
    cbn [fst] in Hl. now rewrite Hl. }
  split; [|split; [|split]].
  - intros Hmiss groq w Hauth. unfold reply_config_missing in Hmiss.
    unfold ReplyClassifier.main, bind at 1, try_catch, bind at 1, authorize, call.
    rewrite Hauth. cbn [ret negb]. rewrite Hmiss.
    unfold bind, console_error, emit. cbn [join String.concat].
    destruct (Configuration.reply_notification svc env "Trello Bot Error"
                "Trello environment variables are missing."
                (record (Stderr "❌ Error: Ensure TRELLO_API_KEY, TRELLO_TOKEN, and TRELLO_SENT_CV_LIST_ID are set in .env")
                   (record (Call Authorize true) w)))
      as [w' [evs [Hrun [Htr [Hatt Hrem]]]]].
    exists w', evs. split; [exact Hrun|]. split; [|split; [exact Hatt | exact Hrem]].
    rewrite Htr. cbn [record trace]. now rewrite <- !app_assoc.
  - intros Hmiss w. unfold checker_config_missing in Hmiss.
    unfold JobStatusChecker.main. rewrite Hmiss.
    unfold bind, console_error, emit. cbn [join String.concat].
    destruct (Configuration.checker_notification svc env "Job Checker Error"
                "Required .env variables are missing."
                (record (Stderr "   (Check TRELLO_API_KEY, TRELLO_TOKEN, GROQ_API_KEY, TRELLO_SENT_CV_LIST_ID, TRELLO_JOB_DELETED_FROM_WEBSITE_LIST_ID)")
                   (record (Stderr "❌ Error: One or more required environment variables are missing.") w)))
      as [w' [evs [Hrun [Htr [Hatt Hrem]]]]].
    exists w', evs. split; [exact Hrun|]. split; [|split; [exact Hatt | exact Hrem]].
    rewrite Htr. cbn [record trace]. now rewrite <- !app_assoc.
  - intros Hkey. split; [|split; [|split; [|split]]].
    + intros w. unfold groq_init. now rewrite Hkey.
    + reflexivity.
    + intros w. destruct (script_unset env svc w Hkey) as [ok [rest [Ht [Hc Hm]]]].
      exists ok, rest. now repeat split.
    + intros w r w' Hmain. unfold script, bind at 1, groq_init. rewrite Hkey.
      unfold bind at 1, console_error, emit. cbn [join String.concat ret].
      unfold try_catch, bind at 1. now rewrite Hmain.
    + intros messageId me msg card method L w Hget Hme Hto Hmatch.
      exact (proj1 (Attempts.process_message_matched svc env false messageId me msg card
                      method "OTHER_REPLY" L w _ Hget Hme Hto Hmatch eq_refl)).
  - intros label Hl. split; [exact (Hskip label Hl)|].
    intros groq messageId me msg card method L w w2 Hget Hme Hto Hmatch Hclass.
    destruct (Attempts.process_message_matched svc env groq messageId me msg card
                method label L w w2 Hget Hme Hto Hmatch Hclass) as [Hrun Hframe].
    rewrite Hrun, (Hskip label Hl). split; [reflexivity | exact Hframe].
Qed.

Lemma missing_config_aborts_witness :
  reply_config_missing Samples.env_without_token = true /\
  checker_config_missing Samples.env_without_token = true /\
  (exists w' evs,
     ReplyClassifier.main Samples.friendly Samples.env_without_token true Samples.world
     = (Ok tt, w') /\
     trace w' =
       (trace Samples.world ++
        [Call Authorize true;
         Stderr "❌ Error: Ensure TRELLO_API_KEY, TRELLO_TOKEN, and TRELLO_SENT_CV_LIST_ID are set in .env"]
        ++ evs)%list /\
     notification_attempt Samples.env_without_token "Trello Bot Error"
       "Trello environment variables are missing." "robot" evs /\
     same_remote Samples.world w') /\
  (exists w' evs,
     JobStatusChecker.main Samples.friendly Samples.env_without_token Samples.world
     = (Ok tt, w') /\
     trace w' =
       (trace Samples.world ++
        [Stderr "❌ Error: One or more required environment variables are missing.";
         Stderr "   (Check TRELLO_API_KEY, TRELLO_TOKEN, GROQ_API_KEY, TRELLO_SENT_CV_LIST_ID, TRELLO_JOB_DELETED_FROM_WEBSITE_LIST_ID)"]
        ++ evs)%list /\
     notification_attempt Samples.env_without_token "Job Checker Error"
       "Required .env variables are missing." "broom,robot" evs /\
     same_remote Samples.world w') /\
  truthy_opt (GROQ_API_KEY Samples.env_without_groq_key) = false /\
  (exists ok rest,
     trace (snd (ReplyClassifier.script Samples.friendly Samples.env_without_groq_key
                   Samples.world)) =
       (trace Samples.world ++
        Stderr "❌ Error: GROQ_API_KEY not found in .env file. AI classification disabled."
        :: Call Authorize ok :: rest)%list /\
     chat_requests rest = [] /\
     Forall (fun p => snd p = "L_CONTACT") (move_requests rest)) /\
  truthy_opt (fst (route Samples.env_without_dropped_list "REJECTION")) = false /\
  process_message Samples.friendly Samples.env_without_dropped_list true "m1"
    (mkLocals [Samples.acme_by_domain] [] 0) Samples.world
  = (Ok (mkLocals [Samples.acme_by_domain] [] 0),
     record (Call (ChatCompletion aiModelName systemPrompt
                     (userPrompt "Re: your application" "We regret to inform you") false)
               true)
       (record (Call (GetMessage "m1") true) Samples.world)).
Proof.
  split; [reflexivity|]. split; [reflexivity|].
  pose proof (missing_config_aborts Samples.friendly Samples.env_without_token)
    as [Hreply [Hchecker _]].
  pose proof (missing_config_aborts Samples.friendly Samples.env_without_groq_key)
    as [_ [_ [Hkey _]]].
  pose proof (missing_config_aborts Samples.friendly Samples.env_without_dropped_list)
    as [_ [_ [_ Hlist]]].
  split; [exact (Hreply eq_refl true Samples.world eq_refl)|].
  split; [exact (Hchecker eq_refl Samples.world)|].
  split; [reflexivity|].
  split; [exact (proj1 (proj2 (proj2 (Hkey eq_refl))) Samples.world)|].
  split; [reflexivity|].
  exact (proj1 (proj2 (Hlist "REJECTION" eq_refl) true "m1" "me@x.com" Samples.acme_reply
                 Samples.acme_by_domain "Domain" (mkLocals [Samples.acme_by_domain] [] 0)
                 Samples.world _ eq_refl eq_refl eq_refl eq_refl eq_refl)).
Defined.

End MissingValues.
